(** * Cursor pagination for Lucid query builders: a shallow embedding

    The development follows [cursor_paginator.ts]: the cursor codec
    ([genCursor] and the decoding step of the paginate function), the
    boundary filter ([applyCursorConditions]), the handling of the order
    statements ([extractOrderByClauses], [convertOrderByToColumns],
    [clearOrderByStatements], [applyOrderBy]) and the page assembly of
    [createPaginateFunction].

    The JavaScript runtime and the query builder are not part of the
    package; the parts of them that the package relies on are modelled
    in the first half of the file:
    - strings are byte strings, read as the UTF-8 bytes of the JavaScript
      string, so that [Buffer.from(s)] and [toString('utf-8')] are the
      identity on them;
    - numbers are integers ([Z]); a number token with a fraction or an
      exponent is kept as its text, and the rounding of integers beyond
      2^53 to doubles is not modelled ([plain_value] names the values
      that are carried exactly);
    - a timestamp is a [Date] object, identified by its ISO-8601 text;
    - an object is the list of its own properties in [Object.keys] order;
      the name [__proto__], which assignment does not create as a
      property, is not used as a key;
    - a query builder is its list of statements and its limit; a where
      callback stays in the builder and runs each time the query is
      compiled; the store is a list of rows, and a fetch filters, sorts
      and truncates. *)

From Stdlib Require Import ZArith NArith String Ascii List Lia Bool.
From Stdlib Require Import Decimal DecimalString DecimalFacts DecimalPos DecimalN DecimalZ.
From Stdlib Require Import OrderedTypeEx.
From stdpp Require Import base tactics option list sorting strings.

Local Open Scope string_scope.
Local Open Scope list_scope.

(** ** Characters *)

Definition dquote : ascii := ascii_of_nat 34.
Definition backslash : ascii := ascii_of_nat 92.

Definition str1 (c : ascii) : string := String c EmptyString.

(** A character below U+0020. *)
Definition is_control (c : ascii) : bool :=
  match c with
  | Ascii _ _ _ _ _ b5 b6 b7 => negb (b5 || b6 || b7)
  end.

Definition is_ws (c : ascii) : bool :=
  match nat_of_ascii c with
  | 9 | 10 | 13 | 32 => true
  | _ => false
  end.

Definition hex_digit (n : N) : ascii :=
  match String.get (N.to_nat n) "0123456789abcdef" with
  | Some c => c
  | None => "0"%char
  end.

Definition hex_value (c : ascii) : option N :=
  let n := N_of_ascii c in
  if (48 <=? n)%N && (n <=? 57)%N then Some (n - 48)%N
  else if (97 <=? n)%N && (n <=? 102)%N then Some (n - 87)%N
  else if (65 <=? n)%N && (n <=? 70)%N then Some (n - 55)%N
  else None.

(** ** JSON values *)

#[warnings="-register-all"]
Inductive json : Type :=
| JNull
| JBool (b : bool)
| JNum (n : Z)
| JFrac (raw : string)
| JStr (s : string)
| JArr (elems : list json)
| JObj (members : list (string * json)).

(** *** [JSON.stringify] *)

Definition escape_char (c : ascii) : string :=
  if Ascii.eqb c dquote then String backslash (str1 dquote)
  else if Ascii.eqb c backslash then String backslash (str1 backslash)
  else match nat_of_ascii c with
       | 8 => String backslash "b"
       | 9 => String backslash "t"
       | 10 => String backslash "n"
       | 12 => String backslash "f"
       | 13 => String backslash "r"
       | _ =>
         if is_control c
         then String backslash
                ("u00" +:+ String (hex_digit (N_of_ascii c / 16))
                                  (str1 (hex_digit (N_of_ascii c mod 16))))
         else str1 c
       end.

Fixpoint escape (s : string) : string :=
  match s with
  | EmptyString => EmptyString
  | String c s' => escape_char c +:+ escape s'
  end.

Definition quote (s : string) : string :=
  String dquote (escape s +:+ str1 dquote).

Definition string_of_Z (n : Z) : string :=
  match Z.to_int n with
  | Pos d => NilEmpty.string_of_uint d
  | Neg d => String "-" (NilEmpty.string_of_uint d)
  end.

Fixpoint stringify (j : json) : string :=
  match j with
  | JNull => "null"
  | JBool true => "true"
  | JBool false => "false"
  | JNum n => string_of_Z n
  | JFrac raw => raw
  | JStr s => quote s
  | JArr elems =>
    "[" +:+
    (fix items (l : list json) : string :=
       match l with
       | [] => "]"
       | [x] => stringify x +:+ "]"
       | x :: l' => stringify x +:+ "," +:+ items l'
       end) elems
  | JObj members =>
    "{" +:+
    (fix fields (l : list (string * json)) : string :=
       match l with
       | [] => "}"
       | [(k, x)] => quote k +:+ ":" +:+ stringify x +:+ "}"
       | (k, x) :: l' => quote k +:+ ":" +:+ stringify x +:+ "," +:+ fields l'
       end) members
  end.

(** The text of the elements of an array and its closing bracket. *)
Definition items_text : list json -> string :=
  fix items (l : list json) : string :=
    match l with
    | [] => "]"
    | [x] => stringify x +:+ "]"
    | x :: l' => stringify x +:+ "," +:+ items l'
    end.

(** The values a cursor holds for scalar columns. *)
Definition is_scalar (j : json) : bool :=
  match j with
  | JNull | JBool _ | JNum _ | JStr _ => true
  | _ => false
  end.

(** *** [JSON.parse] *)

Fixpoint skip_ws (s : string) : string :=
  match s with
  | String c s' => if is_ws c then skip_ws s' else s
  | EmptyString => s
  end.

(** UTF-8 bytes of a code point below 2^21; a lone surrogate keeps its
    three-byte form. *)
Definition utf8 (cp : N) : string :=
  if (cp <? 128)%N then str1 (ascii_of_N cp)
  else if (cp <? 2048)%N then
    String (ascii_of_N (192 + cp / 64))
           (str1 (ascii_of_N (128 + cp mod 64)))
  else if (cp <? 65536)%N then
    String (ascii_of_N (224 + cp / 4096))
           (String (ascii_of_N (128 + (cp / 64) mod 64))
                   (str1 (ascii_of_N (128 + cp mod 64))))
  else
    String (ascii_of_N (240 + cp / 262144))
           (String (ascii_of_N (128 + (cp / 4096) mod 64))
                   (String (ascii_of_N (128 + (cp / 64) mod 64))
                           (str1 (ascii_of_N (128 + cp mod 64))))).

Definition hex4 (a b c d : ascii) : option N :=
  match hex_value a, hex_value b, hex_value c, hex_value d with
  | Some x, Some y, Some z, Some w => Some (((x * 16 + y) * 16 + z) * 16 + w)%N
  | _, _, _, _ => None
  end.

Definition simple_escape (e : ascii) : option ascii :=
  if Ascii.eqb e dquote then Some dquote
  else if Ascii.eqb e backslash then Some backslash
  else match e with
       | "/" => Some "/"
       | "b" => Some (ascii_of_nat 8)
       | "t" => Some (ascii_of_nat 9)
       | "n" => Some (ascii_of_nat 10)
       | "f" => Some (ascii_of_nat 12)
       | "r" => Some (ascii_of_nat 13)
       | _ => None
       end%char.

Definition is_high_surrogate (u : N) : bool := (55296 <=? u)%N && (u <? 56320)%N.
Definition is_low_surrogate (u : N) : bool := (56320 <=? u)%N && (u <? 57344)%N.

Definition mcons (p : string) (r : option (string * string)) : option (string * string) :=
  match r with
  | Some (str, rest) => Some (p +:+ str, rest)
  | None => None
  end.

(** The characters of a string literal after its opening quote: the
    decoded text and what follows the closing quote. *)
Fixpoint parse_chars (s : string) : option (string * string) :=
  match s with
  | EmptyString => None
  | String c s1 =>
    if Ascii.eqb c dquote then Some (EmptyString, s1)
    else if Ascii.eqb c backslash then
      match s1 with
      | EmptyString => None
      | String e s2 =>
        match simple_escape e with
        | Some ch => mcons (str1 ch) (parse_chars s2)
        | None =>
          if Ascii.eqb e "u" then
            match s2 with
            | String h1 (String h2 (String h3 (String h4 s6))) =>
              match hex4 h1 h2 h3 h4 with
              | None => None
              | Some u =>
                let single := mcons (utf8 u) (parse_chars s6) in
                if is_high_surrogate u then
                  match s6 with
                  | String b (String v (String k1 (String k2 (String k3 (String k4 s12))))) =>
                    if Ascii.eqb b backslash && Ascii.eqb v "u" then
                      match hex4 k1 k2 k3 k4 with
                      | Some w =>
                        if is_low_surrogate w
                        then mcons (utf8 (65536 + (u - 55296) * 1024 + (w - 56320))%N)
                                   (parse_chars s12)
                        else single
                      | None => single
                      end
                    else single
                  | _ => single
                  end
                else single
              end
            | _ => None
            end
          else None
        end
      end
    else if is_control c then None
    else mcons (str1 c) (parse_chars s1)
  end.

Definition digit_of_ascii (c : ascii) : option (uint -> uint) :=
  match c with
  | "0" => Some D0 | "1" => Some D1 | "2" => Some D2 | "3" => Some D3
  | "4" => Some D4 | "5" => Some D5 | "6" => Some D6 | "7" => Some D7
  | "8" => Some D8 | "9" => Some D9 | _ => None
  end%char.

Fixpoint scan_digits (s : string) : uint * string :=
  match s with
  | EmptyString => (Nil, s)
  | String c s' =>
    match digit_of_ascii c with
    | Some mk => let (d, rest) := scan_digits s' in (mk d, rest)
    | None => (Nil, s)
    end
  end.

(** The optional fraction and exponent of a number token: their text and
    what follows, or [None] when one of them is started and not finished. *)
Definition scan_frac_exp (s : string) : option (string * string) :=
  let frac :=
    match s with
    | String "." s1 =>
      match scan_digits s1 with
      | (Nil, _) => None
      | (d, rest) => Some ("." +:+ NilEmpty.string_of_uint d, rest)
      end
    | _ => Some (EmptyString, s)
    end in
  match frac with
  | None => None
  | Some (ftxt, s2) =>
    match s2 with
    | String e s3 =>
      if Ascii.eqb e "e" || Ascii.eqb e "E" then
        let (sign, s4) :=
          match s3 with
          | String "+" s' => ("+", s')
          | String "-" s' => ("-", s')
          | _ => (EmptyString, s3)
          end in
        match scan_digits s4 with
        | (Nil, _) => None
        | (d, rest) => Some (ftxt +:+ str1 e +:+ sign +:+ NilEmpty.string_of_uint d, rest)
        end
      else Some (ftxt, s2)
    | EmptyString => Some (ftxt, s2)
    end
  end.

Definition parse_number (s : string) : option (json * string) :=
  let (neg, s1) :=
    match s with
    | String "-" s' => (true, s')
    | _ => (false, s)
    end in
  match scan_digits s1 with
  | (Nil, _) => None
  | (D0 (D0 _ | D1 _ | D2 _ | D3 _ | D4 _ | D5 _ | D6 _ | D7 _ | D8 _ | D9 _), _) => None
  | (d, s2) =>
    match scan_frac_exp s2 with
    | None => None
    | Some (EmptyString, rest) =>
      Some (JNum (Z.of_int (if neg then Neg d else Pos d)), rest)
    | Some (tail, rest) =>
      Some (JFrac ((if neg then "-" else EmptyString) +:+ NilEmpty.string_of_uint d +:+ tail), rest)
    end
  end.

Fixpoint strip_prefix (word s : string) : option string :=
  match word with
  | EmptyString => Some s
  | String c word' =>
    match s with
    | String c' s' => if Ascii.eqb c c' then strip_prefix word' s' else None
    | EmptyString => None
    end
  end.

Definition expect (word : string) (s : string) (v : json) : option (json * string) :=
  match strip_prefix word s with
  | Some rest => Some (v, rest)
  | None => None
  end.

Fixpoint parse_value (fuel : nat) (s : string) : option (json * string) :=
  match fuel with
  | O => None
  | S fuel' =>
    match skip_ws s with
    | EmptyString => None
    | String c s1 =>
      if Ascii.eqb c "n" then expect "ull" s1 JNull
      else if Ascii.eqb c "t" then expect "rue" s1 (JBool true)
      else if Ascii.eqb c "f" then expect "alse" s1 (JBool false)
      else if Ascii.eqb c dquote then
        match parse_chars s1 with
        | Some (str, rest) => Some (JStr str, rest)
        | None => None
        end
      else if Ascii.eqb c "[" then
        match skip_ws s1 with
        | String "]" rest => Some (JArr [], rest)
        | _ =>
          match parse_elems fuel' s1 with
          | Some (vs, rest) => Some (JArr vs, rest)
          | None => None
          end
        end
      else if Ascii.eqb c "{" then
        match skip_ws s1 with
        | String "}" rest => Some (JObj [], rest)
        | _ =>
          match parse_members fuel' s1 with
          | Some (ms, rest) => Some (JObj ms, rest)
          | None => None
          end
        end
      else parse_number (String c s1)
    end
  end
with parse_elems (fuel : nat) (s : string) : option (list json * string) :=
  match fuel with
  | O => None
  | S fuel' =>
    match parse_value fuel' s with
    | None => None
    | Some (v, rest) =>
      match skip_ws rest with
      | String "," rest' =>
        match parse_elems fuel' rest' with
        | Some (vs, r) => Some (v :: vs, r)
        | None => None
        end
      | String "]" rest' => Some ([v], rest')
      | _ => None
      end
    end
  end
with parse_members (fuel : nat) (s : string) : option (list (string * json) * string) :=
  match fuel with
  | O => None
  | S fuel' =>
    match skip_ws s with
    | String c s1 =>
      if Ascii.eqb c dquote then
        match parse_chars s1 with
        | None => None
        | Some (k, rest) =>
          match skip_ws rest with
          | String ":" rest1 =>
            match parse_value fuel' rest1 with
            | None => None
            | Some (v, rest2) =>
              match skip_ws rest2 with
              | String "," rest3 =>
                match parse_members fuel' rest3 with
                | Some (ms, r) => Some ((k, v) :: ms, r)
                | None => None
                end
              | String "}" rest3 => Some ([(k, v)], rest3)
              | _ => None
              end
            end
          | _ => None
          end
        end
      else None
    | EmptyString => None
    end
  end.

(** [JSON.parse]: [None] stands for the [SyntaxError] it throws. *)
Definition JSON_parse (s : string) : option json :=
  match parse_value (2 * String.length s + 2) s with
  | Some (v, rest) =>
    match skip_ws rest with
    | EmptyString => Some v
    | _ => None
    end
  | None => None
  end.

(** ** Base64, as [Buffer] reads and writes it *)

Inductive sextet : Type :=
| Sextet (b5 b4 b3 b2 b1 b0 : bool).

Definition N_of_sextet (x : sextet) : N :=
  match x with
  | Sextet b5 b4 b3 b2 b1 b0 =>
    N.b2n b0 + 2 * (N.b2n b1 + 2 * (N.b2n b2 + 2 * (N.b2n b3 + 2 * (N.b2n b4 + 2 * N.b2n b5))))
  end%N.

Definition sextet_of_N (n : N) : sextet :=
  Sextet (N.testbit n 5) (N.testbit n 4) (N.testbit n 3)
         (N.testbit n 2) (N.testbit n 1) (N.testbit n 0).

Definition base64_alphabet : string :=
  "ABCDEFGHIJKLMNOPQRSTUVWXYZabcdefghijklmnopqrstuvwxyz0123456789+/".

Definition base64_char (x : sextet) : ascii :=
  match String.get (N.to_nat (N_of_sextet x)) base64_alphabet with
  | Some c => c
  | None => "="%char
  end.

Fixpoint index_of (c : ascii) (s : string) : option N :=
  match s with
  | EmptyString => None
  | String c' s' =>
    if Ascii.eqb c c' then Some 0%N
    else match index_of c s' with
         | Some n => Some (N.succ n)
         | None => None
         end
  end.

(** The decoding table accepts the standard and the URL-safe alphabet. *)
Definition unbase64 (c : ascii) : option sextet :=
  if Ascii.eqb c "-" then Some (sextet_of_N 62)
  else if Ascii.eqb c "_" then Some (sextet_of_N 63)
  else match index_of c base64_alphabet with
       | Some n => Some (sextet_of_N n)
       | None => None
       end.

(** [buf.toString('base64')]: three bytes give four characters, the last
    group is padded with [=]. *)
Fixpoint base64_encode (s : string) : string :=
  match s with
  | EmptyString => EmptyString
  | String (Ascii a0 a1 a2 a3 a4 a5 a6 a7) EmptyString =>
    String (base64_char (Sextet a7 a6 a5 a4 a3 a2))
      (String (base64_char (Sextet a1 a0 false false false false)) "==")
  | String (Ascii a0 a1 a2 a3 a4 a5 a6 a7)
      (String (Ascii b0 b1 b2 b3 b4 b5 b6 b7) EmptyString) =>
    String (base64_char (Sextet a7 a6 a5 a4 a3 a2))
      (String (base64_char (Sextet a1 a0 b7 b6 b5 b4))
         (String (base64_char (Sextet b3 b2 b1 b0 false false)) "="))
  | String (Ascii a0 a1 a2 a3 a4 a5 a6 a7)
      (String (Ascii b0 b1 b2 b3 b4 b5 b6 b7)
         (String (Ascii c0 c1 c2 c3 c4 c5 c6 c7) s')) =>
    String (base64_char (Sextet a7 a6 a5 a4 a3 a2))
      (String (base64_char (Sextet a1 a0 b7 b6 b5 b4))
         (String (base64_char (Sextet b3 b2 b1 b0 c7 c6))
            (String (base64_char (Sextet c5 c4 c3 c2 c1 c0)) (base64_encode s'))))
  end.

(** [Buffer.from(s, 'base64')] does not throw: a character outside the
    table is skipped and the first [=] ends the data. *)
Fixpoint base64_sextets (s : string) : list sextet :=
  match s with
  | EmptyString => []
  | String c s' =>
    if Ascii.eqb c "=" then []
    else match unbase64 c with
         | Some x => x :: base64_sextets s'
         | None => base64_sextets s'
         end
  end.

Fixpoint bytes_of_sextets (l : list sextet) : string :=
  match l with
  | Sextet a7 a6 a5 a4 a3 a2 :: Sextet a1 a0 b7 b6 b5 b4
      :: Sextet b3 b2 b1 b0 c7 c6 :: Sextet c5 c4 c3 c2 c1 c0 :: l' =>
    String (Ascii a0 a1 a2 a3 a4 a5 a6 a7)
      (String (Ascii b0 b1 b2 b3 b4 b5 b6 b7)
         (String (Ascii c0 c1 c2 c3 c4 c5 c6 c7) (bytes_of_sextets l')))
  | [Sextet a7 a6 a5 a4 a3 a2; Sextet a1 a0 b7 b6 b5 b4; Sextet b3 b2 b1 b0 _ _] =>
    String (Ascii a0 a1 a2 a3 a4 a5 a6 a7) (str1 (Ascii b0 b1 b2 b3 b4 b5 b6 b7))
  | [Sextet a7 a6 a5 a4 a3 a2; Sextet a1 a0 _ _ _ _] =>
    str1 (Ascii a0 a1 a2 a3 a4 a5 a6 a7)
  | _ => EmptyString
  end.

Definition base64_decode (s : string) : string :=
  bytes_of_sextets (base64_sextets s).

(** [JSON.parse(Buffer.from(cursor, 'base64').toString('utf-8'))] *)
Definition decodeCursor (cursor : string) : option json :=
  JSON_parse (base64_decode cursor).

(** What may follow a value inside an array or an object. *)
Definition delimited (rest : string) : Prop :=
  match rest with
  | String c _ => c = ","%char \/ c = "]"%char \/ c = "}"%char
  | EmptyString => False
  end.

(** ** JavaScript values and objects *)

(** What a row holds in a column: the scalars a driver returns, and
    [undefined] for a property the row does not have. *)
Inductive jsval : Type :=
| VUndefined
| VNull
| VBool (b : bool)
| VNum (n : Z)
| VStr (s : string)
| VDate (iso : string).

Global Instance jsval_eq_dec : EqDecision jsval.
Proof. solve_decision. Defined.

(** The JSON value [JSON.stringify] writes for an element of an array:
    [undefined] becomes [null], and a [Date] becomes the text its
    [toJSON] method returns. *)
Definition toJSON (v : jsval) : json :=
  match v with
  | VUndefined | VNull => JNull
  | VBool b => JBool b
  | VNum n => JNum n
  | VStr s => JStr s
  | VDate iso => JStr iso
  end.

(** An object is the list of its own properties, in the order in which
    [Object.keys] enumerates them: array indices first, in ascending
    order, then the other names in the order of their creation. *)
Definition object (V : Type) : Type := list (string * V).

Definition array_index (k : string) : option N :=
  match scan_digits k with
  | (Nil, _) => None
  | (D0 Nil, EmptyString) => Some 0%N
  | (D0 _, _) => None
  | (d, EmptyString) =>
    let n := N.of_uint d in
    if (n <? 4294967295)%N then Some n else None
  | (_, String _ _) => None
  end.

Definition Object_keys {V} (o : object V) : list string := map fst o.
Definition Object_values {V} (o : object V) : list V := map snd o.

Definition has_own {V} (k : string) (o : object V) : bool :=
  existsb (String.eqb k) (Object_keys o).

Fixpoint get_own {V} (k : string) (o : object V) : option V :=
  match o with
  | [] => None
  | (k', v) :: o' => if String.eqb k k' then Some v else get_own k o'
  end.

Fixpoint replace_own {V} (k : string) (v : V) (o : object V) : object V :=
  match o with
  | [] => []
  | (k', v') :: o' =>
    if String.eqb k k' then (k', v) :: o' else (k', v') :: replace_own k v o'
  end.

Fixpoint insert_index {V} (n : N) (k : string) (v : V) (o : object V) : object V :=
  match o with
  | [] => [(k, v)]
  | (k', v') :: o' =>
    match array_index k' with
    | Some m => if (m <? n)%N then (k', v') :: insert_index n k v o' else (k, v) :: o
    | None => (k, v) :: o
    end
  end.

(** [o[k] = v], for a name [k] other than [__proto__]. *)
Definition set_own {V} (k : string) (v : V) (o : object V) : object V :=
  if has_own k o then replace_own k v o
  else match array_index k with
       | Some n => insert_index n k v o
       | None => o ++ [(k, v)]
       end.

(** [delete o[k]]; the key [undefined] names no property of the objects
    used here. *)
Definition delete_own {V} (k : option string) (o : object V) : object V :=
  match k with
  | Some k => List.filter (fun p => negb (String.eqb k (fst p))) o
  | None => o
  end.

(** A row of the store, with named field access. *)
Definition row : Type := object jsval.

Definition field (item : row) (column : string) : jsval :=
  match get_own column item with
  | Some v => v
  | None => VUndefined
  end.

(** Truthiness of a decoded JSON value. *)
Definition frac_nonzero (raw : string) : bool :=
  (fix mantissa (s : string) : bool :=
     match s with
     | EmptyString => false
     | String c s' =>
       if Ascii.eqb c "e" || Ascii.eqb c "E" then false
       else if Ascii.eqb c "0" || Ascii.eqb c "." || Ascii.eqb c "-" then mantissa s'
       else true
     end) raw.

Definition truthy (j : json) : bool :=
  match j with
  | JNull => false
  | JBool b => b
  | JNum n => negb (n =? 0)%Z
  | JFrac raw => frac_nonzero raw
  | JStr s => negb (String.eqb s EmptyString)
  | JArr _ | JObj _ => true
  end.

(** [j.k] on a decoded JSON value that is not [null]: a later duplicate
    member of an object overrides an earlier one, and the other values
    have no property of the names read here. *)
Definition json_prop (k : string) (j : json) : option json :=
  match j with
  | JObj members => get_own k (rev members)
  | _ => None
  end.

Definition truthy_prop (k : string) (j : json) : bool :=
  match json_prop k j with
  | Some v => truthy v
  | None => false
  end.

(** ** Errors and results *)

Inductive error : Type :=
| SyntaxError
| TypeError
| StoreFailure.

Inductive outcome (A : Type) : Type :=
| Ok (a : A)
| Throw (e : error).
Arguments Ok {A} a.
Arguments Throw {A} e.

(** ** The data of the package ([types.ts]) *)

(** A direction, in lower case as [extractOrderByClauses] makes it. *)
Inductive Direction : Type := Asc | Desc.

Global Instance Direction_eq_dec : EqDecision Direction.
Proof. solve_decision. Defined.

Record OrderByClause : Type := mkClause {
  column : string;
  direction : Direction
}.

Definition TColumns : Type := object Direction.

Record TCursor : Type := mkCursor {
  data : list json;
  point_to_next : bool
}.

Record CursorPaginator : Type := mkPage {
  items : list row;
  nextCursor : option string;
  prevCursor : option string
}.

(** ** The query builder *)

Inductive connective : Type := BAnd | BOr.
Inductive operator : Type := OpGt | OpLt | OpEq.

(** A where clause as the builder records it: the arguments of the call
    ([None] for an argument that was [undefined]) and how it is joined to
    the clause before it. *)
#[warnings="-register-all"]
Inductive where_stmt : Type :=
| WhereBasic (bool_ : connective) (col : option string) (op : operator) (value : option json)
| WhereWrapped (bool_ : connective) (body : list where_stmt).

(** A statement of the builder. A basic order statement holds the
    direction the caller passed, [None] for [orderBy(column)] without one.
    [WhereCallback] is the group [applyCursorConditions] registers: a
    callback, which the builder runs each time it compiles the query,
    kept with the state it closes over: the object of columns, the truth
    value of the cursor's [point_to_next], and the array [cursor.data]
    ([None] when the decoded cursor has no array there). *)
Inductive statement : Type :=
| OrderByBasic (value : string) (dir : option Direction)
| OrderByRaw (sql : string)
| Where (w : where_stmt)
| WhereCallback (columns : TColumns) (pointToNext : bool) (values : option (list json))
| Other (grouping : string).

Record QueryBuilder : Type := mkQuery {
  statements : list statement;
  limit_ : option Z
}.

Definition is_order (s : statement) : bool :=
  match s with
  | OrderByBasic _ _ | OrderByRaw _ => true
  | _ => false
  end.

Definition is_callback (s : statement) : bool :=
  match s with
  | WhereCallback _ _ _ => true
  | _ => false
  end.

Definition push (s : statement) (q : QueryBuilder) : QueryBuilder :=
  {| statements := statements q ++ [s]; limit_ := limit_ q |}.

(** [query.orderBy(column, direction)] *)
Definition orderBy (c : string) (d : option Direction) (q : QueryBuilder) : QueryBuilder :=
  push (OrderByBasic c d) q.

(** [query.limit(n)] *)
Definition set_limit (n : Z) (q : QueryBuilder) : QueryBuilder :=
  {| statements := statements q; limit_ := Some n |}.

Definition wheres (q : QueryBuilder) : list where_stmt :=
  omap (fun s => match s with Where w => Some w | _ => None end) (statements q).

(** The ordering as the store reads it: a statement without a
    direction orders ascending. *)
Definition orders (q : QueryBuilder) : list OrderByClause :=
  omap (fun s => match s with
                 | OrderByBasic c d => Some (mkClause c (default Asc d))
                 | _ => None
                 end)
       (statements q).

(** ** The store: evaluating a query over a list of rows *)

(** SQL's three truth values. *)
Inductive tri : Type := T | F | U.

Definition tri_and (a b : tri) : tri :=
  match a, b with
  | F, _ | _, F => F
  | T, T => T
  | _, _ => U
  end.

Definition tri_or (a b : tri) : tri :=
  match a, b with
  | T, _ | _, T => T
  | F, F => F
  | _, _ => U
  end.

Definition tri_of_bool (b : bool) : tri := if b then T else F.

(** Comparing a stored value with a bound parameter. The result is
    unknown when either is null and when their types do not agree; a
    timestamp column is compared with the timestamp a text denotes. *)
Definition sql_compare (v : jsval) (p : json) : option comparison :=
  match v, p with
  | VBool a, JBool b => Some (Bool.compare a b)
  | VNum a, JNum b => Some (a ?= b)%Z
  | VStr a, JStr b => Some (String.compare a b)
  | VDate a, JStr b => Some (String.compare a b)
  | _, _ => None
  end.

Definition holds (op : operator) (c : comparison) : bool :=
  match op, c with
  | OpGt, Gt | OpLt, Lt | OpEq, Eq => true
  | _, _ => false
  end.

Definition eval_basic (op : operator) (v : jsval) (p : json) : tri :=
  match sql_compare v p with
  | Some c => tri_of_bool (holds op c)
  | None => U
  end.

(** A list of clauses [c1 b2 c2 b3 c3 ...] is read as SQL reads it:
    [AND] binds tighter than [OR]; the connective of the first clause is
    not written. *)
Fixpoint sql_terms (cur : tri) (rest : list (connective * tri)) : tri :=
  match rest with
  | [] => cur
  | (BAnd, v) :: rest' => sql_terms (tri_and cur v) rest'
  | (BOr, v) :: rest' => tri_or cur (sql_terms v rest')
  end.

Definition sql_clauses (l : list (connective * tri)) : tri :=
  match l with
  | [] => T
  | (_, v) :: rest => sql_terms v rest
  end.

Definition connective_of (w : where_stmt) : connective :=
  match w with
  | WhereBasic b _ _ _ | WhereWrapped b _ => b
  end.

Fixpoint eval_where (r : row) (w : where_stmt) : tri :=
  match w with
  | WhereBasic _ (Some c) op (Some p) => eval_basic op (field r c) p
  | WhereBasic _ _ _ _ => U
  | WhereWrapped _ body =>
    sql_clauses (map (fun w' => (connective_of w', eval_where r w')) body)
  end.

Definition eval_wheres (r : row) (ws : list where_stmt) : tri :=
  sql_clauses (map (fun w => (connective_of w, eval_where r w)) ws).

(** A clause with an [undefined] column or value is not given a meaning:
    a query that holds one is refused. *)
Fixpoint where_defined (w : where_stmt) : bool :=
  match w with
  | WhereBasic _ (Some _) _ (Some _) => true
  | WhereBasic _ _ _ _ => false
  | WhereWrapped _ body => forallb where_defined body
  end.

Definition selects (ws : list where_stmt) (r : row) : bool :=
  match eval_wheres r ws with
  | T => true
  | _ => false
  end.

(** The order of [ORDER BY] on values: total, with null first and the
    types apart. *)
Definition rank (v : jsval) : Z :=
  match v with
  | VUndefined | VNull => 0
  | VBool _ => 1
  | VNum _ => 2
  | VStr _ => 3
  | VDate _ => 4
  end.

Definition val_cmp (a b : jsval) : comparison :=
  match a, b with
  | VBool x, VBool y => Bool.compare x y
  | VNum x, VNum y => (x ?= y)%Z
  | VStr x, VStr y => String.compare x y
  | VDate x, VDate y => String.compare x y
  | _, _ => (rank a ?= rank b)%Z
  end.

Definition dir_cmp (d : Direction) (c : comparison) : comparison :=
  match d with
  | Asc => c
  | Desc => CompOpp c
  end.

Fixpoint order_cmp (os : list OrderByClause) (r1 r2 : row) : comparison :=
  match os with
  | [] => Eq
  | o :: os' =>
    match dir_cmp (direction o) (val_cmp (field r1 (column o)) (field r2 (column o))) with
    | Eq => order_cmp os' r1 r2
    | c => c
    end
  end.

Definition row_le (os : list OrderByClause) (r1 r2 : row) : Prop :=
  order_cmp os r1 r2 <> Gt.

Global Instance row_le_dec os r1 r2 : Decision (row_le os r1 r2).
Proof. unfold row_le. destruct (order_cmp os r1 r2); [left|left|right]; congruence. Defined.

Definition sort_rows (os : list OrderByClause) (rows : list row) : list row :=
  merge_sort (row_le os) rows.

(** Executing a compiled query: filter, sort, truncate. A negative
    limit is refused. *)
Definition exec (db : list row) (q : QueryBuilder) : outcome (list row) :=
  if negb (forallb where_defined (wheres q)) then Throw StoreFailure
  else
    let rows := sort_rows (orders q) (List.filter (selects (wheres q)) db) in
    match limit_ q with
    | None => Ok rows
    | Some n => if (n <? 0)%Z then Throw StoreFailure else Ok (take (Z.to_nat n) rows)
    end.

(** ** The state of a call: the builder it runs on and the fetches made *)

Record world : Type := mkWorld {
  this : QueryBuilder;
  fetched : list QueryBuilder
}.

Definition M (A : Type) : Type := world -> outcome A * world.

Definition ret {A} (a : A) : M A := fun w => (Ok a, w).
Definition throw {A} (e : error) : M A := fun w => (Throw e, w).
Definition bind {A B} (m : M A) (k : A -> M B) : M B :=
  fun w =>
    match m w with
    | (Ok a, w') => k a w'
    | (Throw e, w') => (Throw e, w')
    end.

Notation "x <- c1 ;; c2" := (bind c1 (fun x => c2))
  (at level 100, c1 at next level, right associativity).
Notation "c1 ;;; c2" := (bind c1 (fun _ => c2))
  (at level 100, right associativity).

Definition on_this (f : QueryBuilder -> QueryBuilder) : M unit :=
  fun w => (Ok tt, {| this := f (this w); fetched := fetched w |}).

Definition lift {A} (o : outcome A) : M A := fun w => (o, w).


(** ** The package ([cursor_paginator.ts]) *)

Definition json_of_cursor (c : TCursor) : json :=
  JObj [("data", JArr (data c)); ("point_to_next", JBool (point_to_next c))].

(** [genCursor]; the item is [None] when the caller passes [undefined],
    and reading a column of it throws. *)
Definition genCursor (columns : TColumns) (item : option row) (pointToNext : bool)
  : outcome string :=
  match item, Object_keys columns with
  | None, _ :: _ => Throw TypeError
  | _, keys =>
    let cursor :=
      {| data := map (fun column => toJSON (field (default [] item) column)) keys;
         point_to_next := pointToNext |} in
    Ok (base64_encode (stringify (json_of_cursor cursor)))
  end.

(** [extractOrderByClauses]: the basic order statements, each with its
    direction in lower case. Reading the direction of a statement that
    has none throws. *)
Fixpoint clauses_of (l : list statement) : outcome (list OrderByClause) :=
  match l with
  | [] => Ok []
  | OrderByBasic value (Some dir) :: l' =>
    match clauses_of l' with
    | Ok clauses => Ok ({| column := value; direction := dir |} :: clauses)
    | Throw e => Throw e
    end
  | OrderByBasic value None :: l' => Throw TypeError
  | _ :: l' => clauses_of l'
  end.

Definition extractOrderByClauses (query : QueryBuilder) : outcome (list OrderByClause) :=
  clauses_of (statements query).

Definition convertOrderByToColumns (orderByClauses : list OrderByClause) : TColumns :=
  fold_left (fun acc clause => set_own (column clause) (direction clause) acc)
            orderByClauses [].

Definition operator_text (op : operator) : string :=
  match op with
  | OpGt => ">"
  | OpLt => "<"
  | OpEq => "="
  end.

(** [query.where(column, operator, value)] and [query.orWhere(...)] of
    the builder: with an [undefined] value the call is read as the
    two-argument form [where(column, value)], an equality with the
    second argument, which here is the text of the operator. *)
Definition where_call (bool_ : connective) (column : option string) (op : operator)
    (value : option json) : where_stmt :=
  match value with
  | Some v => WhereBasic bool_ column op (Some v)
  | None => WhereBasic bool_ column OpEq (Some (JStr (operator_text op)))
  end.

(** The clauses the callback of [applyCursorConditions] writes when it
    runs, added to [query]: one group, which compares the first column of
    [columns] with the first value of the cursor and, when values remain,
    adds the equality and the group of the remaining columns.
    [pointToNext] is the truth value of [cursor.point_to_next] and
    [values] the array [cursor.data]. *)
Fixpoint applyCursorConditions (query : list where_stmt) (columns : TColumns)
    (pointToNext : bool) (values : list json) : list where_stmt :=
  let column := head (Object_keys columns) in
  let dir := head (Object_values columns) in
  let value := head values in
  let cmp :=
    if pointToNext
    then (match dir with Some Asc => OpGt | _ => OpLt end)
    else (match dir with Some Asc => OpLt | _ => OpGt end) in
  let inner := [where_call BAnd column cmp value] in
  let columns' := delete_own column columns in
  query ++
  [WhereWrapped BAnd
     match values with
     | _ :: ((_ :: _) as rest) =>
       applyCursorConditions (inner ++ [where_call BOr column OpEq value])
                             columns' pointToNext rest
     | _ => inner
     end].

(** The object of columns as the callback leaves it: it deletes the
    column it compares at each step. *)
Fixpoint columns_after (columns : TColumns) (values : list json) : TColumns :=
  let columns' := delete_own (head (Object_keys columns)) columns in
  match values with
  | _ :: ((_ :: _) as rest) => columns_after columns' rest
  | _ => columns'
  end.

(** Compiling the statements of a builder runs its callbacks in order.
    A callback reads [cursor.data.shift()] first, which throws when
    [cursor.data] is not an array; otherwise it writes its group and
    leaves the array empty and the object of columns without the columns
    it compared. The result is the statements sent to the store, or the
    error, and the statements as the builder holds them afterwards. *)
Fixpoint compile_statements (l : list statement)
  : outcome (list statement) * list statement :=
  match l with
  | [] => (Ok [], [])
  | WhereCallback columns pointToNext None :: l' => (Throw TypeError, l)
  | WhereCallback columns pointToNext (Some values) :: l' =>
    let (sent, left) := compile_statements l' in
    (match sent with
     | Ok sent' => Ok (map Where (applyCursorConditions [] columns pointToNext values) ++ sent')
     | Throw e => Throw e
     end,
     WhereCallback (columns_after columns values) pointToNext (Some []) :: left)
  | s :: l' =>
    let (sent, left) := compile_statements l' in
    (match sent with
     | Ok sent' => Ok (s :: sent')
     | Throw e => Throw e
     end,
     s :: left)
  end.

(** [await this]: the builder compiles the query and, unless that
    throws, sends it to the store; this is the one call to the store. *)
Definition await (db : list row) : M (list row) :=
  fun w =>
    let (sent, left) := compile_statements (statements (this w)) in
    let builder := {| statements := left; limit_ := limit_ (this w) |} in
    match sent with
    | Ok sent' =>
      let query := {| statements := sent'; limit_ := limit_ (this w) |} in
      (exec db query, {| this := builder; fetched := fetched w ++ [query] |})
    | Throw e => (Throw e, {| this := builder; fetched := fetched w |})
    end.

Definition clearOrderByStatements (query : QueryBuilder) : QueryBuilder :=
  {| statements := List.filter (fun s => negb (is_order s)) (statements query);
     limit_ := limit_ query |}.

Definition applyOrderBy (query : QueryBuilder) (orderByClauses : list OrderByClause)
    (reverse : bool) : QueryBuilder :=
  fold_left
    (fun q clause =>
       let dir :=
         if reverse
         then (match direction clause with Asc => Desc | Desc => Asc end)
         else direction clause in
       orderBy (column clause) (Some dir) q)
    orderByClauses query.

(** The cursor argument is [undefined], [null] or a string. *)
Definition given (cursor : option string) : bool :=
  match cursor with
  | Some s => negb (String.eqb s EmptyString)
  | None => false
  end.

(** [cursor.data], when it is an array. *)
Definition cursor_values (cursorData : json) : option (list json) :=
  match json_prop "data" cursorData with
  | Some (JArr values) => Some values
  | _ => None
  end.

(** The reads the callback makes of the decoded cursor: [cursor.data]
    must have a [shift] method. *)
Definition cursor_fields (cursorData : json) : outcome (bool * list json) :=
  match cursor_values cursorData with
  | Some values => Ok (truthy_prop "point_to_next" cursorData, values)
  | None => Throw TypeError
  end.

Definition last_item (l : list row) : option row := last l.

(** [pop] *)
Definition pop (l : list row) : list row := removelast l.

(** The function [createPaginateFunction] returns, as a computation on
    the builder it is called on. [applyCursorConditions] registers its
    callback on the builder, which runs it when the query is compiled
    under [await]. [cloneCursorData] is a shallow copy that is only read
    for [point_to_next], and [clonedColumns] is the copy of [columns]
    made before the callback deletes from it. *)
Definition paginate (db : list row) (limit : Z) (cursor : option string)
  : M CursorPaginator :=
  fun w0 =>
  (extracted <- lift (extractOrderByClauses (this w0)) ;;
   orderByClauses <-
     (if (length extracted =? 0)%nat
      then on_this (orderBy "id" (Some Desc)) ;;;
           ret (extracted ++ [{| column := "id"; direction := Desc |}])
      else ret extracted) ;;
   let columns := convertOrderByToColumns orderByClauses in
   cursorData <-
     (if given cursor
      then match decodeCursor (default EmptyString cursor) with
           | Some j => ret j
           | None => throw SyntaxError
           end
      else ret JNull) ;;
   let pointsBack :=
     given cursor && truthy cursorData && negb (truthy_prop "point_to_next" cursorData) in
   let clonedColumns := columns in
   (if given cursor && truthy cursorData
    then on_this (push (WhereCallback columns (truthy_prop "point_to_next" cursorData)
                          (cursor_values cursorData)))
    else ret tt) ;;;
   on_this clearOrderByStatements ;;;
   let shouldReverse := pointsBack in
   on_this (fun q => applyOrderBy q orderByClauses shouldReverse) ;;;
   on_this (set_limit (limit + 1)) ;;;
   items <- await db ;;
   if (length items =? 0)%nat then ret (mkPage [] None None)
   else if (Z.of_nat (length items) <=? limit)%Z then
     if negb (given cursor) then ret (mkPage items None None)
     else if truthy_prop "point_to_next" cursorData then
       prev <- lift (genCursor clonedColumns (head items) false) ;;
       ret (mkPage items None (Some prev))
     else if truthy cursorData then
       let items := rev items in
       next <- lift (genCursor clonedColumns (last_item items) true) ;;
       ret (mkPage items (Some next) None)
     else ret (mkPage items None None)
   else
     let items := pop items in
     let items := if pointsBack then rev items else items in
     nextCursorStr <- lift (genCursor clonedColumns (last_item items) true) ;;
     if negb (given cursor) then ret (mkPage items (Some nextCursorStr) None)
     else
       prev <- lift (genCursor clonedColumns (head items) false) ;;
       ret (mkPage items (Some nextCursorStr) (Some prev))) w0.

(** ** What a call computes, stage by stage

    The definitions below name the intermediate results of [paginate];
    the properties relate them to [paginate] itself. *)

(** Every basic order statement of the builder has a direction. *)
Definition directed (q : QueryBuilder) : bool :=
  forallb (fun s => match s with OrderByBasic _ None => false | _ => true end)
          (statements q).

(** The builder holds no callback: no call with a cursor has run on
    it. *)
Definition static (q : QueryBuilder) : bool :=
  forallb (fun s => negb (is_callback s)) (statements q).

(** The ordering a call works with: the basic order statements of the
    builder, or [id desc] when it has none. *)
Definition effective_order (q : QueryBuilder) : list OrderByClause :=
  let extracted := orders q in
  if (length extracted =? 0)%nat
  then extracted ++ [{| column := "id"; direction := Desc |}]
  else extracted.

Definition opposite (d : Direction) : Direction :=
  match d with
  | Asc => Desc
  | Desc => Asc
  end.

Definition fetch_order (reverse : bool) (os : list OrderByClause) : list OrderByClause :=
  map (fun o => {| column := column o;
                   direction := if reverse then opposite (direction o) else direction o |}) os.

(** The query a call sends to the store, for a builder that holds no
    callback. *)
Definition fetch_query (q : QueryBuilder) (limit : Z) (filter : list where_stmt)
    (reverse : bool) : QueryBuilder :=
  {| statements :=
       List.filter (fun s => negb (is_order s)) (statements q)
       ++ map Where filter
       ++ map (fun o => OrderByBasic (column o) (Some (direction o)))
              (fetch_order reverse (effective_order q));
     limit_ := Some (limit + 1)%Z |}.

(** How the page assembly reads the cursor argument. *)
Inductive mode : Type :=
| First       (* no cursor *)
| Forward     (* a cursor whose [point_to_next] is truthy *)
| Backward    (* a truthy cursor whose [point_to_next] is not *)
| Unshaped.   (* a cursor that decodes to a falsy value *)

Definition mode_of (cursor : option string) (cursorData : json) : mode :=
  if negb (given cursor) then First
  else if truthy_prop "point_to_next" cursorData then Forward
  else if truthy cursorData then Backward
  else Unshaped.

Definition assemble (columns : TColumns) (limit : Z) (m : mode) (fetched_rows : list row)
  : outcome CursorPaginator :=
  match fetched_rows with
  | [] => Ok (mkPage [] None None)
  | _ :: _ =>
    if (Z.of_nat (length fetched_rows) <=? limit)%Z then
      match m with
      | First | Unshaped => Ok (mkPage fetched_rows None None)
      | Forward =>
        match genCursor columns (head fetched_rows) false with
        | Ok prev => Ok (mkPage fetched_rows None (Some prev))
        | Throw e => Throw e
        end
      | Backward =>
        match genCursor columns (last_item (rev fetched_rows)) true with
        | Ok next => Ok (mkPage (rev fetched_rows) (Some next) None)
        | Throw e => Throw e
        end
      end
    else
      let kept := pop fetched_rows in
      let page := match m with Backward => rev kept | _ => kept end in
      match genCursor columns (last_item page) true with
      | Throw e => Throw e
      | Ok next =>
        match m with
        | First => Ok (mkPage page (Some next) None)
        | _ =>
          match genCursor columns (head page) false with
          | Ok prev => Ok (mkPage page (Some next) (Some prev))
          | Throw e => Throw e
          end
        end
      end
  end.

(** The cursor as the call reads it: the error it stops with, or the
    filter it adds and the mode of the assembly. *)
Definition read_cursor (columns : TColumns) (cursor : option string)
  : outcome (list where_stmt * mode) :=
  if given cursor then
    match decodeCursor (default EmptyString cursor) with
    | None => Throw SyntaxError
    | Some cursorData =>
      if truthy cursorData then
        match cursor_fields cursorData with
        | Ok (pointToNext, values) =>
          Ok (applyCursorConditions [] columns pointToNext values,
              mode_of cursor cursorData)
        | Throw e => Throw e
        end
      else Ok ([], Unshaped)
    end
  else Ok ([], First).

Definition is_backward (m : mode) : bool :=
  match m with
  | Backward => true
  | _ => false
  end.

(** The decoded cursor, [null] when no cursor is given. *)
Definition decoded (cursor : option string) : outcome json :=
  if given cursor then
    match decodeCursor (default EmptyString cursor) with
    | Some cursorData => Ok cursorData
    | None => Throw SyntaxError
    end
  else Ok JNull.

(** The callback a call registers for its cursor, if any. *)
Definition callback_for (columns : TColumns) (cursor : option string) (cursorData : json)
  : list statement :=
  if given cursor && truthy cursorData
  then [WhereCallback columns (truthy_prop "point_to_next" cursorData)
          (cursor_values cursorData)]
  else [].

(** The builder as a call has set it up when it awaits the fetch. *)
Definition fetch_builder (q : QueryBuilder) (limit : Z) (callback : list statement)
    (reverse : bool) : QueryBuilder :=
  {| statements :=
       List.filter (fun s => negb (is_order s)) (statements q)
       ++ callback
       ++ map (fun o => OrderByBasic (column o) (Some (direction o)))
              (fetch_order reverse (effective_order q));
     limit_ := Some (limit + 1)%Z |}.

(** The fetch and the assembly of the page. *)
Definition fetch_stage (db : list row) (columns : TColumns) (limit : Z) (m : mode)
    (builder : QueryBuilder) (log : list QueryBuilder) : outcome CursorPaginator * world :=
  let (sent, left) := compile_statements (statements builder) in
  let builder' := {| statements := left; limit_ := limit_ builder |} in
  match sent with
  | Ok sent' =>
    let query := {| statements := sent'; limit_ := limit_ builder |} in
    (match exec db query with
     | Ok rows => assemble columns limit m rows
     | Throw e => Throw e
     end,
     {| this := builder'; fetched := log ++ [query] |})
  | Throw e => (Throw e, {| this := builder'; fetched := log |})
  end.

(** The callback of a call as the fetch leaves it. *)
Definition callback_left (callback : list statement) : list statement :=
  snd (compile_statements callback).

(** The builder as a call leaves it: with the default ordering added
    when the cursor cannot be decoded, and otherwise as it was set up
    for the fetch, with the callback as the fetch left it. *)
Definition builder_after (q : QueryBuilder) (limit : Z) (cursor : option string)
  : QueryBuilder :=
  let columns := convertOrderByToColumns (effective_order q) in
  match decoded cursor with
  | Throw _ => if (length (orders q) =? 0)%nat then orderBy "id" (Some Desc) q else q
  | Ok cursorData =>
    fetch_builder q limit (callback_left (callback_for columns cursor cursorData))
                  (is_backward (mode_of cursor cursorData))
  end.

(** ** The boundary rule of the specification

    The rule is written over the ordering and the boundary values
    paired by position: a row is on the far side of the boundary when
    its first column is strictly beyond the boundary value in the
    direction of travel, or equal to it with the remaining columns on the
    far side by the same rule; the last column contributes the strict
    comparison only. *)

Definition strict_op (forward : bool) (d : Direction) : operator :=
  match forward, d with
  | true, Asc => OpGt
  | true, Desc => OpLt
  | false, Asc => OpLt
  | false, Desc => OpGt
  end.

Fixpoint boundary_rule (forward : bool) (bounds : list (OrderByClause * json)) (r : row)
  : tri :=
  match bounds with
  | [] => F
  | (o, v) :: rest =>
    let strict := eval_basic (strict_op forward (direction o)) (field r (column o)) v in
    match rest with
    | [] => strict
    | _ :: _ =>
      tri_or strict
             (tri_and (eval_basic OpEq (field r (column o)) v)
                      (boundary_rule forward rest r))
    end
  end.

(** The values of a row for the columns of an ordering, in its order. *)
Definition key_of (os : list OrderByClause) (r : row) : list jsval :=
  map (fun o => field r (column o)) os.

(** The column names of an ordering are distinct and none of them is an
    array index, so that the object built from it enumerates them in the
    order of the ordering. *)
Definition plain_columns (os : list OrderByClause) : Prop :=
  NoDup (map column os) /\ Forall (fun o => array_index (column o) = None) os.

(** The values [JSON.parse] gives back, as values of the language. *)
Definition js_of_json (j : json) : jsval :=
  match j with
  | JNull => VNull
  | JBool b => VBool b
  | JNum n => VNum n
  | JStr s => VStr s
  | _ => VUndefined
  end.

(** The scalars that JSON carries as they are. *)
Definition json_exact (v : jsval) : Prop :=
  match v with
  | VNull | VBool _ | VNum _ | VStr _ => True
  | VUndefined | VDate _ => False
  end.

(** One call on a fresh copy of the caller's builder. *)
Definition run_page (db : list row) (q : QueryBuilder) (limit : Z) (cursor : option string)
  : outcome CursorPaginator :=
  fst (paginate db limit cursor {| this := q; fetched := [] |}).

(** The cursor text for a boundary row. *)
Definition cursor_of (os : list OrderByClause) (r : row) (pointToNext : bool) : string :=
  base64_encode
    (stringify (json_of_cursor {| data := map toJSON (key_of os r);
                                  point_to_next := pointToNext |})).

(** The property an ordering clause becomes in the object of columns. *)
Definition entry (o : OrderByClause) : string * Direction := (column o, direction o).

(** The error a cursor string makes the call stop with before the store
    is reached, if any. *)
Definition cursor_error (cursor : string) : option error :=
  match decodeCursor cursor with
  | None => Some SyntaxError
  | Some cursorData =>
    if truthy cursorData then
      match cursor_fields cursorData with
      | Throw e => Some e
      | Ok _ => None
      end
    else None
  end.

(** ** Datasets on which keyset pagination is exact *)

(** The rows a query ranges over: those its own filters select. *)
Definition visible (db : list row) (q : QueryBuilder) : list row :=
  List.filter (selects (wheres q)) db.

(** The caller's filters are defined clauses joined by [AND], and the
    builder holds no callback. *)
Definition conjunctive (q : QueryBuilder) : bool :=
  static q &&
  forallb (fun w => where_defined w &&
                    match connective_of w with BAnd => true | BOr => false end)
          (wheres q).

(** Two values of one type, which is not null. *)
Definition same_kind (a b : jsval) : bool :=
  (rank a =? rank b)%Z && negb (rank a =? 0)%Z.

(** Every column of the ordering holds values of one type in the rows,
    and no null. *)
Definition typed_keys (os : list OrderByClause) (rows : list row) : bool :=
  forallb (fun o =>
    forallb (fun r1 =>
      forallb (fun r2 => same_kind (field r1 (column o)) (field r2 (column o))) rows)
      rows) os.

Definition is_Eq (c : comparison) : bool :=
  match c with
  | Eq => true
  | _ => false
  end.

Definition is_Lt (c : comparison) : bool :=
  match c with
  | Lt => true
  | _ => false
  end.

(** No two rows have the same key: the ordering is strict on the rows. *)
Fixpoint distinct_keys (os : list OrderByClause) (rows : list row) : bool :=
  match rows with
  | [] => true
  | r :: rest =>
    forallb (fun r' => negb (is_Eq (order_cmp os r r'))) rest && distinct_keys os rest
  end.

Definition row_lt (os : list OrderByClause) (r1 r2 : row) : Prop :=
  order_cmp os r1 r2 = Lt.

(** The rows of the query in the order of its ordering. *)
Definition listing (db : list row) (q : QueryBuilder) : list row :=
  sort_rows (effective_order q) (visible db q).

(** The ordering is strict on the rows: no row occurs twice and no two
    rows compare equal. *)
Definition strict_on (os : list OrderByClause) (rows : list row) : Prop :=
  NoDup rows /\
  forall r1 r2, r1 ∈ rows -> r2 ∈ rows -> order_cmp os r1 r2 = Eq -> r1 = r2.

(** The conditions under which the pages of a query are exact: the
    caller's filters are conjunctive, the column names of the ordering
    are distinct and none an array index, every ordering column holds
    non-null values of one type in the rows of the query, and no two of
    these rows have the same key. *)
Definition exact_listing (db : list row) (q : QueryBuilder) : Prop :=
  conjunctive q = true /\
  plain_columns (effective_order q) /\
  typed_keys (effective_order q) (visible db q) = true /\
  distinct_keys (effective_order q) (visible db q) = true.

(** The values a cursor carries to the filter as they are: null,
    booleans, strings, and the integers a double holds exactly. *)
Definition plain_value (v : json) : bool :=
  match v with
  | JNull | JBool _ | JStr _ => true
  | JNum n => (Z.abs n <=? 2 ^ 53)%Z
  | _ => false
  end.

(** The cursor argument is absent or was made from a row of the listing. *)
Definition honest_cursor (db : list row) (q : QueryBuilder) (cursor : option string) : Prop :=
  cursor = None \/
  exists b flag, b ∈ listing db q /\ cursor = Some (cursor_of (effective_order q) b flag).

Definition cursor_at (os : list OrderByClause) (flag : bool) (r : option row)
  : option string :=
  match r with
  | Some r => Some (cursor_of os r flag)
  | None => None
  end.

(** The pages of a listing [S] with at most [n] items: the first page,
    the page after the row at index [i], and the page before it. *)
Definition first_page (os : list OrderByClause) (n : nat) (S : list row) : CursorPaginator :=
  {| items := take n S;
     nextCursor := if (n <? length S)%nat then cursor_at os true (last (take n S)) else None;
     prevCursor := None |}.

Definition page_after (os : list OrderByClause) (n : nat) (S : list row) (i : nat)
  : CursorPaginator :=
  let rest := drop (Datatypes.S i) S in
  {| items := take n rest;
     nextCursor :=
       if (n <? length rest)%nat then cursor_at os true (last (take n rest)) else None;
     prevCursor := cursor_at os false (head rest) |}.

Definition page_before (os : list OrderByClause) (n : nat) (S : list row) (i : nat)
  : CursorPaginator :=
  let before := take i S in
  let page := drop (length before - n) before in
  {| items := page;
     nextCursor := cursor_at os true (last before);
     prevCursor := if (n <? length before)%nat then cursor_at os false (head page) else None |}.

(** Following the next cursors from a cursor on, with fresh copies of
    the caller's query: the items of the pages in sequence. [None] when
    the fuel runs out before a page without a next cursor is reached. *)
Fixpoint forward_pages (fuel : nat) (db : list row) (q : QueryBuilder) (limit : Z)
    (cursor : option string) : option (outcome (list row)) :=
  match fuel with
  | O => None
  | Datatypes.S fuel' =>
    match run_page db q limit cursor with
    | Throw e => Some (Throw e)
    | Ok page =>
      match nextCursor page with
      | None => Some (Ok (items page))
      | Some next =>
        match forward_pages fuel' db q limit (Some next) with
        | Some (Ok rest) => Some (Ok (items page ++ rest))
        | other => other
        end
      end
    end
  end.

Definition is_T (t : tri) : bool :=
  match t with
  | T => true
  | _ => false
  end.

(** ** Example data *)

(** The scenario of the specification: three rows ordered by [t]
    descending, then [id] descending. *)
Definition example_rows : list row :=
  [[("id", VNum 5); ("t", VNum 10)];
   [("id", VNum 4); ("t", VNum 10)];
   [("id", VNum 3); ("t", VNum 9)]].

Definition example_query : QueryBuilder :=
  mkQuery [OrderByBasic "t" (Some Desc); OrderByBasic "id" (Some Desc)] None.

(** Four rows ordered by [t] descending alone: two of them tie. *)
Definition tied_rows : list row :=
  [[("id", VNum 1); ("t", VNum 10)];
   [("id", VNum 2); ("t", VNum 9)];
   [("id", VNum 3); ("t", VNum 9)];
   [("id", VNum 4); ("t", VNum 8)]].

Definition tied_query : QueryBuilder :=
  mkQuery [OrderByBasic "t" (Some Desc)] None.

(** The object of columns with every direction inverted. *)
Definition reversed_columns (columns : TColumns) : TColumns :=
  map (fun p => (fst p, opposite (snd p))) columns.

(** Following the previous cursors from a cursor back, with fresh copies
    of the caller's query: the items of the pages, each page in front of
    the one it was reached from. [None] when the fuel runs out before a
    page without a previous cursor is reached. *)
Fixpoint backward_pages (fuel : nat) (db : list row) (q : QueryBuilder) (limit : Z)
    (cursor : option string) : option (outcome (list row)) :=
  match fuel with
  | O => None
  | Datatypes.S fuel' =>
    match run_page db q limit cursor with
    | Throw e => Some (Throw e)
    | Ok page =>
      match prevCursor page with
      | None => Some (Ok (items page))
      | Some prev =>
        match backward_pages fuel' db q limit (Some prev) with
        | Some (Ok rest) => Some (Ok (rest ++ items page))
        | other => other
        end
      end
    end
  end.

(** * Properties *)

(** ** The codec *)

Lemma append_cons (c : ascii) (s t : string) : String c s +:+ t = String c (s +:+ t).
Proof. reflexivity. Qed.

Lemma append_nil (t : string) : EmptyString +:+ t = t.
Proof. reflexivity. Qed.

Lemma append_assoc (a b c : string) : (a +:+ b) +:+ c = a +:+ (b +:+ c).
Proof. induction a as [|x a IH]; [reflexivity|]. rewrite !append_cons, IH. reflexivity. Qed.

Ltac string_norm :=
  repeat (rewrite append_assoc || rewrite append_cons || rewrite append_nil).

Lemma unbase64_base64_char (x : sextet) :
  unbase64 (base64_char x) = Some x /\ Ascii.eqb (base64_char x) "=" = false.
Proof. destruct x as [[] [] [] [] [] []]; split; reflexivity. Qed.

Lemma base64_sextets_char (x : sextet) (s : string) :
  base64_sextets (String (base64_char x) s) = x :: base64_sextets s.
Proof.
  destruct (unbase64_base64_char x) as [Hx Hpad].
  cbn [base64_sextets]. rewrite Hpad, Hx. reflexivity.
Qed.

Lemma base64_decode_encode (s : string) : base64_decode (base64_encode s) = s.
Proof.
  assert (H : forall n s, (String.length s < n)%nat -> base64_decode (base64_encode s) = s).
  { clear s. induction n as [|n IH]; intros s Hn; [lia|].
    destruct s as [|[a0 a1 a2 a3 a4 a5 a6 a7] s]; [reflexivity|].
    destruct s as [|[b0 b1 b2 b3 b4 b5 b6 b7] s].
    { unfold base64_decode. cbn [base64_encode].
      rewrite !base64_sextets_char. reflexivity. }
    destruct s as [|[c0 c1 c2 c3 c4 c5 c6 c7] s].
    { unfold base64_decode. cbn [base64_encode].
      rewrite !base64_sextets_char. reflexivity. }
    unfold base64_decode in *. cbn [base64_encode].
    rewrite !base64_sextets_char. cbn [bytes_of_sextets].
    rewrite IH; [reflexivity|]. cbn [String.length] in Hn. lia. }
  apply (H (S (String.length s))). lia.
Qed.

(** Strings *)

Lemma parse_chars_escape_char (c : ascii) (s : string) :
  parse_chars (escape_char c +:+ s) = mcons (str1 c) (parse_chars s).
Proof.
  destruct c as [[] [] [] [] [] [] [] []]; reflexivity.
Qed.

Lemma parse_chars_escape (s rest : string) :
  parse_chars (escape s +:+ String dquote rest) = Some (s, rest).
Proof.
  induction s as [|c s IH].
  - reflexivity.
  - cbn [escape]. rewrite append_assoc, parse_chars_escape_char, IH. reflexivity.
Qed.

(** Numbers *)

Lemma scan_digits_stop (rest : string) :
  delimited rest -> scan_digits rest = (Nil, rest).
Proof. destruct rest as [|c r]; [intros []|]. intros [->|[->| ->]]; reflexivity. Qed.

Lemma scan_digits_uint (d : uint) (rest : string) :
  delimited rest ->
  scan_digits (NilEmpty.string_of_uint d +:+ rest) = (d, rest).
Proof.
  intros Hrest.
  induction d; cbn [NilEmpty.string_of_uint]; string_norm;
    [apply scan_digits_stop, Hrest | cbn [scan_digits digit_of_ascii]; rewrite IHd; reflexivity ..].
Qed.

Lemma scan_frac_exp_stop (rest : string) :
  delimited rest -> scan_frac_exp rest = Some (EmptyString, rest).
Proof. destruct rest as [|c r]; [intros []|]. intros [->|[->| ->]]; reflexivity. Qed.

Lemma to_int_normal (n : Z) : norm (Z.to_int n) = Z.to_int n.
Proof. rewrite <- DecimalZ.to_of, DecimalZ.of_to. reflexivity. Qed.

Lemma unorm_fixed_shape (d : uint) :
  unorm d = d -> d <> Nil /\ forall d', d = D0 d' -> d' = Nil.
Proof.
  intros H. split.
  - rewrite <- H. apply unorm_nonnil.
  - intros d' ->. unfold unorm in H. rewrite nzhead_D0 in H.
    destruct (nzhead d') eqn:E; try (exfalso; apply (nzhead_nonzero d' d'); congruence).
    injection H as H. congruence.
Qed.

Lemma nzhead_fixed_shape (d : uint) :
  nzhead d = d -> forall d', d <> D0 d'.
Proof. intros H d' ->. apply (nzhead_nonzero (D0 d') d'). exact H. Qed.

Lemma parse_number_digits (neg : bool) (d : uint) (rest : string) :
  d <> Nil -> (forall d', d = D0 d' -> d' = Nil) -> delimited rest ->
  parse_number ((if neg then "-" else EmptyString) +:+ NilEmpty.string_of_uint d +:+ rest)
  = Some (JNum (Z.of_int (if neg then Neg d else Pos d)), rest).
Proof.
  intros Hnil Hzero Hrest.
  assert (Hscan := scan_digits_uint d rest Hrest).
  assert (Hfrac := scan_frac_exp_stop rest Hrest).
  unfold parse_number.
  destruct neg.
  - rewrite append_cons, append_nil. cbn match. rewrite Hscan.
    destruct d as [|d'|d'|d'|d'|d'|d'|d'|d'|d'|d']; try congruence;
      try (rewrite Hfrac; reflexivity).
    rewrite (Hzero d' eq_refl), Hfrac. reflexivity.
  - rewrite append_nil.
    assert (Hhead : match NilEmpty.string_of_uint d +:+ rest with
                    | String "-" s' => (true, s')
                    | _ => (false, NilEmpty.string_of_uint d +:+ rest)
                    end = (false, NilEmpty.string_of_uint d +:+ rest)).
    { destruct d; try congruence; reflexivity. }
    rewrite Hhead, Hscan.
    destruct d as [|d'|d'|d'|d'|d'|d'|d'|d'|d'|d']; try congruence;
      try (rewrite Hfrac; reflexivity).
    rewrite (Hzero d' eq_refl), Hfrac. reflexivity.
Qed.

Lemma parse_number_string_of_Z (n : Z) (rest : string) :
  delimited rest ->
  parse_number (string_of_Z n +:+ rest) = Some (JNum n, rest).
Proof.
  intros Hrest. unfold string_of_Z.
  assert (Hnorm := to_int_normal n). assert (Hback := DecimalZ.of_to n).
  destruct (Z.to_int n) as [d|d].
  - cbn [norm] in Hnorm. injection Hnorm as Hnorm.
    destruct (unorm_fixed_shape d Hnorm) as [Hnil Hzero].
    rewrite <- Hback.
    apply (parse_number_digits false d rest Hnil Hzero Hrest).
  - cbn [norm] in Hnorm.
    assert (Hd : nzhead d = d) by (destruct (nzhead d); congruence).
    rewrite <- Hback.
    change (String "-" (NilEmpty.string_of_uint d) +:+ rest)
      with ("-" +:+ NilEmpty.string_of_uint d +:+ rest).
    apply (parse_number_digits true d rest).
    + intros ->. cbn in Hnorm. discriminate.
    + intros d' E. exfalso. exact (nzhead_fixed_shape d Hd d' E).
    + exact Hrest.
Qed.

Lemma starts_number (n : Z) :
  exists c s, string_of_Z n = String c s /\
    (c = "-"%char \/ exists mk, digit_of_ascii c = Some mk).
Proof.
  unfold string_of_Z. assert (Hnorm := to_int_normal n).
  destruct (Z.to_int n) as [d|d].
  - cbn [norm] in Hnorm. injection Hnorm as Hnorm.
    destruct (unorm_fixed_shape d Hnorm) as [Hnil _].
    destruct d; try congruence; cbn [NilEmpty.string_of_uint];
      eexists _, _; (split; [reflexivity|right; eexists; reflexivity]).
  - eexists _, _. split; [reflexivity|left; reflexivity].
Qed.

Lemma parse_value_number (fuel : nat) (c : ascii) (s : string) :
  (c = "-"%char \/ exists mk, digit_of_ascii c = Some mk) ->
  parse_value (S fuel) (String c s) = parse_number (String c s).
Proof.
  intros [->|[mk Hmk]]; [reflexivity|].
  destruct c as [[] [] [] [] [] [] [] []]; try discriminate Hmk; reflexivity.
Qed.

Lemma parse_value_scalar (fuel : nat) (j : json) (rest : string) :
  is_scalar j = true -> delimited rest ->
  parse_value (S fuel) (stringify j +:+ rest) = Some (j, rest).
Proof.
  intros Hj Hrest. destruct j as [|[]|n| |s| |]; try discriminate Hj.
  - reflexivity.
  - reflexivity.
  - reflexivity.
  - cbn [stringify]. destruct (starts_number n) as (c & s & E & Hc).
    rewrite <- (parse_number_string_of_Z n rest Hrest).
    rewrite E, append_cons. apply parse_value_number, Hc.
  - cbn [stringify]. unfold quote, str1. string_norm.
    change (parse_value (S fuel) (String dquote (escape s +:+ String dquote rest)))
      with (match parse_chars (escape s +:+ String dquote rest) with
            | Some (str, r) => Some (JStr str, r)
            | None => None
            end).
    rewrite parse_chars_escape. reflexivity.
Qed.

(** Arrays of scalars and the cursor object *)

Lemma stringify_array (l : list json) : stringify (JArr l) = "[" +:+ items_text l.
Proof. reflexivity. Qed.

Lemma scalar_head (j : json) :
  is_scalar j = true ->
  exists c s, stringify j = String c s /\ is_ws c = false /\ c <> "]"%char.
Proof.
  intros Hj. destruct j as [|[]|n| |s| |]; try discriminate Hj.
  - eexists _, _. split; [reflexivity|split; [reflexivity|discriminate]].
  - eexists _, _. split; [reflexivity|split; [reflexivity|discriminate]].
  - eexists _, _. split; [reflexivity|split; [reflexivity|discriminate]].
  - destruct (starts_number n) as (c & s & E & [->|[mk Hmk]]).
    + eexists _, _. split; [exact E|split; [reflexivity|discriminate]].
    + exists c, s. split; [exact E|].
      destruct c as [[] [] [] [] [] [] [] []]; try discriminate Hmk;
        (split; [reflexivity|discriminate]).
  - eexists _, _. split; [reflexivity|split; [reflexivity|discriminate]].
Qed.

Lemma parse_value_array_nonempty (fuel : nat) (c : ascii) (s : string) :
  is_ws c = false -> c <> "]"%char ->
  parse_value (S fuel) (String "[" (String c s))
  = match parse_elems fuel (String c s) with
    | Some (vs, rest) => Some (JArr vs, rest)
    | None => None
    end.
Proof.
  intros Hws Hc.
  destruct c as [[] [] [] [] [] [] [] []]; try discriminate Hws; try congruence; reflexivity.
Qed.

Lemma parse_elems_step (fuel : nat) (s : string) :
  parse_elems (S fuel) s
  = match parse_value fuel s with
    | None => None
    | Some (v, rest) =>
      match skip_ws rest with
      | String "," rest' =>
        match parse_elems fuel rest' with
        | Some (vs, r) => Some (v :: vs, r)
        | None => None
        end
      | String "]" rest' => Some ([v], rest')
      | _ => None
      end
    end.
Proof. reflexivity. Qed.

Lemma parse_elems_items (l : list json) (rest : string) :
  l <> [] -> forallb is_scalar l = true ->
  forall fuel, (length l < fuel)%nat ->
  parse_elems fuel (items_text l +:+ rest) = Some (l, rest).
Proof.
  induction l as [|x l IH]; [congruence|]. intros _ Hl fuel Hfuel.
  cbn [forallb] in Hl. apply andb_true_iff in Hl as [Hx Hl].
  destruct fuel as [|fuel]; [lia|]. destruct fuel as [|fuel]; [cbn in Hfuel; lia|].
  rewrite parse_elems_step.
  destruct l as [|y l].
  - cbn [items_text]. string_norm.
    rewrite (parse_value_scalar fuel x (String "]" rest) Hx) by (right; left; reflexivity).
    reflexivity.
  - change (items_text (x :: y :: l)) with (stringify x +:+ "," +:+ items_text (y :: l)).
    string_norm.
    rewrite (parse_value_scalar fuel x (String "," (items_text (y :: l) +:+ rest)) Hx)
      by (left; reflexivity).
    change (skip_ws (String "," ?s)) with (String "," s). cbv iota.
    rewrite IH; [reflexivity|congruence|exact Hl|cbn [length] in *; lia].
Qed.

Lemma parse_value_array (l : list json) (rest : string) (fuel : nat) :
  forallb is_scalar l = true -> (S (length l) < fuel)%nat ->
  parse_value fuel (stringify (JArr l) +:+ rest) = Some (JArr l, rest).
Proof.
  intros Hl Hfuel. destruct fuel as [|fuel]; [lia|].
  rewrite stringify_array. string_norm.
  destruct l as [|x l]; [reflexivity|].
  assert (Hx : is_scalar x = true) by (cbn in Hl; apply andb_true_iff in Hl; tauto).
  destruct (scalar_head x Hx) as (c & s & E & Hws & Hc).
  assert (Hhead : exists s', items_text (x :: l) +:+ rest = String c s').
  { destruct l; cbn [items_text]; rewrite E; string_norm; eauto. }
  destruct Hhead as [s' Hs']. rewrite Hs', (parse_value_array_nonempty fuel c s' Hws Hc).
  rewrite <- Hs', parse_elems_items; [reflexivity|congruence|exact Hl|cbn [length] in *; lia].
Qed.

Lemma length_append (a b : string) :
  String.length (a +:+ b) = (String.length a + String.length b)%nat.
Proof. induction a as [|c a IH]; [reflexivity|]. rewrite append_cons. cbn. rewrite IH. reflexivity. Qed.

Lemma items_text_length (l : list json) : (length l <= String.length (items_text l))%nat.
Proof.
  induction l as [|x l IH]; [cbn; lia|].
  destruct l as [|y l].
  - cbn [items_text]. rewrite length_append. cbn. lia.
  - change (items_text (x :: y :: l)) with (stringify x +:+ "," +:+ items_text (y :: l)).
    rewrite !length_append. cbn [length] in *. cbn [String.length]. lia.
Qed.

Lemma parse_members_step (fuel : nat) (s1 : string) :
  parse_members (S fuel) (String dquote s1)
  = match parse_chars s1 with
    | None => None
    | Some (k, rest) =>
      match skip_ws rest with
      | String ":" rest1 =>
        match parse_value fuel rest1 with
        | None => None
        | Some (v, rest2) =>
          match skip_ws rest2 with
          | String "," rest3 =>
            match parse_members fuel rest3 with
            | Some (ms, r) => Some ((k, v) :: ms, r)
            | None => None
            end
          | String "}" rest3 => Some ([(k, v)], rest3)
          | _ => None
          end
        end
      | _ => None
      end
    end.
Proof. reflexivity. Qed.

Lemma parse_value_cursor (c : TCursor) (fuel : nat) :
  forallb is_scalar (data c) = true -> (length (data c) + 4 < fuel)%nat ->
  parse_value fuel (stringify (json_of_cursor c)) = Some (json_of_cursor c, EmptyString).
Proof.
  intros Hl Hfuel.
  destruct fuel as [|fuel]; [lia|]. destruct fuel as [|fuel]; [lia|].
  destruct fuel as [|fuel]; [lia|].
  change (stringify (json_of_cursor c))
    with ("{" +:+ quote "data" +:+ ":" +:+ stringify (JArr (data c)) +:+ ","
          +:+ quote "point_to_next" +:+ ":" +:+ stringify (JBool (point_to_next c)) +:+ "}").
  unfold quote, str1. string_norm.
  change (parse_value (S (S (S fuel))) (String "{" (String dquote ?s)))
    with (match parse_members (S (S fuel)) (String dquote s) with
          | Some (ms, rest) => Some (JObj ms, rest)
          | None => None
          end).
  rewrite parse_members_step, parse_chars_escape.
  change (skip_ws (String ":" ?s)) with (String ":" s). cbv iota.
  rewrite parse_value_array by (trivial || lia).
  change (skip_ws (String "," ?s)) with (String "," s). cbv iota.
  rewrite parse_members_step, parse_chars_escape.
  change (skip_ws (String ":" ?s)) with (String ":" s). cbv iota.
  destruct fuel as [|fuel]; [lia|].
  destruct (point_to_next c) eqn:Eb; unfold json_of_cursor; rewrite Eb; reflexivity.
Qed.

Lemma JSON_parse_cursor (c : TCursor) :
  forallb is_scalar (data c) = true ->
  JSON_parse (stringify (json_of_cursor c)) = Some (json_of_cursor c).
Proof.
  intros Hl. unfold JSON_parse. rewrite parse_value_cursor; [reflexivity|exact Hl|].
  change (stringify (json_of_cursor c))
    with ("{" +:+ quote "data" +:+ ":" +:+ stringify (JArr (data c)) +:+ ","
          +:+ quote "point_to_next" +:+ ":" +:+ stringify (JBool (point_to_next c)) +:+ "}").
  rewrite stringify_array, !length_append.
  pose proof (items_text_length (data c)). cbn [String.length]. lia.
Qed.

Lemma decodeCursor_encode (c : TCursor) :
  forallb is_scalar (data c) = true ->
  decodeCursor (base64_encode (stringify (json_of_cursor c))) = Some (json_of_cursor c).
Proof.
  intros Hl. unfold decodeCursor. rewrite base64_decode_encode. apply JSON_parse_cursor, Hl.
Qed.

(** ** The stages of a call *)

Lemma applyOrderBy_statements (os : list OrderByClause) (reverse : bool) (q : QueryBuilder) :
  applyOrderBy q os reverse
  = {| statements := statements q
         ++ map (fun o => OrderByBasic (column o) (Some (direction o))) (fetch_order reverse os);
       limit_ := limit_ q |}.
Proof.
  revert q. induction os as [|o os IH]; intros q.
  - cbn. rewrite app_nil_r. destruct q; reflexivity.
  - cbn [applyOrderBy fold_left]. fold (applyOrderBy (orderBy (column o)
      (Some (if reverse then match direction o with Asc => Desc | Desc => Asc end
             else direction o)) q)
      os reverse).
    rewrite IH. cbn. rewrite <- app_assoc. reflexivity.
Qed.

Lemma filter_order_orders (os : list OrderByClause) :
  List.filter (fun s => negb (is_order s))
              (map (fun o => OrderByBasic (column o) (Some (direction o))) os) = [].
Proof. induction os; [reflexivity|exact IHos]. Qed.

Lemma filter_order_wheres (ws : list where_stmt) :
  List.filter (fun s => negb (is_order s)) (map Where ws) = map Where ws.
Proof. induction ws as [|w ws IH]; [reflexivity|]. cbn. rewrite IH. reflexivity. Qed.

(** *** Reading the ordering *)

Lemma clauses_of_orders (l : list statement) (n : option Z) (clauses : list OrderByClause) :
  clauses_of l = Ok clauses -> clauses = orders (mkQuery l n).
Proof.
  unfold orders. cbn [statements]. revert clauses.
  induction l as [|s l IH]; intros clauses; [intros [= <-]; reflexivity|].
  destruct s as [value [dir|]| | | |]; cbn [clauses_of]; try exact (IH clauses);
    [|discriminate].
  destruct (clauses_of l) as [cs|e]; [|discriminate].
  intros [= <-]. cbn. rewrite <- (IH cs eq_refl). reflexivity.
Qed.

Lemma extract_orders (q : QueryBuilder) (clauses : list OrderByClause) :
  extractOrderByClauses q = Ok clauses -> clauses = orders q.
Proof. destruct q as [l n]. apply clauses_of_orders. Qed.

Lemma extract_throws (q : QueryBuilder) (e : error) :
  extractOrderByClauses q = Throw e -> e = TypeError /\ directed q = false.
Proof.
  unfold extractOrderByClauses, directed.
  induction (statements q) as [|s l IH]; [discriminate|].
  destruct s as [value [dir|]| | | |]; cbn [clauses_of forallb andb]; try exact IH.
  - destruct (clauses_of l) as [cs|e']; [discriminate|].
    intros [= <-]. apply IH. reflexivity.
  - intros [= <-]. split; reflexivity.
Qed.

Lemma extract_directed (q : QueryBuilder) :
  directed q = true -> extractOrderByClauses q = Ok (orders q).
Proof.
  intros Hd. destruct (extractOrderByClauses q) as [clauses|e] eqn:E.
  - rewrite (extract_orders q clauses E). reflexivity.
  - apply extract_throws in E as [_ E]. congruence.
Qed.

Lemma extract_Ok_directed (q : QueryBuilder) (clauses : list OrderByClause) :
  extractOrderByClauses q = Ok clauses -> directed q = true.
Proof.
  unfold extractOrderByClauses, directed. revert clauses.
  induction (statements q) as [|s l IH]; intros clauses; [reflexivity|].
  destruct s as [value [dir|]| | | |]; cbn [clauses_of forallb andb]; try exact (IH clauses);
    [|discriminate].
  destruct (clauses_of l) as [cs|e']; [|discriminate]. intros _. exact (IH cs eq_refl).
Qed.

(** *** The builder before the fetch *)

Lemma callback_for_not_order (columns : TColumns) (cursor : option string) (j : json) :
  List.filter (fun s => negb (is_order s)) (callback_for columns cursor j)
  = callback_for columns cursor j.
Proof. unfold callback_for. destruct (given cursor && truthy j); reflexivity. Qed.

Lemma prepared_builder (q : QueryBuilder) (limit : Z) (callback : list statement)
    (reverse : bool) :
  List.filter (fun s => negb (is_order s)) callback = callback ->
  let q1 := if (length (orders q) =? 0)%nat then orderBy "id" (Some Desc) q else q in
  set_limit (limit + 1)
    (applyOrderBy
       (clearOrderByStatements
          {| statements := statements q1 ++ callback; limit_ := limit_ q1 |})
       (effective_order q) reverse)
  = fetch_builder q limit callback reverse.
Proof.
  intros Hcb. cbv zeta. rewrite applyOrderBy_statements. unfold set_limit, fetch_builder. cbn.
  f_equal. rewrite List.filter_app, Hcb, <- app_assoc. f_equal.
  destruct (length (orders q) =? 0)%nat; [|reflexivity].
  cbn. rewrite List.filter_app. cbn. apply app_nil_r.
Qed.

Lemma prepared_builder_plain (q : QueryBuilder) (limit : Z) (reverse : bool) :
  let q1 := if (length (orders q) =? 0)%nat then orderBy "id" (Some Desc) q else q in
  set_limit (limit + 1)
    (applyOrderBy (clearOrderByStatements q1) (effective_order q) reverse)
  = fetch_builder q limit [] reverse.
Proof.
  cbv zeta. rewrite <- prepared_builder by reflexivity. cbv zeta.
  unfold clearOrderByStatements. cbn [statements limit_]. rewrite app_nil_r. reflexivity.
Qed.

Lemma truthy_prop_truthy (k : string) (j : json) :
  truthy_prop k j = true -> truthy j = true.
Proof. destruct j; try discriminate; reflexivity. Qed.

Lemma is_backward_mode (cursor : option string) (j : json) :
  is_backward (mode_of cursor j)
  = given cursor && truthy j && negb (truthy_prop "point_to_next" j).
Proof.
  unfold mode_of. destruct (given cursor); [|reflexivity]. cbn [negb andb].
  destruct (truthy_prop "point_to_next" j) eqn:E.
  - rewrite andb_false_r. reflexivity.
  - destruct (truthy j); reflexivity.
Qed.

(** A call, stage by stage: reading the ordering, decoding the cursor,
    setting up the builder, the fetch and the assembly of the page. *)
Lemma paginate_stages_general (db : list row) (limit : Z) (cursor : option string)
    (w : world) :
  paginate db limit cursor w
  = let q := this w in
    match extractOrderByClauses q with
    | Throw e => (Throw e, w)
    | Ok _ =>
      let columns := convertOrderByToColumns (effective_order q) in
      let q1 := if (length (orders q) =? 0)%nat then orderBy "id" (Some Desc) q else q in
      match decoded cursor with
      | Throw e => (Throw e, {| this := q1; fetched := fetched w |})
      | Ok cursorData =>
        let m := mode_of cursor cursorData in
        fetch_stage db columns limit m
          (fetch_builder q limit (callback_for columns cursor cursorData) (is_backward m))
          (fetched w)
      end
    end.
Proof.
  cbv zeta. unfold paginate. unfold bind at 1. unfold lift at 1.
  destruct (extractOrderByClauses (this w)) as [extracted|e] eqn:Ex; [|reflexivity].
  apply extract_orders in Ex. subst extracted.
  pose proof (fun cb => prepared_builder (this w) limit cb) as Hq.
  pose proof (prepared_builder_plain (this w) limit) as Hp.
  cbv zeta in Hq, Hp.
  unfold decoded, fetch_stage, effective_order, callback_for, mode_of in *.
  unfold bind, ret, on_this, lift, throw, await, push in *. cbn [this fetched fst snd].
  destruct (length (orders (this w)) =? 0)%nat eqn:Elen; cbn [this fetched].
  all: destruct (given cursor) eqn:Eg; cbn [andb negb this fetched].
  all: try destruct (decodeCursor (default EmptyString cursor)) as [j|] eqn:Ed;
    cbn [this fetched]; try (destruct w; reflexivity).
  all: try destruct (truthy j) eqn:Et; cbn [andb negb this fetched truthy].
  all: try (destruct (truthy_prop "point_to_next" j) eqn:Ep;
            [try (apply truthy_prop_truthy in Ep; congruence)|]);
    cbn [andb negb is_backward truthy_prop json_prop].
  all: rewrite ?Hq by reflexivity; rewrite ?Hp.
  all: match goal with
       | |- context [compile_statements ?l] =>
         destruct (compile_statements l) as [[sent|e] left]
       end; [|reflexivity].
  all: cbn [limit_ fetch_builder].
  all: match goal with |- context [exec ?d ?q] => destruct (exec d q) as [rows|e] end;
    [|reflexivity].
  all: unfold assemble; destruct rows as [|r rows]; [reflexivity|].
  all: cbn [Nat.eqb length].
  all: destruct (Z.of_nat _ <=? limit)%Z; cbn [negb andb].
  all: repeat match goal with
              | |- context [genCursor ?c ?i ?b] => destruct (genCursor c i b)
              end; reflexivity.
Qed.

(** *** Compiling the builder *)

Lemma compile_static (l : list statement) :
  forallb (fun s => negb (is_callback s)) l = true -> compile_statements l = (Ok l, l).
Proof.
  induction l as [|s l IH]; [reflexivity|]. cbn [forallb]. intros H.
  apply andb_prop in H as [Hs Hl]. cbn [compile_statements]. rewrite (IH Hl).
  destruct s; try reflexivity. discriminate Hs.
Qed.

Lemma compile_app (l1 l2 : list statement) :
  forallb (fun s => negb (is_callback s)) l1 = true ->
  compile_statements (l1 ++ l2)
  = (match fst (compile_statements l2) with
     | Ok sent => Ok (l1 ++ sent)
     | Throw e => Throw e
     end,
     l1 ++ snd (compile_statements l2)).
Proof.
  induction l1 as [|s l1 IH]; cbn [forallb app].
  - intros _. destruct (compile_statements l2) as [[sent|e] left]; reflexivity.
  - intros H. apply andb_prop in H as [Hs Hl]. cbn [compile_statements].
    rewrite (IH Hl). destruct (compile_statements l2) as [[sent|e] left];
      destruct s; try reflexivity; discriminate Hs.
Qed.

Lemma compile_callback (columns : TColumns) (b : bool) (values : option (list json))
    (l : list statement) :
  forallb (fun s => negb (is_callback s)) l = true ->
  compile_statements (WhereCallback columns b values :: l)
  = match values with
    | Some vals =>
      (Ok (map Where (applyCursorConditions [] columns b vals) ++ l),
       WhereCallback (columns_after columns vals) b (Some []) :: l)
    | None => (Throw TypeError, WhereCallback columns b None :: l)
    end.
Proof.
  intros Hl. cbn [compile_statements]. rewrite (compile_static l Hl).
  destruct values; reflexivity.
Qed.

Lemma static_cleared (q : QueryBuilder) :
  static q = true ->
  forallb (fun s => negb (is_callback s))
          (List.filter (fun s => negb (is_order s)) (statements q)) = true.
Proof.
  unfold static. induction (statements q) as [|s l IH]; [reflexivity|].
  cbn [forallb List.filter]. intros H. apply andb_prop in H as [Hs Hl].
  destruct (negb (is_order s)); [|exact (IH Hl)]. cbn [forallb]. rewrite Hs. exact (IH Hl).
Qed.

Lemma static_orders (os : list OrderByClause) :
  forallb (fun s => negb (is_callback s))
          (map (fun o => OrderByBasic (column o) (Some (direction o))) os) = true.
Proof. induction os as [|o os IH]; [reflexivity|exact IH]. Qed.

Lemma callback_left_callback_for (columns : TColumns) (cursor : option string) (j : json) :
  callback_left (callback_for columns cursor j)
  = if given cursor && truthy j
    then [WhereCallback
            (match cursor_values j with
             | Some vals => columns_after columns vals
             | None => columns
             end)
            (truthy_prop "point_to_next" j)
            (match cursor_values j with
             | Some _ => Some []
             | None => None
             end)]
    else [].
Proof.
  unfold callback_left, callback_for. destruct (given cursor && truthy j); [|reflexivity].
  destruct (cursor_values j); reflexivity.
Qed.

(** The fetch of a builder that held no callback before the call. *)
Lemma compile_fetch_builder (q : QueryBuilder) (limit : Z) (columns : TColumns)
    (cursor : option string) (j : json) (reverse : bool) :
  static q = true ->
  compile_statements (statements (fetch_builder q limit (callback_for columns cursor j) reverse))
  = (if given cursor && truthy j
     then match cursor_fields j with
          | Ok (b, vals) =>
            Ok (statements (fetch_query q limit (applyCursorConditions [] columns b vals)
                              reverse))
          | Throw e => Throw e
          end
     else Ok (statements (fetch_query q limit [] reverse)),
     statements (fetch_builder q limit (callback_left (callback_for columns cursor j))
                   reverse)).
Proof.
  intros Hs. unfold fetch_builder, fetch_query. cbn [statements].
  rewrite (compile_app _ _ (static_cleared q Hs)).
  rewrite callback_left_callback_for. unfold callback_for, cursor_fields.
  destruct (given cursor && truthy j).
  - cbn [app]. rewrite compile_callback by apply static_orders.
    destruct (cursor_values j) as [vals|]; reflexivity.
  - cbn [app map]. rewrite compile_static by apply static_orders. reflexivity.
Qed.

(** A call on a builder that holds no callback and whose order
    statements have directions. *)
Lemma paginate_stages (db : list row) (limit : Z) (cursor : option string) (w : world) :
  static (this w) = true -> directed (this w) = true ->
  paginate db limit cursor w
  = let q := this w in
    let columns := convertOrderByToColumns (effective_order q) in
    match read_cursor columns cursor with
    | Throw e => (Throw e, {| this := builder_after q limit cursor; fetched := fetched w |})
    | Ok (filter, m) =>
      let qf := fetch_query q limit filter (is_backward m) in
      (match exec db qf with
       | Ok rows => assemble columns limit m rows
       | Throw e => Throw e
       end,
       {| this := builder_after q limit cursor; fetched := fetched w ++ [qf] |})
    end.
Proof.
  intros Hs Hd. rewrite paginate_stages_general. cbv zeta.
  rewrite (extract_directed _ Hd).
  unfold read_cursor, builder_after, decoded. cbv zeta.
  destruct (given cursor) eqn:Eg.
  - destruct (decodeCursor (default EmptyString cursor)) as [j|] eqn:Ed; [|reflexivity].
    unfold fetch_stage. rewrite (compile_fetch_builder _ _ _ _ _ _ Hs), Eg. cbn [andb].
    destruct (truthy j) eqn:Et.
    + destruct (cursor_fields j) as [[b vals]|e]; reflexivity.
    + unfold mode_of. rewrite Eg. cbn [negb].
      destruct (truthy_prop "point_to_next" j) eqn:Ep;
        [apply truthy_prop_truthy in Ep; congruence|].
      rewrite Et. reflexivity.
  - unfold fetch_stage. rewrite (compile_fetch_builder _ _ _ _ _ _ Hs), Eg. cbn [andb].
    unfold mode_of. rewrite Eg. reflexivity.
Qed.

Lemma compile_sent (B : Type) (f : statement -> option B) (l sent left : list statement) :
  (forall w, f (Where w) = None) ->
  (forall columns b values, f (WhereCallback columns b values) = None) ->
  compile_statements l = (Ok sent, left) -> omap f sent = omap f l.
Proof.
  intros Hw Hc. revert sent left.
  induction l as [|s l IH]; intros sent left; [intros [= <- _]; reflexivity|].
  destruct s as [c d|sql|x|columns b [vals|]|g]; cbn [compile_statements];
    try discriminate;
    destruct (compile_statements l) as [[sent'|e] left'] eqn:E; try discriminate;
    specialize (IH sent' left' eq_refl); intros [= <- _];
    try (cbn; rewrite IH; reflexivity).
  assert (H : omap f (map Where (applyCursorConditions [] columns b vals)) = []).
  { induction (applyCursorConditions [] columns b vals) as [|x xs IHx]; [reflexivity|].
    cbn. rewrite Hw. exact IHx. }
  rewrite omap_app, H. cbn. rewrite Hc. exact IH.
Qed.


Lemma orders_fetch_builder (q : QueryBuilder) (limit : Z) (columns : TColumns)
    (cursor : option string) (j : json) (reverse : bool) :
  orders (fetch_builder q limit (callback_for columns cursor j) reverse)
  = fetch_order reverse (effective_order q).
Proof.
  unfold orders, fetch_builder. cbn [statements]. rewrite !omap_app.
  assert (H0 : forall l, omap (fun s => match s with
                                      | OrderByBasic c d => Some (mkClause c (default Asc d))
                                      | _ => None
                                      end)
                           (List.filter (fun s => negb (is_order s)) l) = []).
  { induction l as [|s l IH]; [reflexivity|]. cbn [List.filter].
    destruct s; cbn; exact IH. }
  assert (H2 : forall os, omap (fun s => match s with
                                       | OrderByBasic c d => Some (mkClause c (default Asc d))
                                       | _ => None
                                       end)
                            (map (fun o => OrderByBasic (column o) (Some (direction o))) os)
                          = os).
  { induction os as [|[c d] os IH]; [reflexivity|]. cbn. rewrite IH. reflexivity. }
  rewrite H0, H2. unfold callback_for. destruct (given cursor && truthy j); reflexivity.
Qed.

(** What a call that returns a page has done, on any builder. *)
Lemma paginate_ok (db : list row) (limit : Z) (cursor : option string) (w : world)
    (page : CursorPaginator) :
  fst (paginate db limit cursor w) = Ok page ->
  let q := this w in
  let columns := convertOrderByToColumns (effective_order q) in
  exists sent m rows,
    directed q = true /\
    fetched (snd (paginate db limit cursor w)) = fetched w ++ [sent] /\
    exec db sent = Ok rows /\
    assemble columns limit m rows = Ok page /\
    orders sent = fetch_order (is_backward m) (effective_order q) /\
    limit_ sent = Some (limit + 1)%Z /\
    (given cursor = false -> m = First) /\
    (static q = true ->
     exists filter, read_cursor columns cursor = Ok (filter, m) /\
                    sent = fetch_query q limit filter (is_backward m)).
Proof.
  rewrite paginate_stages_general. cbv zeta.
  destruct (extractOrderByClauses (this w)) as [clauses|e] eqn:Ex; [|discriminate].
  apply extract_Ok_directed in Ex.
  destruct (decoded cursor) as [j|e] eqn:Ed; [|discriminate].
  unfold fetch_stage.
  destruct (compile_statements _) as [[sent|e] left] eqn:Ec; [|discriminate].
  cbn [fst snd fetched limit_ fetch_builder].
  destruct (exec db _) as [rows|e] eqn:Ee; [|discriminate].
  intros Ha. eexists _, _, rows. split; [exact Ex|]. split; [reflexivity|].
  split; [exact Ee|]. split; [exact Ha|]. split; [|split; [reflexivity|split]].
  - rewrite <- (orders_fetch_builder (this w) limit
                  (convertOrderByToColumns (effective_order (this w))) cursor j).
    unfold orders. cbn [statements]. eapply compile_sent; [reflexivity|reflexivity|exact Ec].
  - intros Hg. unfold mode_of. rewrite Hg. reflexivity.
  - intros Hs. rewrite (compile_fetch_builder _ _ _ _ _ _ Hs) in Ec.
    unfold read_cursor. unfold decoded in Ed.
    destruct (given cursor) eqn:Eg; cbn [andb] in Ec.
    + destruct (decodeCursor (default EmptyString cursor)) as [j'|]; [|discriminate Ed].
      injection Ed as ->. destruct (truthy j) eqn:Et.
      * destruct (cursor_fields j) as [[b vals]|e]; [|discriminate Ec].
        injection Ec as <- _. eexists. split; reflexivity.
      * injection Ec as <- _. exists []. split; [|reflexivity].
        unfold mode_of. rewrite Eg, Et. cbn [negb].
        destruct (truthy_prop "point_to_next" j) eqn:Ep;
          [apply truthy_prop_truthy in Ep; congruence|reflexivity].
    + injection Ed as <-. injection Ec as <- _. exists [].
      unfold mode_of. rewrite Eg. split; reflexivity.
Qed.

Lemma fetch_order_same (os : list OrderByClause) : fetch_order false os = os.
Proof.
  unfold fetch_order. induction os as [|[c d] os IH]; [reflexivity|].
  cbn. rewrite IH. reflexivity.
Qed.
(** ** Objects built from an ordering *)

Lemma has_own_false {V} (k : string) (o : object V) :
  k ∉ Object_keys o -> has_own k o = false.
Proof.
  unfold has_own, Object_keys. induction o as [|[k' v] o IH]; intros Hk; [reflexivity|].
  cbn in *. apply not_elem_of_cons in Hk as [Hne Hk].
  rewrite IH by exact Hk. apply String.eqb_neq in Hne. rewrite Hne. reflexivity.
Qed.

Lemma set_own_fresh {V} (k : string) (v : V) (o : object V) :
  k ∉ Object_keys o -> array_index k = None -> set_own k v o = o ++ [(k, v)].
Proof. intros Hk Hi. unfold set_own. rewrite has_own_false, Hi by exact Hk. reflexivity. Qed.

Lemma convert_plain_from (os : list OrderByClause) (acc : TColumns) :
  NoDup (Object_keys acc ++ map column os) ->
  Forall (fun o => array_index (column o) = None) os ->
  fold_left (fun acc clause => set_own (column clause) (direction clause) acc) os acc
  = acc ++ map entry os.
Proof.
  revert acc. induction os as [|o os IH]; intros acc Hnd Hpl.
  - cbn. rewrite app_nil_r. reflexivity.
  - cbn [fold_left map]. apply Forall_cons in Hpl as [Ho Hpl].
    assert (Hfresh : column o ∉ Object_keys acc).
    { apply NoDup_app in Hnd as (_ & Hd & _). intros Hin. apply (Hd _ Hin). left. }
    rewrite set_own_fresh by assumption.
    rewrite IH; [rewrite <- app_assoc; reflexivity| |exact Hpl].
    unfold Object_keys in *. rewrite map_app, <- app_assoc. exact Hnd.
Qed.

Lemma convert_plain (os : list OrderByClause) :
  plain_columns os -> convertOrderByToColumns os = map entry os.
Proof.
  intros [Hnd Hpl]. unfold convertOrderByToColumns.
  rewrite convert_plain_from; [reflexivity|exact Hnd|exact Hpl].
Qed.

Lemma keys_entries (os : list OrderByClause) : Object_keys (map entry os) = map column os.
Proof. unfold Object_keys. rewrite map_map. reflexivity. Qed.

(** ** The filter *)

Lemma applyCursorConditions_app (q : list where_stmt) (cols : TColumns) (b : bool)
    (vals : list json) :
  applyCursorConditions q cols b vals = q ++ applyCursorConditions [] cols b vals.
Proof. destruct vals as [|v [|v' vals]]; reflexivity. Qed.

Lemma applyCursorConditions_more (q : list where_stmt) (cols : TColumns) (b : bool)
    (v v' : json) (vals : list json) :
  applyCursorConditions q cols b (v :: v' :: vals)
  = let column := head (Object_keys cols) in
    let cmp :=
      if b then match head (Object_values cols) with Some Asc => OpGt | _ => OpLt end
      else match head (Object_values cols) with Some Asc => OpLt | _ => OpGt end in
    q ++ [WhereWrapped BAnd
            (applyCursorConditions
               [WhereBasic BAnd column cmp (Some v); WhereBasic BOr column OpEq (Some v)]
               (delete_own column cols) b (v' :: vals))].
Proof. reflexivity. Qed.

Lemma delete_own_head (o : OrderByClause) (os : list OrderByClause) :
  column o ∉ map column os ->
  delete_own (Some (column o)) (map entry (o :: os)) = map entry os.
Proof.
  intros Hfresh. cbn. rewrite String.eqb_refl. cbn.
  induction os as [|o' os IH]; [reflexivity|].
  cbn in *. apply not_elem_of_cons in Hfresh as [Hne Hfresh].
  apply String.eqb_neq in Hne. rewrite Hne. cbn. rewrite IH by exact Hfresh. reflexivity.
Qed.

Lemma applyCursorConditions_rule (b : bool) (vals : list json) :
  forall os : list OrderByClause,
  NoDup (map column os) -> vals <> [] -> (length vals <= length os)%nat ->
  exists body, applyCursorConditions [] (map entry os) b vals = [WhereWrapped BAnd body] /\
            forallb where_defined body = true /\
            forall r, eval_where r (WhereWrapped BAnd body) = boundary_rule b (zip os vals) r.
Proof.
  induction vals as [|v vals IH]; [congruence|]. intros os Hnd _ Hlen.
  destruct os as [|o os]; [cbn in Hlen; lia|].
  apply NoDup_cons in Hnd as [Hfresh Hnd].
  destruct vals as [|v' vals].
  - eexists. split; [reflexivity|]. split; [reflexivity|]. intros r.
    cbn [zip zip_with boundary_rule]. cbn.
    destruct o as [c d], b, d, os; reflexivity.
  - destruct (IH os Hnd ltac:(congruence) ltac:(cbn in *; lia)) as (w & Hw & Hdef & Heval).
    destruct os as [|o' os]; [cbn in Hlen; lia|].
    eexists. split.
    { rewrite applyCursorConditions_more. cbv zeta.
      change (head (Object_keys (map entry (o :: o' :: os)))) with (Some (column o)).
      rewrite (delete_own_head o (o' :: os) Hfresh), applyCursorConditions_app, Hw.
      reflexivity. }
    split; [cbn [forallb app where_defined] in *; rewrite Hdef; reflexivity|].
    intros r. specialize (Heval r).
    change (zip (o :: o' :: os) (v :: v' :: vals))
      with ((o, v) :: zip (o' :: os) (v' :: vals)).
    change (boundary_rule b ((o, v) :: zip (o' :: os) (v' :: vals)) r)
      with (tri_or (eval_basic (strict_op b (direction o)) (field r (column o)) v)
              (tri_and (eval_basic OpEq (field r (column o)) v)
                 (boundary_rule b (zip (o' :: os) (v' :: vals)) r))).
    rewrite <- Heval. cbn [eval_where map app connective_of sql_clauses sql_terms].
    destruct o as [c d], b, d; reflexivity.
Qed.

(** ** Cursors of rows *)

Lemma toJSON_scalar (vs : list jsval) : forallb is_scalar (map toJSON vs) = true.
Proof. induction vs as [|v vs IH]; [reflexivity|]. cbn. rewrite IH. destruct v; reflexivity. Qed.

Lemma genCursor_item (columns : TColumns) (item : row) (b : bool) :
  genCursor columns (Some item) b
  = Ok (base64_encode
          (stringify (json_of_cursor
             {| data := map (fun c => toJSON (field item c)) (Object_keys columns);
                point_to_next := b |}))).
Proof. unfold genCursor. destruct (Object_keys columns); reflexivity. Qed.

Lemma genCursor_plain (os : list OrderByClause) (item : row) (b : bool) :
  plain_columns os ->
  genCursor (convertOrderByToColumns os) (Some item) b = Ok (cursor_of os item b).
Proof.
  intros Hos. rewrite genCursor_item, (convert_plain os Hos), keys_entries.
  unfold cursor_of, key_of. rewrite !map_map. reflexivity.
Qed.

Lemma decodeCursor_cursor_of (os : list OrderByClause) (item : row) (b : bool) :
  decodeCursor (cursor_of os item b)
  = Some (json_of_cursor {| data := map toJSON (key_of os item); point_to_next := b |}).
Proof. apply decodeCursor_encode. cbn [data]. apply toJSON_scalar. Qed.

Lemma js_of_json_exact (vs : list jsval) :
  Forall json_exact vs -> map js_of_json (map toJSON vs) = vs.
Proof.
  induction 1 as [|v vs Hv _ IH]; [reflexivity|].
  cbn [map]. rewrite IH. destruct v; cbn in Hv; try contradiction; reflexivity.
Qed.

(** C3. For an ordering whose column names are distinct and
    none an array index, the cursor made from a row decodes to the JSON
    images of the row's values for the columns, in the order of the
    ordering, with the flag it was made with. The images are the values
    themselves for strings, numbers, booleans and null; a timestamp comes
    back as its ISO text and a missing value as null. *)
Theorem cursor_round_trip (os : list OrderByClause) (item : row) (b : bool) :
  plain_columns os ->
  exists s,
    genCursor (convertOrderByToColumns os) (Some item) b = Ok s /\
    decodeCursor s
    = Some (json_of_cursor {| data := map toJSON (key_of os item); point_to_next := b |}) /\
    (Forall json_exact (key_of os item) ->
     map js_of_json (map toJSON (key_of os item)) = key_of os item).
Proof.
  intros Hos. exists (cursor_of os item b).
  split; [apply genCursor_plain, Hos|].
  split; [apply decodeCursor_cursor_of|apply js_of_json_exact].
Qed.

Lemma cursor_round_trip_witness :
  exists s,
    genCursor (convertOrderByToColumns [mkClause "t" Desc; mkClause "id" Desc])
              (Some [("id", VNum 4); ("t", VNum 10)]) true = Ok s /\
    decodeCursor s
    = Some (json_of_cursor
              {| data := map toJSON (key_of [mkClause "t" Desc; mkClause "id" Desc]
                                            [("id", VNum 4); ("t", VNum 10)]);
                 point_to_next := true |}) /\
    (Forall json_exact (key_of [mkClause "t" Desc; mkClause "id" Desc]
                               [("id", VNum 4); ("t", VNum 10)]) ->
     map js_of_json (map toJSON (key_of [mkClause "t" Desc; mkClause "id" Desc]
                                        [("id", VNum 4); ("t", VNum 10)]))
     = key_of [mkClause "t" Desc; mkClause "id" Desc] [("id", VNum 4); ("t", VNum 10)]).
Proof.
  apply (cursor_round_trip [mkClause "t" Desc; mkClause "id" Desc]
                           [("id", VNum 4); ("t", VNum 10)] true).
  split.
  - compute_done.
  - repeat constructor.
Defined.

(** The cursor made from a row with a timestamp decodes to a string
    where the row holds a [Date]. *)
Lemma cursor_round_trip_timestamp :
  exists s,
    genCursor (convertOrderByToColumns [mkClause "created_at" Desc])
              (Some [("created_at", VDate "2024-05-01T10:00:00.000Z")]) true = Ok s /\
    decodeCursor s
    = Some (json_of_cursor {| data := [JStr "2024-05-01T10:00:00.000Z"];
                              point_to_next := true |}) /\
    map js_of_json [JStr "2024-05-01T10:00:00.000Z"]
    <> key_of [mkClause "created_at" Desc]
              [("created_at", VDate "2024-05-01T10:00:00.000Z")].
Proof.
  eexists. split; [vm_compute; reflexivity|].
  split; [vm_compute; reflexivity|]. vm_compute. discriminate.
Qed.

(** ** The fetched query *)

Lemma omap_filter_order {B} (f : statement -> option B) (l : list statement) :
  (forall s, is_order s = true -> f s = None) ->
  omap f (List.filter (fun s => negb (is_order s)) l)
  = omap f l.
Proof.
  intros Hf. induction l as [|s l IH]; [reflexivity|].
  cbn [List.filter]. destruct (is_order s) eqn:E; cbn [negb].
  - rewrite IH. cbn. rewrite (Hf s E). reflexivity.
  - cbn. rewrite IH. reflexivity.
Qed.

Lemma wheres_fetch_query (q : QueryBuilder) (limit : Z) (filter : list where_stmt)
    (reverse : bool) :
  wheres (fetch_query q limit filter reverse) = wheres q ++ filter.
Proof.
  unfold wheres, fetch_query. cbn [statements]. rewrite !omap_app.
  rewrite omap_filter_order by (intros []; cbn; congruence).
  f_equal.
  assert (H1 : forall ws, omap (fun s => match s with Where w => Some w | _ => None end)
                            (map Where ws) = ws).
  { induction ws as [|w ws IH]; [reflexivity|]. cbn. rewrite IH. reflexivity. }
  assert (H2 : forall os, omap (fun s => match s with Where w => Some w | _ => None end)
                            (map (fun o => OrderByBasic (column o) (Some (direction o))) os) = []).
  { induction os as [|o os IH]; [reflexivity|]. exact IH. }
  rewrite H1, H2. apply app_nil_r.
Qed.

Lemma orders_fetch_query (q : QueryBuilder) (limit : Z) (filter : list where_stmt)
    (reverse : bool) :
  orders (fetch_query q limit filter reverse) = fetch_order reverse (effective_order q).
Proof.
  unfold orders, fetch_query. cbn [statements]. rewrite !omap_app.
  assert (H0 : forall l, omap (fun s => match s with
                                      | OrderByBasic c d => Some (mkClause c (default Asc d))
                                      | _ => None
                                      end)
                           (List.filter (fun s => negb (is_order s)) l) = []).
  { induction l as [|s l IH]; [reflexivity|]. cbn [List.filter].
    destruct s; cbn; exact IH. }
  assert (H1 : forall ws, omap (fun s => match s with
                                       | OrderByBasic c d => Some (mkClause c (default Asc d))
                                       | _ => None
                                       end) (map Where ws) = []).
  { induction ws as [|w ws IH]; [reflexivity|]. exact IH. }
  assert (H2 : forall os, omap (fun s => match s with
                                       | OrderByBasic c d => Some (mkClause c (default Asc d))
                                       | _ => None
                                       end)
                            (map (fun o => OrderByBasic (column o) (Some (direction o))) os) = os).
  { induction os as [|[c d] os IH]; [reflexivity|]. cbn. rewrite IH. reflexivity. }
  rewrite H0, H1, H2. reflexivity.
Qed.

Lemma exec_fetch_query (db : list row) (q : QueryBuilder) (limit : Z)
    (filter : list where_stmt) (reverse : bool) :
  forallb where_defined (wheres q ++ filter) = true -> (0 <= limit + 1)%Z ->
  exec db (fetch_query q limit filter reverse)
  = Ok (take (Z.to_nat (limit + 1))
             (sort_rows (fetch_order reverse (effective_order q))
                        (List.filter (selects (wheres q ++ filter)) db))).
Proof.
  intros Hdef Hlim. unfold exec.
  rewrite wheres_fetch_query, orders_fetch_query, Hdef. cbn [negb limit_ fetch_query].
  destruct (limit + 1 <? 0)%Z eqn:E; [lia|reflexivity].
Qed.

Lemma effective_order_nonempty (q : QueryBuilder) : effective_order q <> [].
Proof.
  unfold effective_order. destruct (orders q) as [|o os]; cbn; congruence.
Qed.

Lemma set_own_nonempty {V} (k : string) (v : V) (o : object V) : set_own k v o <> [].
Proof.
  unfold set_own. destruct (has_own k o) eqn:E.
  - destruct o as [|[k' v'] o]; [discriminate E|]. cbn. destruct (String.eqb k k'); discriminate.
  - destruct (array_index k).
    + destruct o as [|[k' v'] o]; cbn; [discriminate|].
      destruct (array_index k'); [destruct (_ <? _)%N|]; discriminate.
    + destruct o; discriminate.
Qed.

Lemma columns_nonempty (os : list OrderByClause) :
  os <> [] -> Object_keys (convertOrderByToColumns os) <> [].
Proof.
  intros Hos. unfold convertOrderByToColumns.
  assert (H : forall l acc, (acc <> [] \/ l <> []) ->
            fold_left (fun acc clause => set_own (column clause) (direction clause) acc) l acc
            <> ([] : TColumns)).
  { induction l as [|o l IH]; intros acc [Ha|Hl]; cbn; try congruence.
    - apply IH. left. apply set_own_nonempty.
    - apply IH. left. apply set_own_nonempty. }
  specialize (H os [] (or_intror Hos)). unfold Object_keys.
  intros E. apply H. apply (map_eq_nil fst). exact E.
Qed.

(** ** Single calls *)


Lemma read_cursor_shaped (columns : TColumns) (c : string) (vals : list json) (b : bool) :
  given (Some c) = true ->
  decodeCursor c = Some (json_of_cursor {| data := vals; point_to_next := b |}) ->
  read_cursor columns (Some c)
  = Ok (applyCursorConditions [] columns b vals, if b then Forward else Backward).
Proof.
  intros Hg Hd. unfold read_cursor. rewrite Hg. change (default EmptyString (Some c)) with c. rewrite Hd.
  unfold mode_of. rewrite Hg. destruct b; reflexivity.
Qed.

(** A decoded cursor that holds an array of values. *)
Lemma read_cursor_values (columns : TColumns) (c : string) (j : json) (vals : list json) :
  given (Some c) = true -> decodeCursor c = Some j -> cursor_values j = Some vals ->
  read_cursor columns (Some c)
  = Ok (applyCursorConditions [] columns (truthy_prop "point_to_next" j) vals,
        if truthy_prop "point_to_next" j then Forward else Backward).
Proof.
  intros Hg Hd Hv. unfold read_cursor. rewrite Hg.
  change (default EmptyString (Some c)) with c. rewrite Hd.
  assert (Ht : truthy j = true).
  { unfold cursor_values in Hv. destruct j; try discriminate. reflexivity. }
  unfold cursor_fields, mode_of. rewrite Ht, Hv, Hg. cbn [negb].
  destruct (truthy_prop "point_to_next" j); reflexivity.
Qed.

Lemma eval_wheres_single (r : row) (w : where_stmt) : eval_wheres r [w] = eval_where r w.
Proof. reflexivity. Qed.

(** C9. A call that returns a page, on a builder that holds no
    callback of an earlier call, has made exactly one fetch and has
    changed the builder it ran on. The query fetched holds the caller's
    statements other than the order statements, then the group of the
    cursor when a cursor that decodes to a truthy value was given, then
    the ordering of the call, inverted when that cursor's
    [point_to_next] is not truthy, and the limit plus one. The builder
    holds the same afterwards, except that in place of the group it
    holds the callback that wrote it, as the fetch left it: with no
    value left and without the columns it compared. *)
Theorem paginate_changes_builder (db : list row) (limit : Z) (cursor : option string)
    (w : world) (page : CursorPaginator) :
  static (this w) = true ->
  fst (paginate db limit cursor w) = Ok page ->
  let q := this w in
  let os := effective_order q in
  let columns := convertOrderByToColumns os in
  let kept := List.filter (fun s => negb (is_order s)) (statements q) in
  let ordering reverse :=
    map (fun o => OrderByBasic (column o) (Some (direction o))) (fetch_order reverse os) in
  let w' := snd (paginate db limit cursor w) in
  exists cursorData,
    decoded cursor = Ok cursorData /\
    if given cursor && truthy cursorData then
      let flag := truthy_prop "point_to_next" cursorData in
      exists vals,
        cursor_values cursorData = Some vals /\
        fetched w'
        = fetched w ++
          [{| statements :=
                kept ++ map Where (applyCursorConditions [] columns flag vals)
                     ++ ordering (negb flag);
              limit_ := Some (limit + 1)%Z |}] /\
        this w'
        = {| statements :=
               kept ++ [WhereCallback (columns_after columns vals) flag (Some [])]
                    ++ ordering (negb flag);
             limit_ := Some (limit + 1)%Z |}
    else
      fetched w'
      = fetched w ++ [{| statements := kept ++ ordering false;
                         limit_ := Some (limit + 1)%Z |}] /\
      this w' = {| statements := kept ++ ordering false; limit_ := Some (limit + 1)%Z |}.
Proof.
  intros Hs Hp. cbv zeta.
  pose proof (paginate_ok db limit cursor w page Hp) as (_ & _ & _ & Hd & _).
  rewrite paginate_stages in * by assumption. cbv zeta in *.
  unfold read_cursor, builder_after, decoded in *.
  destruct (given cursor) eqn:Eg; cbn [andb].
  - destruct (decodeCursor (default EmptyString cursor)) as [j|]; [|discriminate Hp].
    exists j. split; [reflexivity|].
    rewrite callback_left_callback_for, Eg. cbn [andb].
    destruct (truthy j) eqn:Et.
    + unfold cursor_fields in *. destruct (cursor_values j) as [vals|]; [|discriminate Hp].
      exists vals. split; [reflexivity|].
      unfold mode_of. rewrite Eg, Et. cbn [negb snd fetched this].
      destruct (truthy_prop "point_to_next" j); split; reflexivity.
    + unfold mode_of. rewrite Eg, Et. cbn [negb snd fetched this].
      destruct (truthy_prop "point_to_next" j) eqn:Ep;
        [apply truthy_prop_truthy in Ep; congruence|].
      split; reflexivity.
  - exists JNull. split; [reflexivity|].
    rewrite callback_left_callback_for. unfold mode_of. rewrite Eg. split; reflexivity.
Qed.

Lemma paginate_changes_builder_witness :
  let w := {| this := mkQuery [OrderByBasic "t" (Some Desc); OrderByBasic "id" (Some Desc)]
                              None;
              fetched := [] |} in
  let cursor := Some "eyJkYXRhIjpbMTAsNF0sInBvaW50X3RvX25leHQiOmZhbHNlfQ==" in
  let q := this w in
  let os := effective_order q in
  let columns := convertOrderByToColumns os in
  let kept := List.filter (fun s => negb (is_order s)) (statements q) in
  let ordering reverse :=
    map (fun o => OrderByBasic (column o) (Some (direction o))) (fetch_order reverse os) in
  let w' := snd (paginate example_rows 2 cursor w) in
  exists cursorData,
    decoded cursor = Ok cursorData /\
    if given cursor && truthy cursorData then
      let flag := truthy_prop "point_to_next" cursorData in
      exists vals,
        cursor_values cursorData = Some vals /\
        fetched w'
        = fetched w ++
          [{| statements :=
                kept ++ map Where (applyCursorConditions [] columns flag vals)
                     ++ ordering (negb flag);
              limit_ := Some (2 + 1)%Z |}] /\
        this w'
        = {| statements :=
               kept ++ [WhereCallback (columns_after columns vals) flag (Some [])]
                    ++ ordering (negb flag);
             limit_ := Some (2 + 1)%Z |}
    else
      fetched w'
      = fetched w ++ [{| statements := kept ++ ordering false;
                         limit_ := Some (2 + 1)%Z |}] /\
      this w' = {| statements := kept ++ ordering false; limit_ := Some (2 + 1)%Z |}.
Proof.
  apply (paginate_changes_builder example_rows 2
           (Some "eyJkYXRhIjpbMTAsNF0sInBvaW50X3RvX25leHQiOmZhbHNlfQ==")
           {| this := mkQuery [OrderByBasic "t" (Some Desc); OrderByBasic "id" (Some Desc)]
                              None;
              fetched := [] |}
           (mkPage [[("id", VNum 5); ("t", VNum 10)]]
                   (Some "eyJkYXRhIjpbMTAsNV0sInBvaW50X3RvX25leHQiOnRydWV9") None)).
  - reflexivity.
  - vm_compute. reflexivity.
Defined.

(** After a call the caller's builder is not what it was: its limit is
    set. *)
Lemma builder_mutated :
  this (snd (paginate [] 2 None
              {| this := mkQuery [OrderByBasic "id" (Some Desc)] None; fetched := [] |}))
  <> mkQuery [OrderByBasic "id" (Some Desc)] None.
Proof. vm_compute. discriminate. Qed.

Lemma sort_rows_length (os : list OrderByClause) (rows : list row) :
  length (sort_rows os rows) = length rows.
Proof. unfold sort_rows. apply Permutation_length, merge_sort_Permutation. Qed.

(** C8. The limit is not validated. With limit 0 and no
    cursor, on a builder whose order statements have directions and
    whose filters are defined, the call still fetches, with a row limit
    of 1, and it returns the empty page when the caller's filters select
    no row. *)
Theorem limit_zero_not_rejected (db : list row) (w : world) :
  static (this w) = true -> directed (this w) = true ->
  forallb where_defined (wheres (this w)) = true ->
  exists query,
    fetched (snd (paginate db 0 None w)) = fetched w ++ [query] /\
    limit_ query = Some 1%Z /\
    wheres query = wheres (this w) /\
    (List.filter (selects (wheres (this w))) db = [] ->
     fst (paginate db 0 None w) = Ok (mkPage [] None None)).
Proof.
  intros Hs Hd Hdef. rewrite paginate_stages by assumption. cbv zeta.
  change (read_cursor _ None) with (@Ok (list where_stmt * mode) ([], First)).
  cbn [fst snd fetched is_backward]. eexists. split; [reflexivity|].
  split; [reflexivity|]. split; [rewrite wheres_fetch_query; apply app_nil_r|].
  intros Hnone.
  rewrite exec_fetch_query by (rewrite ?app_nil_r; (exact Hdef || lia)).
  rewrite app_nil_r, Hnone.
  pose proof (sort_rows_length (fetch_order false (effective_order (this w))) []) as Hlen.
  destruct (sort_rows _ _); [reflexivity|discriminate Hlen].
Qed.

Lemma limit_zero_not_rejected_witness :
  let w := {| this := mkQuery [OrderByBasic "id" (Some Desc)] None; fetched := [] |} in
  exists query,
    fetched (snd (paginate [] 0 None w)) = fetched w ++ [query] /\
    limit_ query = Some 1%Z /\
    wheres query = wheres (this w) /\
    (List.filter (selects (wheres (this w))) [] = [] ->
     fst (paginate [] 0 None w) = Ok (mkPage [] None None)).
Proof.
  apply (limit_zero_not_rejected []
           {| this := mkQuery [OrderByBasic "id" (Some Desc)] None; fetched := [] |});
    reflexivity.
Defined.

(** A limit of 0 over a store with no rows gives a page, not an error. *)
Lemma limit_zero_page :
  run_page [] (mkQuery [OrderByBasic "id" (Some Desc)] None) 0 None = Ok (mkPage [] None None).
Proof. reflexivity. Qed.

Lemma compile_throws (l1 l2 : list statement) (columns : TColumns) (b : bool) :
  fst (compile_statements (l1 ++ WhereCallback columns b None :: l2)) = Throw TypeError.
Proof.
  induction l1 as [|s l1 IH]; [reflexivity|]. cbn [app].
  destruct s as [c d|sql|x|columns' b' [vals|]|g]; cbn [compile_statements];
    try reflexivity;
    destruct (compile_statements (l1 ++ _)) as [[sent|e] left]; cbn [fst] in *;
    congruence.
Qed.

(** X13. On a builder whose order statements have directions, a
    cursor string whose decoded text is not JSON stops the call with a
    [SyntaxError], and one that decodes to a truthy value without an
    array of values stops it with a [TypeError]; in both cases no fetch
    is made. *)
Theorem unreadable_cursor_rejected (db : list row) (limit : Z) (c : string) (w : world)
    (e : error) :
  directed (this w) = true ->
  given (Some c) = true -> cursor_error c = Some e ->
  fst (paginate db limit (Some c) w) = Throw e /\
  fetched (snd (paginate db limit (Some c) w)) = fetched w.
Proof.
  intros Hd Hg He. rewrite paginate_stages_general. cbv zeta.
  rewrite (extract_directed _ Hd).
  unfold decoded, cursor_error in *. rewrite Hg. change (default EmptyString (Some c)) with c.
  destruct (decodeCursor c) as [j|]; [|injection He as <-; split; reflexivity].
  destruct (truthy j) eqn:Et; [|discriminate He].
  unfold cursor_fields in He. destruct (cursor_values j) as [vals|] eqn:Ev; [discriminate He|].
  injection He as <-.
  unfold fetch_stage, fetch_builder, callback_for. rewrite Hg, Et, Ev. cbn [andb statements app].
  pose proof (compile_throws
                (List.filter (fun s => negb (is_order s)) (statements (this w)))
                (map (fun o => OrderByBasic (column o) (Some (direction o)))
                   (fetch_order (is_backward (mode_of (Some c) j))
                      (effective_order (this w))))
                (convertOrderByToColumns (effective_order (this w)))
                (truthy_prop "point_to_next" j)) as Ht.
  destruct (compile_statements _) as [[sent|e] left]; cbn [fst] in Ht; [discriminate Ht|].
  injection Ht as ->. split; reflexivity.
Qed.

Lemma unreadable_cursor_rejected_witness :
  fst (paginate [] 2 (Some "e30=")
         {| this := mkQuery [OrderByBasic "id" (Some Desc)] None; fetched := [] |})
  = Throw TypeError /\
  fetched (snd (paginate [] 2 (Some "e30=")
         {| this := mkQuery [OrderByBasic "id" (Some Desc)] None; fetched := [] |})) = [].
Proof.
  apply (unreadable_cursor_rejected [] 2 "e30="
           {| this := mkQuery [OrderByBasic "id" (Some Desc)] None; fetched := [] |} TypeError);
    reflexivity.
Defined.

(** C6. The shape of a decoded cursor is not checked. The cursor
    [bnVsbA==] is the base64 text of [null], which has neither values nor
    flag; the call fetches and returns a page. *)
Lemma shapeless_cursor_accepted :
  decodeCursor "bnVsbA==" = Some JNull /\
  exists page w',
    paginate [[("id", VNum 2)]; [("id", VNum 1)]] 1 (Some "bnVsbA==")
      {| this := mkQuery [OrderByBasic "id" (Some Desc)] None; fetched := [] |}
    = (Ok page, w') /\
    items page = [[("id", VNum 2)]] /\ length (fetched w') = 1%nat.
Proof.
  split; [reflexivity|]. eexists _, _. split; [vm_compute; reflexivity|].
  split; reflexivity.
Qed.

(** C7. A cursor with fewer values than the ordering has
    columns is not refused. On a builder that holds no callback, whose
    order statements have directions on distinct column names that are
    not array indices, for a cursor that decodes to a value whose [data]
    is an array of at least one value and no more values than there are
    columns, the fetch is made with the boundary rule over the leading
    columns, as many as the cursor has values, in the direction its
    [point_to_next] gives by truthiness. *)
Theorem short_cursor_truncated (db : list row) (limit : Z) (c : string) (w : world)
    (cursorData : json) (vals : list json) :
  static (this w) = true -> directed (this w) = true ->
  plain_columns (effective_order (this w)) ->
  given (Some c) = true ->
  decodeCursor c = Some cursorData ->
  cursor_values cursorData = Some vals ->
  vals <> [] -> (length vals <= length (effective_order (this w)))%nat ->
  let b := truthy_prop "point_to_next" cursorData in
  exists filter,
    fetched (snd (paginate db limit (Some c) w))
    = fetched w ++ [fetch_query (this w) limit filter (negb b)] /\
    forall r, eval_wheres r filter = boundary_rule b (zip (effective_order (this w)) vals) r.
Proof.
  intros Hs Hdir Hplain Hg Hd Hv Hvals Hlen. cbv zeta.
  rewrite paginate_stages by assumption. cbv zeta.
  rewrite (read_cursor_values _ c cursorData vals Hg Hd Hv), (convert_plain _ Hplain).
  destruct (applyCursorConditions_rule (truthy_prop "point_to_next" cursorData) vals
              (effective_order (this w)) (proj1 Hplain) Hvals Hlen)
    as (body & Hbody & _ & Heval).
  exists [WhereWrapped BAnd body]. rewrite Hbody. split.
  - destruct (truthy_prop "point_to_next" cursorData); reflexivity.
  - intros r. rewrite eval_wheres_single. apply Heval.
Qed.

Lemma short_cursor_truncated_witness :
  let w := {| this := mkQuery [OrderByBasic "t" (Some Desc); OrderByBasic "id" (Some Desc)]
                              None;
              fetched := [] |} in
  let b := truthy_prop "point_to_next" (JObj [("data", JArr [JNum 10])]) in
  exists filter,
    fetched (snd (paginate [[("id", VNum 3); ("t", VNum 9)]] 2
                    (Some "eyJkYXRhIjpbMTBdfQ==") w))
    = fetched w ++ [fetch_query (this w) 2 filter (negb b)] /\
    forall r, eval_wheres r filter
              = boundary_rule b (zip (effective_order (this w)) [JNum 10]) r.
Proof.
  apply (short_cursor_truncated [[("id", VNum 3); ("t", VNum 9)]] 2
           "eyJkYXRhIjpbMTBdfQ=="
           {| this := mkQuery [OrderByBasic "t" (Some Desc); OrderByBasic "id" (Some Desc)]
                              None;
              fetched := [] |}
           (JObj [("data", JArr [JNum 10])]) [JNum 10]).
  - reflexivity.
  - reflexivity.
  - split; [compute_done|repeat constructor].
  - reflexivity.
  - vm_compute. reflexivity.
  - reflexivity.
  - discriminate.
  - cbn. lia.
Defined.

(** With the ordering [t desc, id desc] a cursor of one value is used as
    it is: the call returns the rows with [t < 10]. *)
Lemma short_cursor_accepted :
  decodeCursor "eyJkYXRhIjpbMTBdLCJwb2ludF90b19uZXh0Ijp0cnVlfQ=="
  = Some (json_of_cursor {| data := [JNum 10]; point_to_next := true |}) /\
  run_page [[("id", VNum 5); ("t", VNum 10)]; [("id", VNum 4); ("t", VNum 10)];
            [("id", VNum 3); ("t", VNum 9)]]
           (mkQuery [OrderByBasic "t" (Some Desc); OrderByBasic "id" (Some Desc)] None) 2
           (Some "eyJkYXRhIjpbMTBdLCJwb2ludF90b19uZXh0Ijp0cnVlfQ==")
  = Ok {| items := [[("id", VNum 3); ("t", VNum 9)]];
          nextCursor := None;
          prevCursor := Some "eyJkYXRhIjpbOSwzXSwicG9pbnRfdG9fbmV4dCI6ZmFsc2V9" |}.
Proof. split; vm_compute; reflexivity. Qed.

(** C1. The filter follows the order in which the object of columns
    enumerates its names, not the order of the ordering. With the ordering
    [2 asc, 1 asc] the object enumerates [1] before [2], so
    the filter compares column [1] with the first value of the cursor.
    For the cursor values [5, 7] and the row [{2: 6, 1: 0}] the rule of
    the claim holds (6 > 5 in the first column of the ordering) and the
    filter of the fetched query rejects the row. *)
Theorem filter_follows_object_order :
  let q := mkQuery [OrderByBasic "2" (Some Asc); OrderByBasic "1" (Some Asc)] None in
  let r := [("2", VNum 6); ("1", VNum 0)] in
  let c := "eyJkYXRhIjpbNSw3XSwicG9pbnRfdG9fbmV4dCI6dHJ1ZX0=" in
  decodeCursor c = Some (json_of_cursor {| data := [JNum 5; JNum 7]; point_to_next := true |}) /\
  Object_keys (convertOrderByToColumns (effective_order q)) = ["1"; "2"] /\
  boundary_rule true (zip (effective_order q) [JNum 5; JNum 7]) r = T /\
  exists qf, fetched (snd (paginate [r] 1 (Some c) {| this := q; fetched := [] |})) = [qf] /\
             selects (wheres qf) r = false /\
             orders qf = [mkClause "2" Asc; mkClause "1" Asc].
Proof.
  cbv zeta. split; [vm_compute; reflexivity|].
  split; [reflexivity|]. split; [reflexivity|].
  eexists. split; [vm_compute; reflexivity|]. split; reflexivity.
Qed.

(** ** The order of [ORDER BY] *)

Lemma string_compare_refl (s : string) : String.compare s s = Eq.
Proof.
  induction s as [|c s IH]; [reflexivity|]. cbn.
  unfold Ascii.compare. rewrite N.compare_refl. exact IH.
Qed.

Lemma string_compare_trans (a b c : string) :
  String.compare a b = Lt -> String.compare b c = Lt -> String.compare a c = Lt.
Proof.
  intros H1 H2. apply String_as_OT.cmp_lt in H1, H2. apply String_as_OT.cmp_lt.
  exact (String_as_OT.lt_trans _ _ _ H1 H2).
Qed.

Lemma bool_compare_antisym (a b : bool) : Bool.compare a b = CompOpp (Bool.compare b a).
Proof. destruct a, b; reflexivity. Qed.

Lemma val_cmp_antisym (a b : jsval) : val_cmp a b = CompOpp (val_cmp b a).
Proof.
  destruct a, b; cbn [val_cmp]; try reflexivity.
  - apply bool_compare_antisym.
  - apply Z.compare_antisym.
  - apply String.compare_antisym.
  - apply String.compare_antisym.
Qed.

Lemma val_cmp_refl (a : jsval) : val_cmp a a = Eq.
Proof.
  destruct a; cbn [val_cmp]; try reflexivity.
  - destruct b; reflexivity.
  - apply Z.compare_refl.
  - apply string_compare_refl.
  - apply string_compare_refl.
Qed.

Lemma val_cmp_trans (a b c : jsval) :
  val_cmp a b = Lt -> val_cmp b c = Lt -> val_cmp a c = Lt.
Proof.
  destruct a as [| |x|x|x|x], b as [| |y|y|y|y], c as [| |z|z|z|z]; cbn [val_cmp];
    try (cbn; congruence).
  - destruct x, y, z; cbn; congruence.
  - rewrite !Z.compare_lt_iff. lia.
  - apply string_compare_trans.
  - apply string_compare_trans.
Qed.

Lemma val_cmp_eq_l (a b c : jsval) :
  val_cmp a b = Eq -> val_cmp a c = val_cmp b c.
Proof.
  destruct a as [| |x|x|x|x], b as [| |y|y|y|y]; cbn [val_cmp];
    try (cbn; congruence); intros H; try (destruct c; reflexivity).
  - destruct x, y; try discriminate H; reflexivity.
  - apply Z.compare_eq in H. subst. reflexivity.
  - apply String.compare_eq_iff in H. subst. reflexivity.
  - apply String.compare_eq_iff in H. subst. reflexivity.
Qed.

Lemma order_cmp_antisym (os : list OrderByClause) (r1 r2 : row) :
  order_cmp os r1 r2 = CompOpp (order_cmp os r2 r1).
Proof.
  induction os as [|o os IH]; [reflexivity|]. cbn [order_cmp].
  rewrite (val_cmp_antisym (field r1 (column o)) (field r2 (column o))).
  destruct (direction o), (val_cmp (field r2 (column o)) (field r1 (column o)));
    cbn; try reflexivity; exact IH.
Qed.

Lemma order_cmp_refl (os : list OrderByClause) (r : row) : order_cmp os r r = Eq.
Proof.
  induction os as [|o os IH]; [reflexivity|]. cbn [order_cmp].
  rewrite val_cmp_refl. destruct (direction o); exact IH.
Qed.

Lemma dir_cmp_Eq (d : Direction) (c : comparison) : dir_cmp d c = Eq <-> c = Eq.
Proof. destruct d, c; cbn; split; congruence. Qed.

Lemma order_cmp_eq_l (os : list OrderByClause) (a b c : row) :
  order_cmp os a b = Eq -> order_cmp os a c = order_cmp os b c.
Proof.
  induction os as [|o os IH]; [reflexivity|]. cbn [order_cmp].
  destruct (dir_cmp (direction o) (val_cmp (field a (column o)) (field b (column o))))
    eqn:E; try discriminate.
  apply dir_cmp_Eq in E. rewrite (val_cmp_eq_l _ _ (field c (column o)) E).
  intros H. rewrite (IH H). reflexivity.
Qed.

Lemma order_cmp_eq_r (os : list OrderByClause) (a b c : row) :
  order_cmp os b c = Eq -> order_cmp os a b = order_cmp os a c.
Proof.
  intros H. rewrite (order_cmp_antisym os a b), (order_cmp_antisym os a c). f_equal.
  apply order_cmp_eq_l. exact H.
Qed.

Lemma dir_cmp_trans (d : Direction) (a b c : jsval) :
  dir_cmp d (val_cmp a b) = Lt -> dir_cmp d (val_cmp b c) = Lt ->
  dir_cmp d (val_cmp a c) = Lt.
Proof.
  destruct d; cbn; [apply val_cmp_trans|].
  rewrite <- !val_cmp_antisym. intros H1 H2. exact (val_cmp_trans _ _ _ H2 H1).
Qed.

Lemma order_cmp_trans (os : list OrderByClause) (a b c : row) :
  order_cmp os a b = Lt -> order_cmp os b c = Lt -> order_cmp os a c = Lt.
Proof.
  induction os as [|o os IH]; [discriminate|]. cbn [order_cmp].
  destruct (dir_cmp (direction o) (val_cmp (field a (column o)) (field b (column o))))
    eqn:E1; try discriminate;
  destruct (dir_cmp (direction o) (val_cmp (field b (column o)) (field c (column o))))
    eqn:E2; try discriminate.
  - apply dir_cmp_Eq in E1, E2.
    rewrite (val_cmp_eq_l _ _ _ E1), E2. destruct (direction o); exact IH.
  - apply dir_cmp_Eq in E1. rewrite (val_cmp_eq_l _ _ _ E1), E2. reflexivity.
  - apply dir_cmp_Eq in E2.
    assert (E3 : val_cmp (field a (column o)) (field c (column o))
                 = val_cmp (field a (column o)) (field b (column o))).
    { rewrite (val_cmp_antisym (field a (column o)) (field c (column o))).
      rewrite (val_cmp_antisym (field a (column o)) (field b (column o))). f_equal.
      symmetry. apply val_cmp_eq_l. exact E2. }
    rewrite E3, E1. reflexivity.
  - rewrite (dir_cmp_trans _ _ _ _ E1 E2). reflexivity.
Qed.

Lemma order_cmp_flip (os : list OrderByClause) (r1 r2 : row) :
  order_cmp (fetch_order true os) r1 r2 = order_cmp os r2 r1.
Proof.
  induction os as [|o os IH]; [reflexivity|]. cbn [fetch_order map order_cmp column direction].
  fold (fetch_order true os). rewrite IH.
  rewrite (val_cmp_antisym (field r1 (column o)) (field r2 (column o))).
  destruct (direction o), (val_cmp (field r2 (column o)) (field r1 (column o))); reflexivity.
Qed.

Global Instance row_le_total (os : list OrderByClause) : Total (row_le os).
Proof.
  intros r1 r2. unfold row_le. rewrite (order_cmp_antisym os r2 r1).
  destruct (order_cmp os r1 r2); cbn; [left|left|right]; congruence.
Qed.

Global Instance row_le_trans (os : list OrderByClause) : Transitive (row_le os).
Proof.
  intros a b c. unfold row_le. intros H1 H2.
  destruct (order_cmp os a b) eqn:E1; [| |congruence].
  - rewrite (order_cmp_eq_l os a b c E1). exact H2.
  - destruct (order_cmp os b c) eqn:E2; [| |congruence].
    + rewrite <- (order_cmp_eq_r os a b c E2), E1. discriminate.
    + rewrite (order_cmp_trans os _ _ _ E1 E2). discriminate.
Qed.

(** ** Sorted listings *)

Section Listing.

Variable os : list OrderByClause.

Lemma sort_rows_perm (l : list row) : sort_rows os l ≡ₚ l.
Proof. apply merge_sort_Permutation. Qed.

Lemma sort_rows_sorted (l : list row) : StronglySorted (row_le os) (sort_rows os l).
Proof. apply StronglySorted_merge_sort; apply _. Qed.

Lemma distinct_keys_strict (l : list row) : distinct_keys os l = true -> strict_on os l.
Proof.
  induction l as [|r l IH]; intros H.
  - split; [constructor|]. intros r1 r2 H1. inversion H1.
  - cbn [distinct_keys] in H. apply andb_true_iff in H as [Hr Hl].
    destruct (IH Hl) as [Hnd Hinj]. rewrite forallb_forall in Hr.
    assert (Hne : forall r', r' ∈ l -> order_cmp os r r' <> Eq).
    { intros r' Hin E. apply list_elem_of_In in Hin. specialize (Hr r' Hin).
      rewrite E in Hr. discriminate. }
    split.
    + constructor; [|exact Hnd]. intros Hin. apply (Hne r Hin), order_cmp_refl.
    + intros r1 r2 H1 H2 E. apply elem_of_cons in H1 as [->|H1], H2 as [->|H2].
      * reflexivity.
      * exfalso. exact (Hne r2 H2 E).
      * exfalso. apply (Hne r1 H1). rewrite order_cmp_antisym, E. reflexivity.
      * exact (Hinj r1 r2 H1 H2 E).
Qed.

Lemma strict_on_perm (l l' : list row) : l ≡ₚ l' -> strict_on os l -> strict_on os l'.
Proof.
  intros Hp [Hnd Hinj]. split.
  - rewrite <- Hp. exact Hnd.
  - intros r1 r2 H1 H2. apply Hinj; rewrite Hp; assumption.
Qed.

Lemma elem_of_filter_bool (P : row -> bool) (l : list row) (r : row) :
  r ∈ List.filter P l <-> r ∈ l /\ P r = true.
Proof. rewrite !list_elem_of_In. apply filter_In. Qed.

Lemma NoDup_filter_bool (P : row -> bool) (l : list row) :
  NoDup l -> NoDup (List.filter P l).
Proof.
  induction 1 as [|r l Hr Hnd IH]; cbn; [constructor|].
  destruct (P r); [|exact IH]. constructor; [|exact IH].
  rewrite elem_of_filter_bool. tauto.
Qed.

Lemma strict_on_filter (P : row -> bool) (l : list row) :
  strict_on os l -> strict_on os (List.filter P l).
Proof.
  intros [Hnd Hinj]. split; [apply NoDup_filter_bool, Hnd|].
  intros r1 r2 H1 H2. apply elem_of_filter_bool in H1 as [H1 _], H2 as [H2 _].
  exact (Hinj r1 r2 H1 H2).
Qed.

Lemma filter_perm (P : row -> bool) (l l' : list row) :
  l ≡ₚ l' -> List.filter P l ≡ₚ List.filter P l'.
Proof.
  induction 1 as [|x l l' _ IH|x y l|l l' l'' _ IH1 _ IH2]; cbn.
  - reflexivity.
  - destruct (P x); [constructor|]; exact IH.
  - destruct (P x), (P y); try reflexivity. apply perm_swap.
  - etransitivity; eassumption.
Qed.

Lemma strongly_sorted_filter {R : relation row} (P : row -> bool) (l : list row) :
  StronglySorted R l -> StronglySorted R (List.filter P l).
Proof.
  induction 1 as [|x l _ IH Hx]; cbn; [constructor|].
  destruct (P x); [|exact IH]. constructor; [exact IH|].
  rewrite Forall_forall in *. intros y Hy. apply elem_of_filter_bool in Hy as [Hy _].
  exact (Hx y Hy).
Qed.

Lemma strongly_sorted_impl {R R' : relation row} (l : list row) :
  (forall x y, x ∈ l -> y ∈ l -> R x y -> R' x y) ->
  StronglySorted R l -> StronglySorted R' l.
Proof.
  intros Himp H. induction H as [|x l _ IH Hx]; [constructor|].
  constructor.
  - apply IH. intros a b Ha Hb. apply Himp; right; assumption.
  - rewrite Forall_forall in *. intros y Hy. apply Himp; [left|right; exact Hy|exact (Hx y Hy)].
Qed.

Lemma strongly_sorted_reverse {R : relation row} (l : list row) :
  StronglySorted R l -> StronglySorted (flip R) (reverse l).
Proof.
  induction 1 as [|x l _ IH Hx]; [constructor|].
  rewrite reverse_cons. apply StronglySorted_app_2; [|exact IH|repeat constructor].
  intros a b Ha Hb. apply list_elem_of_singleton in Hb as ->.
  rewrite elem_of_reverse in Ha. rewrite Forall_forall in Hx. exact (Hx a Ha).
Qed.

Lemma sorted_lt (l : list row) :
  strict_on os l -> StronglySorted (row_le os) l -> StronglySorted (row_lt os) l.
Proof.
  intros [Hnd Hinj] H. induction H as [|x l Hl IH Hx]; [constructor|].
  apply NoDup_cons in Hnd as [Hx' Hnd].
  constructor.
  - apply IH; [exact Hnd|]. intros r1 r2 H1 H2. apply Hinj; right; assumption.
  - rewrite Forall_forall in *. intros y Hy. specialize (Hx y Hy).
    unfold row_le, row_lt in *. destruct (order_cmp os x y) eqn:E; try congruence.
    exfalso. apply Hx'. rewrite (Hinj x y); [exact Hy|left|right; exact Hy|exact E].
Qed.

Lemma sorted_unique (l1 l2 : list row) :
  strict_on os l1 -> l1 ≡ₚ l2 ->
  StronglySorted (row_le os) l1 -> StronglySorted (row_le os) l2 -> l1 = l2.
Proof.
  intros [_ Hinj] Hp H1 H2.
  apply (StronglySorted_unique_strong (row_le os)); try assumption.
  intros x1 x2 Hx1 Hx2 Hle Hge. apply Hinj; [exact Hx1|rewrite Hp; exact Hx2|].
  unfold row_le in *. rewrite (order_cmp_antisym os x2 x1) in Hge.
  destruct (order_cmp os x1 x2); cbn in *; congruence.
Qed.

Lemma sort_filter (P : row -> bool) (l : list row) :
  strict_on os l -> sort_rows os (List.filter P l) = List.filter P (sort_rows os l).
Proof.
  intros Hs. apply sorted_unique.
  - apply (strict_on_perm (List.filter P l)); [symmetry; apply sort_rows_perm|].
    apply strict_on_filter, Hs.
  - rewrite sort_rows_perm. apply filter_perm. symmetry. apply sort_rows_perm.
  - apply sort_rows_sorted.
  - apply strongly_sorted_filter, sort_rows_sorted.
Qed.

Lemma strict_on_flip (l : list row) :
  strict_on os l -> strict_on (fetch_order true os) l.
Proof.
  intros [Hnd Hinj]. split; [exact Hnd|]. intros r1 r2 H1 H2 E.
  rewrite order_cmp_flip in E. symmetry. exact (Hinj r2 r1 H2 H1 E).
Qed.

End Listing.

Lemma sort_reverse (os : list OrderByClause) (l : list row) :
  strict_on os l -> sort_rows (fetch_order true os) l = reverse (sort_rows os l).
Proof.
  intros Hs. apply (sorted_unique (fetch_order true os)).
  - apply (strict_on_perm (fetch_order true os) l); [symmetry; apply sort_rows_perm|].
    apply strict_on_flip, Hs.
  - rewrite reverse_Permutation, !sort_rows_perm. reflexivity.
  - apply sort_rows_sorted.
  - apply (strongly_sorted_impl (R := flip (row_le os))).
    + intros x y _ _. unfold flip, row_le. rewrite order_cmp_flip. tauto.
    + apply strongly_sorted_reverse, sort_rows_sorted.
Qed.

Lemma filter_none (P : row -> bool) (l : list row) :
  (forall r, r ∈ l -> P r = false) -> List.filter P l = [].
Proof.
  induction l as [|x l IH]; intros H; [reflexivity|]. cbn.
  rewrite (H x) by left. apply IH. intros r Hr. apply H. right. exact Hr.
Qed.

Lemma filter_all (P : row -> bool) (l : list row) :
  (forall r, r ∈ l -> P r = true) -> List.filter P l = l.
Proof.
  induction l as [|x l IH]; intros H; [reflexivity|]. cbn.
  rewrite (H x) by left. f_equal. apply IH. intros r Hr. apply H. right. exact Hr.
Qed.

Lemma sorted_split (os : list OrderByClause) (S : list row) (i : nat) (b : row) :
  StronglySorted (row_lt os) S -> S !! i = Some b ->
  (forall r, r ∈ take i S -> order_cmp os r b = Lt) /\
  (forall r, r ∈ drop (Datatypes.S i) S -> order_cmp os b r = Lt).
Proof.
  intros Hs Hi. rewrite <- (take_drop_middle S i b Hi) in Hs.
  apply StronglySorted_app in Hs as (Hcross & _ & Hs2).
  apply StronglySorted_cons in Hs2 as [Hb _]. split.
  - intros r Hr. apply Hcross; [exact Hr|left].
  - intros r Hr. rewrite Forall_forall in Hb. exact (Hb r Hr).
Qed.

Lemma filter_after (os : list OrderByClause) (S : list row) (i : nat) (b : row) :
  StronglySorted (row_lt os) S -> S !! i = Some b ->
  List.filter (fun r => is_Lt (order_cmp os b r)) S = drop (Datatypes.S i) S.
Proof.
  intros Hs Hi. destruct (sorted_split os S i b Hs Hi) as [Hpre Hpost].
  rewrite <- (take_drop_middle S i b Hi) at 1.
  rewrite List.filter_app. cbn [List.filter]. rewrite order_cmp_refl. cbn [is_Lt].
  rewrite filter_none, filter_all; [reflexivity| |].
  - intros r Hr. rewrite (Hpost r Hr). reflexivity.
  - intros r Hr. rewrite order_cmp_antisym, (Hpre r Hr). reflexivity.
Qed.

Lemma filter_before (os : list OrderByClause) (S : list row) (i : nat) (b : row) :
  StronglySorted (row_lt os) S -> S !! i = Some b ->
  List.filter (fun r => is_Lt (order_cmp os r b)) S = take i S.
Proof.
  intros Hs Hi. destruct (sorted_split os S i b Hs Hi) as [Hpre Hpost].
  rewrite <- (take_drop_middle S i b Hi) at 1.
  rewrite List.filter_app. cbn [List.filter]. rewrite order_cmp_refl. cbn [is_Lt].
  rewrite filter_all, filter_none; [apply app_nil_r| |].
  - intros r Hr. rewrite order_cmp_antisym, (Hpost r Hr). reflexivity.
  - intros r Hr. rewrite (Hpre r Hr). reflexivity.
Qed.

(** ** The boundary filter on a typed listing *)

Lemma sql_compare_same_kind (v w : jsval) :
  same_kind v w = true -> sql_compare v (toJSON w) = Some (val_cmp v w).
Proof. destruct v, w; cbn; try discriminate; reflexivity. Qed.

Lemma eval_basic_same_kind (op : operator) (v w : jsval) :
  same_kind v w = true ->
  eval_basic op v (toJSON w) = tri_of_bool (holds op (val_cmp v w)).
Proof. intros H. unfold eval_basic. rewrite (sql_compare_same_kind v w H). reflexivity. Qed.

Lemma boundary_rule_order (fwd : bool) (b r : row) (os : list OrderByClause) :
  os <> [] ->
  (forall o, o ∈ os -> same_kind (field r (column o)) (field b (column o)) = true) ->
  boundary_rule fwd (zip os (map toJSON (key_of os b))) r
  = tri_of_bool (is_Lt (if fwd then order_cmp os b r else order_cmp os r b)).
Proof.
  induction os as [|o os IH]; [congruence|]. intros _ Hk.
  assert (Ho := Hk o ltac:(left)).
  assert (Hos : forall o', o' ∈ os ->
            same_kind (field r (column o')) (field b (column o')) = true).
  { intros o' Ho'. apply Hk. right. exact Ho'. }
  cbn [key_of map zip zip_with boundary_rule order_cmp].
  fold (key_of os b). fold (zip os (map toJSON (key_of os b))).
  rewrite !(eval_basic_same_kind _ _ _ Ho).
  rewrite (val_cmp_antisym (field b (column o)) (field r (column o))).
  destruct os as [|o' os].
  - cbn [zip zip_with key_of map order_cmp].
    destruct fwd, (direction o), (val_cmp (field r (column o)) (field b (column o)));
      reflexivity.
  - change (zip (o' :: os) (map toJSON (key_of (o' :: os) b)))
      with ((o', toJSON (field b (column o'))) :: zip os (map toJSON (key_of os b))) at 1.
    cbv iota. rewrite (IH ltac:(congruence) Hos).
    destruct fwd, (direction o), (val_cmp (field r (column o)) (field b (column o)));
      cbn; try reflexivity;
      match goal with |- context [is_Lt ?c] => destruct c; reflexivity end.
Qed.

Lemma typed_keys_same_kind (os : list OrderByClause) (rows : list row) (o : OrderByClause)
    (r1 r2 : row) :
  typed_keys os rows = true -> o ∈ os -> r1 ∈ rows -> r2 ∈ rows ->
  same_kind (field r1 (column o)) (field r2 (column o)) = true.
Proof.
  unfold typed_keys. rewrite forallb_forall. intros H Ho H1 H2.
  apply list_elem_of_In in Ho, H1, H2.
  specialize (H o Ho). rewrite forallb_forall in H. specialize (H r1 H1).
  rewrite forallb_forall in H. exact (H r2 H2).
Qed.

(** ** Conjunctive filters *)

Lemma sql_terms_and (cur v : tri) (l : list (connective * tri)) :
  Forall (fun p => fst p = BAnd) l ->
  sql_terms cur (l ++ [(BAnd, v)]) = tri_and (sql_terms cur l) v.
Proof.
  intros H. revert cur. induction H as [|[c x] l Hc _ IH]; intros cur; [reflexivity|].
  cbn in Hc. subst c. cbn [app sql_terms]. apply IH.
Qed.

Lemma tri_and_T_l (v : tri) : tri_and T v = v.
Proof. destruct v; reflexivity. Qed.

Lemma eval_wheres_and (r : row) (ws : list where_stmt) (w : where_stmt) :
  Forall (fun w' => connective_of w' = BAnd) ws -> connective_of w = BAnd ->
  eval_wheres r (ws ++ [w]) = tri_and (eval_wheres r ws) (eval_where r w).
Proof.
  intros Hws Hw. unfold eval_wheres. rewrite map_app. cbn [map]. rewrite Hw.
  destruct ws as [|w0 ws];
    [cbn [app map sql_clauses sql_terms]; symmetry; apply tri_and_T_l|].
  cbn [map app sql_clauses]. apply sql_terms_and.
  apply Forall_cons in Hws as [_ Hws]. apply Forall_map. exact Hws.
Qed.

Lemma conjunctive_spec (q : QueryBuilder) :
  conjunctive q = true ->
  forallb where_defined (wheres q) = true /\
  Forall (fun w => connective_of w = BAnd) (wheres q).
Proof.
  unfold conjunctive. intros H. apply andb_true_iff in H as [_ H]. revert H.
  induction (wheres q) as [|w ws IH]; intros H.
  - split; [reflexivity|constructor].
  - cbn [forallb] in H. apply andb_true_iff in H as [Hw H].
    apply andb_true_iff in Hw as [Hd Hc]. destruct (IH H) as [IH1 IH2].
    split; [cbn; rewrite Hd, IH1; reflexivity|].
    constructor; [destruct (connective_of w); congruence|exact IH2].
Qed.

Lemma conjunctive_static (q : QueryBuilder) : conjunctive q = true -> static q = true.
Proof. unfold conjunctive. intros H. apply andb_true_iff in H as [H _]. exact H. Qed.

Lemma filter_filter (P Q : row -> bool) (l : list row) :
  List.filter Q (List.filter P l) = List.filter (fun r => P r && Q r) l.
Proof.
  induction l as [|x l IH]; [reflexivity|]. cbn.
  destruct (P x); cbn; [destruct (Q x)|]; rewrite IH; reflexivity.
Qed.

Lemma visible_with_filter (db : list row) (q : QueryBuilder) (w : where_stmt) :
  conjunctive q = true -> connective_of w = BAnd ->
  List.filter (selects (wheres q ++ [w])) db
  = List.filter (fun r => is_T (eval_where r w)) (visible db q).
Proof.
  intros Hq Hw. destruct (conjunctive_spec q Hq) as [_ Hand].
  unfold visible. rewrite filter_filter. apply List.filter_ext. intros r.
  unfold selects. rewrite (eval_wheres_and r (wheres q) w Hand Hw).
  destruct (eval_wheres r (wheres q)), (eval_where r w); reflexivity.
Qed.

(** ** The rows a call fetches *)

Lemma given_cursor_of (os : list OrderByClause) (r : row) (b : bool) :
  given (Some (cursor_of os r b)) = true.
Proof.
  unfold cursor_of.
  set (c := {| data := map toJSON (key_of os r); point_to_next := b |}).
  change (stringify (json_of_cursor c))
    with ("{" +:+ quote "data" +:+ ":" +:+ stringify (JArr (data c)) +:+ ","
          +:+ quote "point_to_next" +:+ ":" +:+ stringify (JBool (point_to_next c)) +:+ "}").
  unfold quote. string_norm.
  generalize (escape "data" +:+ str1 dquote +:+ ":" +:+ stringify (JArr (data c)) +:+ ","
              +:+ String dquote (escape "point_to_next" +:+ str1 dquote +:+ ":"
              +:+ stringify (JBool (point_to_next c)) +:+ "}")).
  intros s. destruct s as [|[] [|[] s]]; reflexivity.
Qed.

Lemma listing_strict (db : list row) (q : QueryBuilder) :
  exact_listing db q ->
  strict_on (effective_order q) (visible db q) /\
  StronglySorted (row_lt (effective_order q)) (listing db q).
Proof.
  intros (_ & _ & _ & Hd). apply distinct_keys_strict in Hd. split; [exact Hd|].
  apply sorted_lt; [|apply sort_rows_sorted].
  apply (strict_on_perm _ (visible db q)); [symmetry; apply sort_rows_perm|exact Hd].
Qed.

Lemma fetch_first (db : list row) (q : QueryBuilder) (limit : Z) :
  conjunctive q = true -> (0 <= limit)%Z ->
  exec db (fetch_query q limit [] false)
  = Ok (take (Z.to_nat (limit + 1)) (listing db q)).
Proof.
  intros Hq Hl. destruct (conjunctive_spec q Hq) as [Hdef _].
  rewrite exec_fetch_query by (rewrite ?app_nil_r; (exact Hdef || lia)).
  rewrite app_nil_r, fetch_order_same. reflexivity.
Qed.

Lemma fetch_cursor (db : list row) (q : QueryBuilder) (limit : Z) (fwd : bool)
    (i : nat) (b : row) :
  exact_listing db q -> (0 <= limit)%Z -> listing db q !! i = Some b ->
  exists filter,
    read_cursor (convertOrderByToColumns (effective_order q))
                (Some (cursor_of (effective_order q) b fwd))
    = Ok (filter, if fwd then Forward else Backward) /\
    exec db (fetch_query q limit filter (negb fwd))
    = Ok (take (Z.to_nat (limit + 1))
               (if fwd then drop (S i) (listing db q)
                else reverse (take i (listing db q)))).
Proof.
  intros Hex Hl Hi. destruct (listing_strict db q Hex) as [Hstrict Hsorted].
  destruct Hex as (Hq & Hplain & Htyped & _).
  set (os := effective_order q) in *.
  assert (Hos : os <> []) by apply effective_order_nonempty.
  destruct (applyCursorConditions_rule fwd (map toJSON (key_of os b)) os (proj1 Hplain))
    as (body & Hbody & Hdef & Heval).
  { destruct os; [congruence|discriminate]. }
  { unfold key_of. rewrite !length_map. lia. }
  exists [WhereWrapped BAnd body]. split.
  { rewrite (read_cursor_shaped _ _ (map toJSON (key_of os b)) fwd).
    - rewrite (convert_plain os Hplain), Hbody. reflexivity.
    - apply given_cursor_of.
    - apply decodeCursor_cursor_of. }
  destruct (conjunctive_spec q Hq) as [Hqdef _].
  rewrite exec_fetch_query; [|rewrite forallb_app, Hqdef; cbn; rewrite Hdef; reflexivity|lia].
  fold os. f_equal. f_equal.
  rewrite (visible_with_filter db q (WhereWrapped BAnd body) Hq eq_refl).
  assert (Hb : b ∈ visible db q).
  { rewrite <- (sort_rows_perm os (visible db q)). eapply list_elem_of_lookup_2. exact Hi. }
  rewrite (List.filter_ext_in _
             (fun r => is_Lt (if fwd then order_cmp os b r else order_cmp os r b))).
  2:{ intros r Hr. apply list_elem_of_In in Hr. rewrite Heval, boundary_rule_order.
      - destruct (is_Lt _); reflexivity.
      - exact Hos.
      - intros o Ho. exact (typed_keys_same_kind os _ o r b Htyped Ho Hr Hb). }
  destruct fwd; cbn [negb].
  - rewrite fetch_order_same, (sort_filter os _ _ Hstrict).
    apply (filter_after os _ i b Hsorted Hi).
  - rewrite sort_reverse by (apply strict_on_filter, Hstrict).
    rewrite (sort_filter os _ _ Hstrict). f_equal.
    apply (filter_before os _ i b Hsorted Hi).
Qed.

(** ** Assembling the page *)

Lemma rev_reverse {A} (l : list A) : rev l = reverse l.
Proof. unfold reverse. rewrite rev_alt. reflexivity. Qed.

Lemma last_drop {A} (l : list A) (k : nat) :
  (k < length l)%nat -> last (drop k l) = last l.
Proof.
  intros Hk. rewrite <- (take_drop k l) at 2. rewrite last_app.
  destruct (last (drop k l)) eqn:E; [reflexivity|].
  apply last_None in E. apply (f_equal length) in E. rewrite length_drop in E.
  cbn in E. lia.
Qed.

Lemma assemble_none (columns : TColumns) (limit : Z) (m : mode) :
  assemble columns limit m (take (Z.to_nat (limit + 1)) []) = Ok (mkPage [] None None).
Proof. rewrite take_nil. reflexivity. Qed.

Lemma assemble_small (columns : TColumns) (limit : Z) (m : mode) (rows : list row) :
  (1 <= limit)%Z -> rows <> [] -> (length rows <= Z.to_nat limit)%nat ->
  assemble columns limit m (take (Z.to_nat (limit + 1)) rows)
  = match m with
    | First | Unshaped => Ok (mkPage rows None None)
    | Forward =>
      match genCursor columns (head rows) false with
      | Ok prev => Ok (mkPage rows None (Some prev))
      | Throw e => Throw e
      end
    | Backward =>
      match genCursor columns (last_item (rev rows)) true with
      | Ok next => Ok (mkPage (rev rows) (Some next) None)
      | Throw e => Throw e
      end
    end.
Proof.
  intros Hl Hne Hlen. rewrite take_ge by lia. unfold assemble.
  destruct rows as [|r rows]; [congruence|].
  destruct (Z.of_nat (length (r :: rows)) <=? limit)%Z eqn:E; [reflexivity|].
  apply Z.leb_gt in E. lia.
Qed.

Lemma assemble_overflow (columns : TColumns) (limit : Z) (m : mode) (rows : list row) :
  (1 <= limit)%Z -> (Z.to_nat limit < length rows)%nat ->
  assemble columns limit m (take (Z.to_nat (limit + 1)) rows)
  = let kept := take (Z.to_nat limit) rows in
    let page := match m with Backward => rev kept | _ => kept end in
    match genCursor columns (last_item page) true with
    | Throw e => Throw e
    | Ok next =>
      match m with
      | First => Ok (mkPage page (Some next) None)
      | _ =>
        match genCursor columns (head page) false with
        | Ok prev => Ok (mkPage page (Some next) (Some prev))
        | Throw e => Throw e
        end
      end
    end.
Proof.
  intros Hl Hlen.
  replace (Z.to_nat (limit + 1)) with (S (Z.to_nat limit)) by lia.
  assert (Hpop : pop (take (S (Z.to_nat limit)) rows) = take (Z.to_nat limit) rows).
  { unfold pop. apply removelast_firstn. exact Hlen. }
  assert (Hlen' : length (take (S (Z.to_nat limit)) rows) = S (Z.to_nat limit)).
  { rewrite length_take. lia. }
  unfold assemble. rewrite Hpop.
  destruct (take (S (Z.to_nat limit)) rows) as [|r rows'] eqn:Et; [discriminate Hlen'|].
  rewrite Hlen'.
  destruct (Z.of_nat (S (Z.to_nat limit)) <=? limit)%Z eqn:E; [|reflexivity].
  apply Z.leb_le in E. lia.
Qed.

Lemma genCursor_at (os : list OrderByClause) (o : option row) (flag : bool) :
  plain_columns os -> is_Some o ->
  genCursor (convertOrderByToColumns os) o flag
  = match cursor_at os flag o with
    | Some c => Ok c
    | None => Throw TypeError
    end.
Proof. intros Hos [r ->]. cbn [cursor_at]. apply genCursor_plain, Hos. Qed.

Lemma is_Some_last {A} (l : list A) : l <> [] -> is_Some (last l).
Proof. apply last_is_Some. Qed.

Lemma is_Some_head {A} (l : list A) : l <> [] -> is_Some (head l).
Proof. apply head_is_Some. Qed.

Lemma take_nonempty {A} (l : list A) (n : nat) : l <> [] -> (1 <= n)%nat -> take n l <> [].
Proof. destruct l, n; cbn; intros; (congruence || lia). Qed.

Section Pages.

Variable os : list OrderByClause.
Hypothesis Hos : plain_columns os.
Variable limit : Z.
Hypothesis Hlimit : (1 <= limit)%Z.

Let n := Z.to_nat limit.

Lemma cursor_at_Some (flag : bool) (o : option row) :
  is_Some o -> exists c, cursor_at os flag o = Some c.
Proof. intros [r ->]. eexists. reflexivity. Qed.

Lemma assemble_first (rows : list row) :
  assemble (convertOrderByToColumns os) limit First (take (Z.to_nat (limit + 1)) rows)
  = Ok (first_page os n rows).
Proof.
  unfold first_page. destruct (decide (rows = [])) as [->|Hne].
  { rewrite assemble_none, take_nil. reflexivity. }
  destruct (n <? length rows)%nat eqn:E.
  - apply Nat.ltb_lt in E. rewrite assemble_overflow by (exact Hlimit || exact E).
    cbv zeta. fold n. unfold last_item.
    rewrite genCursor_at by (exact Hos || (apply is_Some_last, take_nonempty; [exact Hne|lia])).
    destruct (cursor_at_Some true (last (take n rows))) as [c Hc].
    { apply is_Some_last, take_nonempty; [exact Hne|lia]. }
    rewrite Hc. reflexivity.
  - apply Nat.ltb_ge in E. rewrite assemble_small by (exact Hlimit || exact Hne || exact E).
    rewrite take_ge by exact E. reflexivity.
Qed.

Lemma assemble_forward (rows : list row) :
  assemble (convertOrderByToColumns os) limit Forward (take (Z.to_nat (limit + 1)) rows)
  = Ok {| items := take n rows;
          nextCursor :=
            if (n <? length rows)%nat then cursor_at os true (last (take n rows)) else None;
          prevCursor := cursor_at os false (head rows) |}.
Proof.
  destruct (decide (rows = [])) as [->|Hne].
  { rewrite assemble_none, take_nil. reflexivity. }
  assert (Hhead : head (take n rows) = head rows).
  { destruct rows; [congruence|]. replace n with (S (pred n)) by lia. reflexivity. }
  destruct (n <? length rows)%nat eqn:E.
  - apply Nat.ltb_lt in E. rewrite assemble_overflow by (exact Hlimit || exact E).
    cbv zeta. fold n. unfold last_item.
    rewrite !genCursor_at, Hhead
      by first [exact Hos
               |(apply is_Some_last || apply is_Some_head);
                apply take_nonempty; [exact Hne|lia]].
    destruct (cursor_at_Some true (last (take n rows))) as [c Hc].
    { apply is_Some_last, take_nonempty; [exact Hne|lia]. }
    destruct (cursor_at_Some false (head rows)) as [c' Hc'].
    { apply is_Some_head, Hne. }
    rewrite Hc, Hc'. reflexivity.
  - apply Nat.ltb_ge in E. rewrite assemble_small by (exact Hlimit || exact Hne || exact E).
    rewrite genCursor_at by (exact Hos || apply is_Some_head, Hne).
    destruct (cursor_at_Some false (head rows)) as [c' Hc'].
    { apply is_Some_head, Hne. }
    rewrite Hc', take_ge by exact E. reflexivity.
Qed.

Lemma assemble_backward (before : list row) :
  assemble (convertOrderByToColumns os) limit Backward
           (take (Z.to_nat (limit + 1)) (reverse before))
  = Ok {| items := drop (length before - n) before;
          nextCursor := cursor_at os true (last before);
          prevCursor :=
            if (n <? length before)%nat
            then cursor_at os false (head (drop (length before - n) before))
            else None |}.
Proof.
  destruct (decide (before = [])) as [->|Hne].
  { rewrite reverse_nil, assemble_none. reflexivity. }
  assert (Hne' : reverse before <> []).
  { intros E. apply (f_equal length) in E. rewrite length_reverse in E.
    destruct before; [congruence|discriminate]. }
  destruct (n <? length before)%nat eqn:E.
  - apply Nat.ltb_lt in E.
    rewrite assemble_overflow by first [exact Hlimit|rewrite length_reverse; exact E].
    cbv zeta. fold n. unfold last_item.
    rewrite take_reverse, rev_reverse, reverse_involutive.
    assert (Hd : drop (length before - n) before <> []).
    { intros Ed. apply (f_equal length) in Ed. rewrite length_drop in Ed. cbn in Ed. lia. }
    rewrite !genCursor_at
      by first [exact Hos|(apply is_Some_last || apply is_Some_head); exact Hd].
    rewrite last_drop by lia.
    destruct (cursor_at_Some true (last before)) as [c Hc]; [apply is_Some_last, Hne|].
    destruct (cursor_at_Some false (head (drop (length before - n) before))) as [c' Hc'].
    { apply is_Some_head, Hd. }
    rewrite Hc, Hc'. reflexivity.
  - apply Nat.ltb_ge in E.
    rewrite assemble_small
      by first [exact Hlimit|exact Hne'|rewrite length_reverse; exact E].
    unfold last_item. rewrite rev_reverse, reverse_involutive.
    rewrite genCursor_at by (exact Hos || apply is_Some_last, Hne).
    destruct (cursor_at_Some true (last before)) as [c Hc]; [apply is_Some_last, Hne|].
    rewrite Hc. replace (length before - n)%nat with 0%nat by lia. reflexivity.
Qed.

End Pages.

(** ** The pages of an exact listing *)

Lemma page_first (db : list row) (q : QueryBuilder) (limit : Z) :
  directed q = true -> exact_listing db q -> (1 <= limit)%Z ->
  run_page db q limit None
  = Ok (first_page (effective_order q) (Z.to_nat limit) (listing db q)).
Proof.
  intros Hdir Hex Hl. unfold run_page. rewrite paginate_stages by (cbn [this]; first [exact Hdir | apply conjunctive_static, Hex]).
  cbv zeta.
  change (read_cursor _ None) with (@Ok (list where_stmt * mode) ([], First)).
  cbn [fst this is_backward].
  rewrite fetch_first by (apply Hex || lia).
  apply assemble_first; [apply Hex|exact Hl].
Qed.

Lemma page_forward (db : list row) (q : QueryBuilder) (limit : Z) (i : nat) (b : row) :
  directed q = true -> exact_listing db q -> (1 <= limit)%Z -> listing db q !! i = Some b ->
  run_page db q limit (Some (cursor_of (effective_order q) b true))
  = Ok (page_after (effective_order q) (Z.to_nat limit) (listing db q) i).
Proof.
  intros Hdir Hex Hl Hi. unfold run_page. rewrite paginate_stages by (cbn [this]; first [exact Hdir | apply conjunctive_static, Hex]).
  cbv zeta. cbn [this].
  destruct (fetch_cursor db q limit true i b Hex ltac:(lia) Hi) as (filter & Hr & He).
  rewrite Hr. cbn [fst is_backward]. cbn [negb] in He. rewrite He.
  apply assemble_forward; [apply Hex|exact Hl].
Qed.

Lemma page_backward (db : list row) (q : QueryBuilder) (limit : Z) (i : nat) (b : row) :
  directed q = true -> exact_listing db q -> (1 <= limit)%Z -> listing db q !! i = Some b ->
  run_page db q limit (Some (cursor_of (effective_order q) b false))
  = Ok (page_before (effective_order q) (Z.to_nat limit) (listing db q) i).
Proof.
  intros Hdir Hex Hl Hi. unfold run_page. rewrite paginate_stages by (cbn [this]; first [exact Hdir | apply conjunctive_static, Hex]).
  cbv zeta. cbn [this].
  destruct (fetch_cursor db q limit false i b Hex ltac:(lia) Hi) as (filter & Hr & He).
  rewrite Hr. cbn [fst is_backward]. cbn [negb] in He. rewrite He.
  apply assemble_backward; [apply Hex|exact Hl].
Qed.

Lemma last_take_lookup {A} (l : list A) (n : nat) :
  (1 <= n <= length l)%nat -> last (take n l) = l !! (n - 1)%nat.
Proof.
  intros Hn. rewrite last_lookup, length_take.
  replace (Init.Nat.pred (n `min` length l)) with (n - 1)%nat by lia.
  apply lookup_take_lt. lia.
Qed.

Lemma forward_pages_after (db : list row) (q : QueryBuilder) (limit : Z) :
  directed q = true -> exact_listing db q -> (1 <= limit)%Z ->
  forall fuel i b,
    listing db q !! i = Some b -> (length (listing db q) - i <= fuel)%nat ->
    forward_pages fuel db q limit (Some (cursor_of (effective_order q) b true))
    = Some (Ok (drop (S i) (listing db q))).
Proof.
  intros Hdir Hex Hl. induction fuel as [|fuel IH]; intros i b Hi Hfuel.
  { apply lookup_lt_Some in Hi. lia. }
  cbn [forward_pages]. rewrite (page_forward db q limit i b Hdir Hex Hl Hi).
  unfold page_after. cbv zeta. cbn [nextCursor items].
  set (n := Z.to_nat limit). set (rest := drop (S i) (listing db q)).
  assert (Hn : (1 <= n)%nat) by (unfold n; lia).
  destruct (n <? length rest)%nat eqn:E.
  - apply Nat.ltb_lt in E.
    assert (Hlast : last (take n rest) = listing db q !! (i + n)%nat).
    { rewrite last_take_lookup by lia. unfold rest. rewrite lookup_drop. f_equal. lia. }
    destruct (listing db q !! (i + n)%nat) as [b'|] eqn:Hb'.
    2:{ apply lookup_ge_None in Hb'. unfold rest in E. rewrite length_drop in E. lia. }
    rewrite Hlast. cbn [cursor_at].
    rewrite (IH (i + n)%nat b' Hb').
    2:{ unfold rest in E. rewrite length_drop in E. lia. }
    assert (Hd : drop (S (i + n)) (listing db q) = drop n rest).
    { unfold rest. rewrite drop_drop. f_equal; lia. }
    rewrite Hd, take_drop. reflexivity.
  - apply Nat.ltb_ge in E. rewrite take_ge by exact E. reflexivity.
Qed.

(** C2. When every order statement of the builder has a
    direction, the caller's filters are conjunctive, the column names of
    the ordering distinct and none an array index, and the rows of the
    query hold in every ordering column non-null values of one type with
    no two rows sharing a key, then for every limit >= 1 the forward
    pages from no cursor on, followed until a page has no next cursor,
    exist and their items in sequence are the rows of the query in the
    order of the ordering, each once. *)
Theorem forward_pages_cover (db : list row) (q : QueryBuilder) (limit : Z) :
  directed q = true -> exact_listing db q -> (1 <= limit)%Z ->
  forward_pages (S (length (listing db q))) db q limit None = Some (Ok (listing db q)) /\
  listing db q ≡ₚ visible db q /\
  NoDup (listing db q).
Proof.
  intros Hdir Hex Hl. split; [|split].
  - cbn [forward_pages]. rewrite (page_first db q limit Hdir Hex Hl).
    unfold first_page. cbn [nextCursor items].
    set (n := Z.to_nat limit). assert (Hn : (1 <= n)%nat) by (unfold n; lia).
    destruct (n <? length (listing db q))%nat eqn:E.
    + apply Nat.ltb_lt in E. rewrite last_take_lookup by lia.
      destruct (listing db q !! (n - 1)%nat) as [b|] eqn:Hb.
      2:{ apply lookup_ge_None in Hb. lia. }
      cbn [cursor_at]. rewrite (forward_pages_after db q limit Hdir Hex Hl _ (n - 1)%nat b Hb) by lia.
      replace (S (n - 1)) with n by lia. rewrite take_drop. reflexivity.
    + apply Nat.ltb_ge in E. rewrite take_ge by exact E. reflexivity.
  - apply sort_rows_perm.
  - destruct (listing_strict db q Hex) as [[Hnd _] _].
    unfold listing. rewrite sort_rows_perm. exact Hnd.
Qed.

(** ** Pages of a listing *)

(** The scenario of the specification is an exact listing. *)
Lemma example_exact : exact_listing example_rows example_query.
Proof.
  split; [reflexivity|]. split; [|split; reflexivity].
  split; [compute_done|repeat constructor].
Qed.

Lemma forward_pages_cover_witness :
  forward_pages (S (length (listing example_rows example_query)))
                example_rows example_query 2 None
  = Some (Ok (listing example_rows example_query)) /\
  listing example_rows example_query ≡ₚ visible example_rows example_query /\
  NoDup (listing example_rows example_query).
Proof.
  apply (forward_pages_cover example_rows example_query 2).
  - reflexivity.
  - exact example_exact.
  - lia.
Defined.

(** With the ordering [t desc] alone two rows tie on [t = 9]; the first
    page ends on one of them and the next page starts below 9, so the
    other is in no page: the pages hold three of the four rows. *)
Lemma forward_pages_skip_tie :
  length (listing tied_rows tied_query) = 4%nat /\
  exists rows,
    forward_pages (S (length (listing tied_rows tied_query))) tied_rows tied_query 2 None
    = Some (Ok rows) /\
    length rows = 3%nat /\
    rows <> listing tied_rows tied_query.
Proof.
  split; [reflexivity|]. eexists. split; [vm_compute; reflexivity|].
  split; [reflexivity|]. vm_compute. discriminate.
Qed.

Lemma honest_cursor_cases (db : list row) (q : QueryBuilder) (limit : Z)
    (cursor : option string) :
  directed q = true -> exact_listing db q -> (1 <= limit)%Z -> honest_cursor db q cursor ->
  let os := effective_order q in
  let n := Z.to_nat limit in
  let S := listing db q in
  (cursor = None /\ run_page db q limit cursor = Ok (first_page os n S)) \/
  (exists i b, S !! i = Some b /\ cursor = Some (cursor_of os b true) /\
     run_page db q limit cursor = Ok (page_after os n S i)) \/
  (exists i b, S !! i = Some b /\ cursor = Some (cursor_of os b false) /\
     run_page db q limit cursor = Ok (page_before os n S i)).
Proof.
  intros Hdir Hex Hl [->|(b & flag & Hb & ->)]; cbv zeta.
  - left. split; [reflexivity|]. apply page_first; assumption.
  - apply list_elem_of_lookup in Hb as [i Hi]. destruct flag.
    + right; left. exists i, b. split; [exact Hi|]. split; [reflexivity|].
      apply page_forward; assumption.
    + right; right. exists i, b. split; [exact Hi|]. split; [reflexivity|].
      apply page_backward; assumption.
Qed.

Lemma cursor_at_not_None (os : list OrderByClause) (flag : bool) (o : option row) :
  cursor_at os flag o <> None <-> o <> None.
Proof. destruct o; cbn; split; congruence. Qed.

Lemma drop_nonempty {A} (l : list A) (k : nat) : drop k l <> [] <-> (k < length l)%nat.
Proof.
  split.
  - intros H. destruct (decide (k < length l)%nat); [assumption|].
    exfalso. apply H. apply drop_ge. lia.
  - intros H E. apply (f_equal length) in E. rewrite length_drop in E. cbn in E. lia.
Qed.

Lemma take_nonempty_iff {A} (l : list A) (k : nat) :
  take k l <> [] <-> (0 < k)%nat /\ l <> [].
Proof.
  destruct l, k; cbn; split; try (intros []; congruence || lia); try congruence.
  - intros _. split; [lia|congruence].
Qed.

(** C4. When every order statement of the builder has a
    direction, under the conditions of an exact listing, for every
    limit >= 1 and a cursor argument that is absent or was made from a
    row of the listing, the call returns a page of at most [limit] items
    which are a run of consecutive rows of the listing; when the page is
    not empty, it has a next cursor exactly when rows follow its last
    item and a previous cursor exactly when rows precede its first item;
    a call with no cursor returns no previous cursor. *)
Theorem page_markers (db : list row) (q : QueryBuilder) (limit : Z) (cursor : option string) :
  directed q = true -> exact_listing db q -> (1 <= limit)%Z -> honest_cursor db q cursor ->
  exists page pre post,
    run_page db q limit cursor = Ok page /\
    (Z.of_nat (length (items page)) <= limit)%Z /\
    listing db q = pre ++ items page ++ post /\
    (items page <> [] ->
     (nextCursor page <> None <-> post <> []) /\
     (prevCursor page <> None <-> pre <> [])) /\
    (cursor = None -> prevCursor page = None).
Proof.
  intros Hdir Hex Hl Hc.
  destruct (honest_cursor_cases db q limit cursor Hdir Hex Hl Hc)
    as [[-> Hp]|[(i & b & Hi & -> & Hp)|(i & b & Hi & -> & Hp)]];
    cbv zeta in Hp; rewrite Hp;
    set (S := listing db q) in *; set (n := Z.to_nat limit) in *;
    assert (Hn : (1 <= n)%nat) by (unfold n; lia).
  - exists (first_page (effective_order q) n S), [], (drop n S).
    unfold first_page. cbn [items nextCursor prevCursor app].
    split; [reflexivity|]. split; [rewrite length_take; lia|].
    split; [symmetry; apply take_drop|]. split; [|reflexivity].
    intros Hne. split; [|tauto].
    rewrite drop_nonempty. destruct (n <? length S)%nat eqn:E.
    + apply Nat.ltb_lt in E. rewrite cursor_at_not_None.
      split; [intros _; exact E|]. intros _ El. apply last_None in El. congruence.
    + apply Nat.ltb_ge in E. split; [congruence|lia].
  - exists (page_after (effective_order q) n S i), (take (Datatypes.S i) S),
           (drop n (drop (Datatypes.S i) S)).
    unfold page_after. cbv zeta. cbn [items nextCursor prevCursor].
    set (rest := drop (Datatypes.S i) S).
    split; [reflexivity|]. split; [rewrite length_take; lia|].
    split; [rewrite take_drop; symmetry; apply take_drop|]. split; [|discriminate].
    intros Hne. split.
    + rewrite drop_nonempty. destruct (n <? length rest)%nat eqn:E.
      * apply Nat.ltb_lt in E. rewrite cursor_at_not_None.
        split; [intros _; exact E|]. intros _ El. apply last_None in El. congruence.
      * apply Nat.ltb_ge in E. split; [congruence|lia].
    + rewrite cursor_at_not_None, take_nonempty_iff. split.
      * intros _. split; [lia|]. intros Es. rewrite Es in Hi. discriminate Hi.
      * intros _ Eh. apply head_None in Eh. rewrite Eh, take_nil in Hne. congruence.
  - exists (page_before (effective_order q) n S i),
           (take (length (take i S) - n) (take i S)), (drop i S).
    unfold page_before. cbv zeta. cbn [items nextCursor prevCursor].
    set (before := take i S).
    split; [reflexivity|]. split; [rewrite length_drop; lia|].
    split; [rewrite app_assoc, take_drop; symmetry; apply take_drop|].
    split; [|discriminate].
    intros Hne. split.
    + rewrite cursor_at_not_None, drop_nonempty. split.
      * intros _. apply lookup_lt_Some in Hi. exact Hi.
      * intros _ El. apply last_None in El. rewrite El, drop_nil in Hne. congruence.
    + rewrite take_nonempty_iff. destruct (n <? length before)%nat eqn:E.
      * apply Nat.ltb_lt in E. rewrite cursor_at_not_None. split.
        -- intros _. split; [lia|]. intros Eb. rewrite Eb in E. cbn in E. lia.
        -- intros _ Eh. apply head_None in Eh. congruence.
      * apply Nat.ltb_ge in E. split; [congruence|]. intros [Hk _]. lia.
Qed.

Lemma page_markers_witness :
  exists page pre post,
    run_page example_rows example_query 2 None = Ok page /\
    (Z.of_nat (length (items page)) <= 2)%Z /\
    listing example_rows example_query = pre ++ items page ++ post /\
    (items page <> [] ->
     (nextCursor page <> None <-> post <> []) /\
     (prevCursor page <> None <-> pre <> [])) /\
    ((None : option string) = None -> prevCursor page = None).
Proof.
  apply (page_markers example_rows example_query 2 None).
  - reflexivity.
  - exact example_exact.
  - lia.
  - left. reflexivity.
Defined.

(** A cursor whose boundary lies before every row: the page starts at
    the first row of the listing and still carries a previous cursor. *)
Lemma boundary_before_all_rows :
  decodeCursor "eyJkYXRhIjpbMTAwLDEwMF0sInBvaW50X3RvX25leHQiOnRydWV9"
  = Some (json_of_cursor {| data := [JNum 100; JNum 100]; point_to_next := true |}) /\
  exists page,
    run_page example_rows example_query 2
             (Some "eyJkYXRhIjpbMTAwLDEwMF0sInBvaW50X3RvX25leHQiOnRydWV9") = Ok page /\
    listing example_rows example_query = items page ++ [[("id", VNum 3); ("t", VNum 9)]] /\
    prevCursor page <> None.
Proof.
  split; [vm_compute; reflexivity|]. eexists. split; [vm_compute; reflexivity|].
  split; [vm_compute; reflexivity|]. discriminate.
Qed.

Lemma forward_then_back (db : list row) (q : QueryBuilder) (limit : Z) (j : nat)
    (r r' : row) :
  directed q = true -> exact_listing db q -> (1 <= limit)%Z ->
  listing db q !! j = Some r -> listing db q !! (S j) = Some r' ->
  exists page' pc page'',
    run_page db q limit (Some (cursor_of (effective_order q) r true)) = Ok page' /\
    prevCursor page' = Some pc /\
    run_page db q limit (Some pc) = Ok page'' /\
    items page'' = drop (S j - Z.to_nat limit) (take (S j) (listing db q)).
Proof.
  intros Hdir Hex Hl Hj Hj'.
  exists (page_after (effective_order q) (Z.to_nat limit) (listing db q) j),
         (cursor_of (effective_order q) r' false),
         (page_before (effective_order q) (Z.to_nat limit) (listing db q) (S j)).
  split; [apply page_forward; assumption|]. split.
  - unfold page_after. cbv zeta. cbn [prevCursor].
    rewrite head_lookup, lookup_drop, Nat.add_0_r, Hj'. reflexivity.
  - split; [apply page_backward; assumption|].
    unfold page_before. cbv zeta. cbn [items].
    rewrite length_take. apply lookup_lt_Some in Hj'.
    replace (S j `min` length (listing db q)) with (S j) by lia. reflexivity.
Qed.

(** C5. Under the conditions of an exact listing, for every
    limit >= 1: when a page reached with no cursor or with a cursor made
    from a row of the listing has a next cursor, the page after that
    cursor has a previous cursor, and the page before that previous
    cursor has the items of the first page. *)
Theorem forward_backward_symmetry (db : list row) (q : QueryBuilder) (limit : Z)
    (cursor : option string) (page : CursorPaginator) (next : string) :
  exact_listing db q -> (1 <= limit)%Z -> honest_cursor db q cursor ->
  run_page db q limit cursor = Ok page -> nextCursor page = Some next ->
  exists page' prev page'',
    run_page db q limit (Some next) = Ok page' /\
    prevCursor page' = Some prev /\
    run_page db q limit (Some prev) = Ok page'' /\
    items page'' = items page.
Proof.
  intros Hex Hl Hc Hpage Hnext.
  assert (Hdir : directed q = true).
  { unfold run_page in Hpage. apply paginate_ok in Hpage as (? & ? & ? & Hdir & _).
    exact Hdir. }
  destruct (honest_cursor_cases db q limit cursor Hdir Hex Hl Hc)
    as [[-> Hp]|[(i & b & Hi & -> & Hp)|(i & b & Hi & -> & Hp)]];
    cbv zeta in Hp; rewrite Hp in Hpage; injection Hpage as <-;
    set (S := listing db q) in *; set (n := Z.to_nat limit) in *;
    assert (Hn : (1 <= n)%nat) by (unfold n; lia).
  - unfold first_page in *. cbn [items nextCursor] in *.
    destruct (n <? length S)%nat eqn:E; [|discriminate Hnext].
    apply Nat.ltb_lt in E. rewrite last_take_lookup in Hnext by lia.
    destruct (S !! (n - 1)%nat) as [r|] eqn:Hr; [|discriminate Hnext].
    injection Hnext as <-.
    destruct (S !! n) as [r'|] eqn:Hr'; [|apply lookup_ge_None in Hr'; lia].
    destruct (forward_then_back db q limit (n - 1)%nat r r' Hdir Hex Hl Hr)
      as (page' & pc & page'' & H1 & H2 & H3 & H4).
    { replace (Datatypes.S (n - 1)) with n by lia. exact Hr'. }
    exists page', pc, page''. repeat (split; [assumption|]).
    rewrite H4. fold S n. replace (Datatypes.S (n - 1)) with n by lia.
    replace (n - n)%nat with 0%nat by lia. reflexivity.
  - unfold page_after in *. cbv zeta in *. cbn [items nextCursor] in *.
    set (rest := drop (Datatypes.S i) S) in *.
    destruct (n <? length rest)%nat eqn:E; [|discriminate Hnext].
    apply Nat.ltb_lt in E. unfold rest in E. rewrite length_drop in E.
    rewrite last_take_lookup in Hnext by (unfold rest; rewrite length_drop; lia).
    unfold rest in Hnext. rewrite lookup_drop in Hnext.
    replace (Datatypes.S i + (n - 1))%nat with (i + n)%nat in Hnext by lia.
    destruct (S !! (i + n)%nat) as [r|] eqn:Hr; [|discriminate Hnext].
    injection Hnext as <-.
    destruct (S !! (Datatypes.S (i + n))) as [r'|] eqn:Hr';
      [|apply lookup_ge_None in Hr'; lia].
    destruct (forward_then_back db q limit (i + n)%nat r r' Hdir Hex Hl Hr Hr')
      as (page' & pc & page'' & H1 & H2 & H3 & H4).
    exists page', pc, page''. repeat (split; [assumption|]).
    rewrite H4. fold S n. unfold rest. rewrite take_drop_commute.
    replace (Datatypes.S (i + n) - n)%nat with (Datatypes.S i) by lia.
    replace (Datatypes.S i + n)%nat with (Datatypes.S (i + n)) by lia. reflexivity.
  - unfold page_before in *. cbv zeta in *. cbn [items nextCursor] in *.
    assert (Hlen : length (take i S) = i).
    { rewrite length_take. apply lookup_lt_Some in Hi. lia. }
    destruct (last (take i S)) as [r|] eqn:Hr; [|discriminate Hnext].
    injection Hnext as <-.
    assert (Hi1 : (1 <= i)%nat).
    { destruct i; [rewrite take_0 in Hr; discriminate Hr|lia]. }
    rewrite last_take_lookup in Hr by (apply lookup_lt_Some in Hi; lia).
    destruct (forward_then_back db q limit (i - 1)%nat r b Hdir Hex Hl Hr)
      as (page' & pc & page'' & H1 & H2 & H3 & H4).
    { replace (Datatypes.S (i - 1)) with i by lia. exact Hi. }
    exists page', pc, page''. repeat (split; [assumption|]).
    rewrite H4. fold S n. replace (Datatypes.S (i - 1)) with i by lia.
    rewrite Hlen. reflexivity.
Qed.

Lemma forward_backward_symmetry_witness :
  exists page' prev page'',
    run_page example_rows example_query 2
             (Some "eyJkYXRhIjpbMTAsNF0sInBvaW50X3RvX25leHQiOnRydWV9") = Ok page' /\
    prevCursor page' = Some prev /\
    run_page example_rows example_query 2 (Some prev) = Ok page'' /\
    items page''
    = items {| items := [[("id", VNum 5); ("t", VNum 10)]; [("id", VNum 4); ("t", VNum 10)]];
               nextCursor := Some "eyJkYXRhIjpbMTAsNF0sInBvaW50X3RvX25leHQiOnRydWV9";
               prevCursor := None |}.
Proof.
  apply (forward_backward_symmetry example_rows example_query 2 None).
  - exact example_exact.
  - lia.
  - left. reflexivity.
  - vm_compute. reflexivity.
  - reflexivity.
Defined.

(** With the ordering [t desc] alone: the first page starts with the
    row of [t = 10]; forward from its next cursor and back from the
    previous cursor of that page gives the two rows of [t = 9], without
    the row of [t = 10]. *)
Lemma tie_breaks_symmetry :
  exists page next page' prev page'',
    run_page tied_rows tied_query 2 None = Ok page /\
    nextCursor page = Some next /\
    run_page tied_rows tied_query 2 (Some next) = Ok page' /\
    prevCursor page' = Some prev /\
    run_page tied_rows tied_query 2 (Some prev) = Ok page'' /\
    head (items page) = Some [("id", VNum 1); ("t", VNum 10)] /\
    ([("id", VNum 1); ("t", VNum 10)] ∉ items page'') /\
    items page'' <> items page.
Proof.
  eexists _, _, _, _, _.
  split; [vm_compute; reflexivity|]. split; [reflexivity|].
  split; [vm_compute; reflexivity|]. split; [reflexivity|].
  split; [vm_compute; reflexivity|]. split; [reflexivity|].
  split; [|discriminate].
  intros Hin. repeat (apply elem_of_cons in Hin as [Hin|Hin]; [discriminate Hin|]).
  inversion Hin.
Qed.

(** ** The size of a page *)

Lemma exec_length (db : list row) (q : QueryBuilder) (n : Z) (rows : list row) :
  limit_ q = Some n -> exec db q = Ok rows -> (Z.of_nat (length rows) <= n)%Z.
Proof.
  unfold exec. intros Hn. rewrite Hn.
  destruct (negb _); [discriminate|].
  destruct (n <? 0)%Z eqn:E; [discriminate|]. apply Z.ltb_ge in E.
  intros [= <-]. rewrite length_take. lia.
Qed.

(** X12. Every page a call returns has at most [limit] items, for
    every limit that is not negative, whatever the cursor and the rows
    are. *)
Lemma page_length_bound (db : list row) (limit : Z) (cursor : option string) (w : world)
    (page : CursorPaginator) :
  (0 <= limit)%Z -> fst (paginate db limit cursor w) = Ok page ->
  (Z.of_nat (length (items page)) <= limit)%Z.
Proof.
  intros Hl Hp.
  apply paginate_ok in Hp as (sent & m & rows & _ & _ & He & Hp & _ & Hlim & _).
  apply exec_length with (n := (limit + 1)%Z) in He; [|exact Hlim].
  revert Hp. unfold assemble. destruct rows as [|r rows]; [intros [= <-]; cbn; lia|].
  destruct (Z.of_nat (length (r :: rows)) <=? limit)%Z eqn:E.
  - apply Z.leb_le in E.
    destruct m; try (intros [= <-]; exact E);
      destruct (genCursor _ _ _); try discriminate; intros [= <-]; cbn [items];
      rewrite ?length_app, ?length_rev; cbn [length] in *; lia.
  - assert (Hpop : (Z.of_nat (length (pop (r :: rows))) <= limit)%Z).
    { unfold pop.
      assert (Hlen : length (removelast (r :: rows)) = length rows).
      { clear. revert r. induction rows as [|x rows IH]; intros r; [reflexivity|].
        change (removelast (r :: x :: rows)) with (r :: removelast (x :: rows)).
        cbn [length]. rewrite IH. reflexivity. }
      rewrite Hlen. cbn [length] in He. lia. }
    cbv zeta.
    destruct (genCursor _ _ true); [|discriminate].
    destruct m; try (intros [= <-]; cbn [items]; rewrite ?length_rev; exact Hpop);
      destruct (genCursor _ _ false); try discriminate; intros [= <-]; cbn [items];
      rewrite ?length_rev; exact Hpop.
Qed.

(** ** The scenario of the specification *)

(** Three rows ordered by [t desc, id desc] with limit 2: the first page
    holds the rows 5 and 4 and a next cursor of [10, 4]; the page after
    it holds the row 3 and a previous cursor of [9, 3]; the page before
    that cursor is the first page again, with a next cursor and no
    previous one. *)
Lemma scenario_three_calls :
  exists next prev,
    run_page example_rows example_query 2 None
    = Ok {| items := [[("id", VNum 5); ("t", VNum 10)]; [("id", VNum 4); ("t", VNum 10)]];
            nextCursor := Some next; prevCursor := None |} /\
    decodeCursor next
    = Some (json_of_cursor {| data := [JNum 10; JNum 4]; point_to_next := true |}) /\
    run_page example_rows example_query 2 (Some next)
    = Ok {| items := [[("id", VNum 3); ("t", VNum 9)]];
            nextCursor := None; prevCursor := Some prev |} /\
    decodeCursor prev
    = Some (json_of_cursor {| data := [JNum 9; JNum 3]; point_to_next := false |}) /\
    run_page example_rows example_query 2 (Some prev)
    = Ok {| items := [[("id", VNum 5); ("t", VNum 10)]; [("id", VNum 4); ("t", VNum 10)]];
            nextCursor := Some next; prevCursor := None |}.
Proof.
  eexists _, _. split; [vm_compute; reflexivity|].
  split; [vm_compute; reflexivity|]. split; [vm_compute; reflexivity|].
  split; vm_compute; reflexivity.
Qed.

(** An empty store gives the empty page. *)
Lemma scenario_empty :
  run_page [] example_query 10 None = Ok (mkPage [] None None).
Proof. reflexivity. Qed.

(** * Further properties of the code *)

(** ** The order statements of a builder *)

Lemma clauses_of_cleared (l l' : list statement) :
  clauses_of (List.filter (fun s => negb (is_order s)) l ++ l') = clauses_of l'.
Proof.
  induction l as [|s l IH]; [reflexivity|]. cbn [List.filter].
  destruct s; cbn; exact IH.
Qed.

Lemma clauses_of_basic (os : list OrderByClause) :
  clauses_of (map (fun o => OrderByBasic (column o) (Some (direction o))) os) = Ok os.
Proof.
  induction os as [|[c d] os IH]; [reflexivity|]. cbn. rewrite IH. reflexivity.
Qed.

Lemma extract_replaced (q : QueryBuilder) (os : list OrderByClause) (reverse : bool) :
  extractOrderByClauses (applyOrderBy (clearOrderByStatements q) os reverse)
  = Ok (fetch_order reverse os).
Proof.
  rewrite applyOrderBy_statements. unfold clearOrderByStatements, extractOrderByClauses.
  cbn [statements]. rewrite clauses_of_cleared. apply clauses_of_basic.
Qed.

Lemma raw_not_in_cleared (l : list statement) (os : list OrderByClause) (sql : string) :
  OrderByRaw sql ∉ List.filter (fun s => negb (is_order s)) l
                   ++ map (fun o => OrderByBasic (column o) (Some (direction o))) os.
Proof.
  rewrite elem_of_app. intros [H|H].
  - apply list_elem_of_In, filter_In in H as [_ H]. discriminate H.
  - apply list_elem_of_fmap in H as (o & Ho & _). discriminate Ho.
Qed.

(** X1. Clearing the order statements of a builder and applying
    an ordering to it leaves a builder whose basic order statements are
    exactly that ordering, each direction inverted when [reverse] is set:
    no earlier order statement survives, raw ones included, and the where
    clauses and the limit are the caller's. *)
Theorem order_statements_replaced (q : QueryBuilder) (os : list OrderByClause)
    (reverse : bool) :
  let q' := applyOrderBy (clearOrderByStatements q) os reverse in
  extractOrderByClauses q'
  = Ok (map (fun o => mkClause (column o)
                        (if reverse then opposite (direction o) else direction o)) os) /\
  (forall sql, OrderByRaw sql ∉ statements q') /\
  wheres q' = wheres q /\
  limit_ q' = limit_ q.
Proof.
  cbv zeta. split; [apply extract_replaced|].
  rewrite applyOrderBy_statements. unfold clearOrderByStatements.
  cbn [statements limit_]. split; [|split].
  - intros sql. apply raw_not_in_cleared.
  - unfold wheres. cbn [statements]. rewrite omap_app.
    rewrite omap_filter_order by (intros []; cbn; congruence).
    assert (H : forall l, omap (fun s => match s with Where w => Some w | _ => None end)
                            (map (fun o => OrderByBasic (column o) (Some (direction o))) l) = []).
    { induction l as [|o l IH]; [reflexivity|]. exact IH. }
    rewrite H. apply app_nil_r.
  - reflexivity.
Qed.

(** X2. Reversing the ordering of a builder twice gives back
    the ordering it had: the statements written for a backward page, read
    again and written reversed once more, are the original ordering. *)
Theorem reverse_twice_restores (q : QueryBuilder) (os : list OrderByClause) :
  let back := applyOrderBy (clearOrderByStatements q) os true in
  exists clauses,
    extractOrderByClauses back = Ok clauses /\
    extractOrderByClauses (applyOrderBy (clearOrderByStatements back) clauses true)
    = Ok os.
Proof.
  cbv zeta. exists (fetch_order true os). split; [apply extract_replaced|].
  rewrite extract_replaced. f_equal. unfold fetch_order. rewrite map_map.
  induction os as [|[c []] os IH]; cbn; [reflexivity| |]; f_equal; exact IH.
Qed.
(** ** The object of columns *)

Lemma keys_replace_own {V} (k : string) (v : V) (o : object V) :
  Object_keys (replace_own k v o) = Object_keys o.
Proof.
  unfold Object_keys. induction o as [|[k' v'] o IH]; [reflexivity|].
  cbn [replace_own]. destruct (String.eqb k k'); cbn [map fst]; [reflexivity|].
  rewrite IH. reflexivity.
Qed.

Lemma keys_insert_index {V} (n : N) (k : string) (v : V) (o : object V) :
  Object_keys (insert_index n k v o) ≡ₚ k :: Object_keys o.
Proof.
  unfold Object_keys. induction o as [|[k' v'] o IH]; [reflexivity|].
  cbn [insert_index]. destruct (array_index k') as [m|]; [|reflexivity].
  destruct (m <? n)%N; [|reflexivity].
  cbn [map fst]. rewrite IH. apply Permutation_swap.
Qed.

Lemma keys_set_own {V} (k : string) (v : V) (o : object V) :
  has_own k o = false -> Object_keys (set_own k v o) ≡ₚ k :: Object_keys o.
Proof.
  intros H. unfold set_own. rewrite H. destruct (array_index k) as [n|].
  - apply keys_insert_index.
  - unfold Object_keys. rewrite map_app. cbn. symmetry. apply Permutation_cons_append.
Qed.

Lemma has_own_spec {V} (k : string) (o : object V) :
  has_own k o = true <-> k ∈ Object_keys o.
Proof.
  unfold has_own. rewrite existsb_exists. split.
  - intros (x & Hx & E). apply String.eqb_eq in E as ->. apply list_elem_of_In. exact Hx.
  - intros H. exists k. split; [apply list_elem_of_In; exact H|apply String.eqb_refl].
Qed.

Lemma get_own_replace_own {V} (c k : string) (v : V) (o : object V) :
  has_own k o = true ->
  get_own c (replace_own k v o) = if String.eqb c k then Some v else get_own c o.
Proof.
  unfold has_own, Object_keys. induction o as [|[k' v'] o IH]; [discriminate|].
  cbn [map fst existsb replace_own]. destruct (String.eqb k k') eqn:E.
  - intros _. apply String.eqb_eq in E as <-. cbn [get_own].
    destruct (String.eqb c k); reflexivity.
  - cbn [orb]. intros H. cbn [get_own]. rewrite (IH H).
    destruct (String.eqb c k') eqn:E'; [|reflexivity].
    apply String.eqb_eq in E' as ->. rewrite String.eqb_sym, E. reflexivity.
Qed.

Lemma get_own_insert_index {V} (c : string) (n : N) (k : string) (v : V) (o : object V) :
  has_own k o = false ->
  get_own c (insert_index n k v o) = if String.eqb c k then Some v else get_own c o.
Proof.
  unfold has_own, Object_keys. induction o as [|[k' v'] o IH]; [reflexivity|].
  cbn [map fst existsb insert_index]. intros H. apply orb_false_elim in H as [E H].
  destruct (array_index k') as [m|]; [|reflexivity].
  destruct (m <? n)%N; [|reflexivity].
  cbn [get_own]. rewrite (IH H).
  destruct (String.eqb c k') eqn:E'; [|reflexivity].
  apply String.eqb_eq in E' as ->. rewrite String.eqb_sym, E. reflexivity.
Qed.

Lemma get_own_app {V} (c : string) (o1 o2 : object V) :
  get_own c (o1 ++ o2) = match get_own c o1 with Some v => Some v | None => get_own c o2 end.
Proof.
  induction o1 as [|[k v] o1 IH]; [reflexivity|]. cbn [app get_own].
  destruct (String.eqb c k); [reflexivity|exact IH].
Qed.

Lemma get_own_None {V} (c : string) (o : object V) :
  has_own c o = false -> get_own c o = None.
Proof.
  unfold has_own, Object_keys. induction o as [|[k v] o IH]; [reflexivity|].
  cbn [map fst existsb get_own]. intros H. apply orb_false_elim in H as [E H].
  rewrite E. exact (IH H).
Qed.

Lemma get_own_set_own {V} (c k : string) (v : V) (o : object V) :
  get_own c (set_own k v o) = if String.eqb c k then Some v else get_own c o.
Proof.
  unfold set_own. destruct (has_own k o) eqn:H.
  - apply get_own_replace_own. exact H.
  - destruct (array_index k) as [n|].
    + apply get_own_insert_index. exact H.
    + rewrite get_own_app. cbn [get_own]. destruct (String.eqb c k) eqn:E.
      * apply String.eqb_eq in E as ->. rewrite (get_own_None k o H). reflexivity.
      * destruct (get_own c o); reflexivity.
Qed.

Lemma convert_snoc (os : list OrderByClause) (o : OrderByClause) :
  convertOrderByToColumns (os ++ [o])
  = set_own (column o) (direction o) (convertOrderByToColumns os).
Proof. unfold convertOrderByToColumns. rewrite fold_left_app. reflexivity. Qed.

Lemma elem_of_keys_set_own {V} (c k : string) (v : V) (o : object V) :
  c ∈ Object_keys (set_own k v o) <-> c = k \/ c ∈ Object_keys o.
Proof.
  destruct (has_own k o) eqn:H.
  - unfold set_own. rewrite H, keys_replace_own. apply has_own_spec in H.
    split; [tauto|]. intros [->|Hc]; assumption.
  - rewrite (keys_set_own k v o H). apply elem_of_cons.
Qed.

Lemma NoDup_keys_set_own {V} (k : string) (v : V) (o : object V) :
  NoDup (Object_keys o) -> NoDup (Object_keys (set_own k v o)).
Proof.
  intros Hnd. destruct (has_own k o) eqn:H.
  - unfold set_own. rewrite H, keys_replace_own. exact Hnd.
  - rewrite (keys_set_own k v o H). apply NoDup_cons. split; [|exact Hnd].
    intros Hk. apply has_own_spec in Hk. congruence.
Qed.

Lemma NoDup_keys_convert (os : list OrderByClause) :
  NoDup (Object_keys (convertOrderByToColumns os)).
Proof.
  induction os as [|o os IH] using rev_ind; [constructor|].
  rewrite convert_snoc. apply NoDup_keys_set_own. exact IH.
Qed.

(** X3. For an ordering none of whose columns is named
    [__proto__], the object of columns built from it has one property for
    each column name of the ordering and no other; a column named more
    than once is one property, and its direction is that of the last
    clause naming it. *)
Theorem columns_of_ordering (os : list OrderByClause) :
  "__proto__" ∉ map column os ->
  let columns := convertOrderByToColumns os in
  NoDup (Object_keys columns) /\
  (forall c, c ∈ Object_keys columns <-> c ∈ map column os) /\
  (forall c, get_own c columns
             = direction <$> last (List.filter (fun o => String.eqb (column o) c) os)).
Proof.
  intros _. cbv zeta. induction os as [|o os IH] using rev_ind.
  - split; [constructor|]. split; [reflexivity|]. reflexivity.
  - destruct IH as (Hnd & Hk & Hg). rewrite convert_snoc.
    split; [apply NoDup_keys_set_own; exact Hnd|]. split.
    + intros c. rewrite elem_of_keys_set_own, Hk, map_app, elem_of_app.
      cbn [map]. rewrite list_elem_of_singleton. tauto.
    + intros c. rewrite get_own_set_own, List.filter_app. cbn [List.filter].
      rewrite (String.eqb_sym c). destruct (String.eqb (column o) c).
      * rewrite last_snoc. reflexivity.
      * rewrite app_nil_r. apply Hg.
Qed.

Lemma columns_of_ordering_witness :
  let columns :=
    convertOrderByToColumns [mkClause "t" Desc; mkClause "id" Desc; mkClause "t" Asc] in
  NoDup (Object_keys columns) /\
  (forall c, c ∈ Object_keys columns
             <-> c ∈ map column [mkClause "t" Desc; mkClause "id" Desc; mkClause "t" Asc]) /\
  (forall c, get_own c columns
             = direction <$> last (List.filter (fun o => String.eqb (column o) c)
                                     [mkClause "t" Desc; mkClause "id" Desc;
                                      mkClause "t" Asc])).
Proof.
  apply (columns_of_ordering [mkClause "t" Desc; mkClause "id" Desc; mkClause "t" Asc]).
  compute_done.
Defined.
(** ** The filter of a cursor, in both directions *)

Lemma keys_reversed (cols : TColumns) :
  Object_keys (reversed_columns cols) = Object_keys cols.
Proof. unfold Object_keys, reversed_columns. rewrite map_map. reflexivity. Qed.

Lemma has_own_reversed (k : string) (cols : TColumns) :
  has_own k (reversed_columns cols) = has_own k cols.
Proof. unfold has_own. rewrite keys_reversed. reflexivity. Qed.

Lemma replace_own_reversed (k : string) (d : Direction) (cols : TColumns) :
  replace_own k (opposite d) (reversed_columns cols)
  = reversed_columns (replace_own k d cols).
Proof.
  induction cols as [|[k' d'] cols IH]; [reflexivity|].
  change (reversed_columns ((k', d') :: cols)) with ((k', opposite d') :: reversed_columns cols).
  cbn [replace_own]. destruct (String.eqb k k'); [reflexivity|]. rewrite IH. reflexivity.
Qed.

Lemma insert_index_reversed (n : N) (k : string) (d : Direction) (cols : TColumns) :
  insert_index n k (opposite d) (reversed_columns cols)
  = reversed_columns (insert_index n k d cols).
Proof.
  induction cols as [|[k' d'] cols IH]; [reflexivity|].
  change (reversed_columns ((k', d') :: cols)) with ((k', opposite d') :: reversed_columns cols).
  cbn [insert_index]. destruct (array_index k') as [m|]; [|reflexivity].
  destruct (m <? n)%N; [|reflexivity]. rewrite IH. reflexivity.
Qed.

Lemma set_own_reversed (k : string) (d : Direction) (cols : TColumns) :
  set_own k (opposite d) (reversed_columns cols) = reversed_columns (set_own k d cols).
Proof.
  unfold set_own. rewrite has_own_reversed. destruct (has_own k cols).
  - apply replace_own_reversed.
  - destruct (array_index k) as [n|]; [apply insert_index_reversed|].
    unfold reversed_columns. rewrite map_app. reflexivity.
Qed.

Lemma convert_reversed (os : list OrderByClause) :
  convertOrderByToColumns (fetch_order true os)
  = reversed_columns (convertOrderByToColumns os).
Proof.
  induction os as [|o os IH] using rev_ind; [reflexivity|].
  unfold fetch_order in *. rewrite map_app. cbn [map].
  rewrite !convert_snoc, IH. cbn [column direction]. apply set_own_reversed.
Qed.

Lemma delete_own_reversed (k : option string) (cols : TColumns) :
  delete_own k (reversed_columns cols) = reversed_columns (delete_own k cols).
Proof.
  destruct k as [k|]; [|reflexivity]. unfold delete_own.
  induction cols as [|[k' d'] cols IH]; [reflexivity|].
  change (reversed_columns ((k', d') :: cols)) with ((k', opposite d') :: reversed_columns cols).
  cbn [List.filter fst]. destruct (negb (String.eqb k k')); rewrite IH; reflexivity.
Qed.

Lemma delete_own_first {V} (k : string) (v : V) (o : object V) :
  k ∉ Object_keys o -> delete_own (Some k) ((k, v) :: o) = o.
Proof.
  intros Hk. cbn [delete_own List.filter fst]. rewrite String.eqb_refl. cbn [negb].
  induction o as [|[k' v'] o IH]; [reflexivity|].
  cbn [Object_keys map fst] in Hk. apply not_elem_of_cons in Hk as [Hne Hk].
  cbn [List.filter fst]. apply String.eqb_neq in Hne. rewrite Hne. cbn [negb].
  rewrite (IH Hk). reflexivity.
Qed.

Lemma backward_filter_reversed (vals : list json) :
  forall (q : list where_stmt) (cols : TColumns),
  NoDup (Object_keys cols) -> cols <> [] -> length vals <= length cols ->
  applyCursorConditions q cols false vals
  = applyCursorConditions q (reversed_columns cols) true vals.
Proof.
  induction vals as [|v vals IH]; intros q cols Hnd Hne Hlen.
  - destruct cols as [|[k d] cols]; [congruence|]. destruct d; reflexivity.
  - destruct cols as [|[k d] cols]; [congruence|].
    destruct vals as [|v' vals]; [destruct d; reflexivity|].
    rewrite !applyCursorConditions_more. cbv zeta.
    cbn [Object_keys Object_values reversed_columns map fst snd head] in *.
    apply NoDup_cons in Hnd as [Hk Hnd].
    change (map (fun p : string * Direction => (p.1, opposite p.2)) cols)
      with (reversed_columns cols).
    rewrite (delete_own_first k d cols Hk).
    rewrite (delete_own_first k (opposite d) (reversed_columns cols))
      by (rewrite keys_reversed; exact Hk).
    cbn [length] in Hlen.
    rewrite (IH _ cols Hnd) by (try intros ->; cbn [length] in *; lia).
    destruct d; reflexivity.
Qed.

(** X4. The filter of a backward cursor is the filter of a
    forward cursor over the reversed ordering, for a cursor with no more
    values than the ordering has distinct columns. *)
Theorem backward_is_forward_reversed (q : list where_stmt) (os : list OrderByClause)
    (vals : list json) :
  os <> [] ->
  length vals <= length (Object_keys (convertOrderByToColumns os)) ->
  applyCursorConditions q (convertOrderByToColumns os) false vals
  = applyCursorConditions q (convertOrderByToColumns (fetch_order true os)) true vals.
Proof.
  intros Hos Hlen. rewrite convert_reversed. apply backward_filter_reversed.
  - apply NoDup_keys_convert.
  - intros E. apply (columns_nonempty os Hos). rewrite E. reflexivity.
  - unfold Object_keys in Hlen. rewrite length_map in Hlen. exact Hlen.
Qed.

Lemma backward_is_forward_reversed_witness :
  applyCursorConditions [] (convertOrderByToColumns (orders example_query))
    false [JNum 10; JNum 4]
  = applyCursorConditions []
      (convertOrderByToColumns (fetch_order true (orders example_query)))
      true [JNum 10; JNum 4].
Proof.
  apply (backward_is_forward_reversed [] (orders example_query)
           [JNum 10; JNum 4]).
  - discriminate.
  - vm_compute. lia.
Defined.

Lemma applyCursorConditions_group (cols : TColumns) (b : bool) (vals : list json) :
  exists body, applyCursorConditions [] cols b vals = [WhereWrapped BAnd body].
Proof. destruct vals as [|v [|v' vals]]; eexists; reflexivity. Qed.

Lemma group_step (cols : TColumns) (b : bool) (v v' : json) (vals : list json) (r : row) :
  let column := head (Object_keys cols) in
  let cmp :=
    if b then match head (Object_values cols) with Some Asc => OpGt | _ => OpLt end
    else match head (Object_values cols) with Some Asc => OpLt | _ => OpGt end in
  eval_wheres r (applyCursorConditions [] cols b (v :: v' :: vals))
  = tri_or (eval_where r (WhereBasic BAnd column cmp (Some v)))
      (tri_and (eval_where r (WhereBasic BOr column OpEq (Some v)))
         (eval_wheres r
            (applyCursorConditions [] (delete_own column cols) b (v' :: vals)))).
Proof.
  cbv zeta. rewrite applyCursorConditions_more. cbv zeta. cbn [app].
  rewrite eval_wheres_single, applyCursorConditions_app.
  destruct (applyCursorConditions_group (delete_own (head (Object_keys cols)) cols) b
              (v' :: vals)) as [body ->].
  rewrite eval_wheres_single. reflexivity.
Qed.

Lemma group_last (cols : TColumns) (b : bool) (vals : list json) (r : row) :
  length vals <= 1 ->
  let column := head (Object_keys cols) in
  let cmp :=
    if b then match head (Object_values cols) with Some Asc => OpGt | _ => OpLt end
    else match head (Object_values cols) with Some Asc => OpLt | _ => OpGt end in
  eval_wheres r (applyCursorConditions [] cols b vals)
  = eval_where r (where_call BAnd column cmp (head vals)).
Proof.
  intros Hlen. destruct vals as [|v [|v' vals]]; [reflexivity|reflexivity|].
  cbn [length] in Hlen. lia.
Qed.

Lemma holds_exclusive (op1 op2 : operator) (v : jsval) (p : json) :
  op1 <> op2 -> eval_basic op1 v p = T -> eval_basic op2 v p = T -> False.
Proof.
  unfold eval_basic. destruct (sql_compare v p) as [c|]; [|discriminate].
  destruct op1, op2, c; cbn; congruence.
Qed.

Lemma basic_exclusive (bo1 bo2 : connective) (c : option string) (op1 op2 : operator)
    (v : option json) (r : row) :
  op1 <> op2 ->
  eval_where r (WhereBasic bo1 c op1 v) = T -> eval_where r (WhereBasic bo2 c op2 v) = T ->
  False.
Proof.
  intros Hne. destruct c as [c|], v as [v|]; cbn [eval_where]; try discriminate.
  apply holds_exclusive. exact Hne.
Qed.

Lemma equal_exclusive (s1 s2 : string) (v : jsval) :
  s1 <> s2 -> eval_basic OpEq v (JStr s1) = T -> eval_basic OpEq v (JStr s2) = T -> False.
Proof.
  intros Hne. unfold eval_basic.
  destruct v as [| |a|n|a|a]; cbn [sql_compare]; try discriminate;
    destruct (String.compare a s1) eqn:E1; try discriminate;
    destruct (String.compare a s2) eqn:E2; try discriminate;
    intros _ _; apply String.compare_eq_iff in E1, E2; congruence.
Qed.

Lemma call_exclusive (bo1 bo2 : connective) (c : option string) (op1 op2 : operator)
    (v : option json) (r : row) :
  op1 <> op2 ->
  eval_where r (where_call bo1 c op1 v) = T -> eval_where r (where_call bo2 c op2 v) = T ->
  False.
Proof.
  intros Hne. destruct v as [v|]; [apply basic_exclusive, Hne|].
  destruct c as [c|]; cbn [where_call eval_where]; [|discriminate].
  apply equal_exclusive. destruct op1, op2; cbn; congruence.
Qed.

Lemma tri_or_T (a b : tri) : tri_or a b = T -> a = T \/ b = T.
Proof. destruct a, b; cbn; intros; try discriminate; auto. Qed.

Lemma tri_and_T (a b : tri) : tri_and a b = T -> a = T /\ b = T.
Proof. destruct a, b; cbn; intros; try discriminate; auto. Qed.

Lemma strict_ops_differ (dir : option Direction) :
  match dir with Some Asc => OpGt | _ => OpLt end
  <> match dir with Some Asc => OpLt | _ => OpGt end.
Proof. destruct dir as [[]|]; discriminate. Qed.

(** X5. No row passes both the forward and the backward filter
    of the same cursor values, whatever the columns and the values are:
    the two directions of a cursor never select a common row. *)
Theorem directions_exclusive (columns : TColumns) (vals : list json) (r : row) :
  selects (applyCursorConditions [] columns true vals) r = true ->
  selects (applyCursorConditions [] columns false vals) r = false.
Proof.
  unfold selects. revert columns.
  assert (H : forall n vals, length vals <= n -> forall columns,
            eval_wheres r (applyCursorConditions [] columns true vals) = T ->
            eval_wheres r (applyCursorConditions [] columns false vals) = T -> False).
  { clear vals. induction n as [|n IH]; intros vals Hlen columns.
    - rewrite !group_last by lia. cbv zeta.
      apply call_exclusive, strict_ops_differ.
    - destruct vals as [|v [|v' vals]];
        [rewrite !group_last by (cbn; lia); cbv zeta;
         apply call_exclusive, strict_ops_differ..|].
      rewrite !group_step. cbv zeta. intros Hf Hb.
      apply tri_or_T in Hf as [Hf|Hf], Hb as [Hb|Hb].
      + exact (basic_exclusive _ _ _ _ _ _ r (strict_ops_differ _) Hf Hb).
      + apply tri_and_T in Hb as [Hb _].
        refine (basic_exclusive _ _ _ _ _ _ r _ Hf Hb).
        destruct (head (Object_values columns)) as [[]|]; discriminate.
      + apply tri_and_T in Hf as [Hf _].
        refine (basic_exclusive _ _ _ _ _ _ r _ Hb Hf).
        destruct (head (Object_values columns)) as [[]|]; discriminate.
      + apply tri_and_T in Hf as [_ Hf], Hb as [_ Hb].
        apply (IH (v' :: vals)) in Hf; [exact Hf| |exact Hb].
        cbn [length] in *. lia. }
  intros columns Hf.
  destruct (eval_wheres r (applyCursorConditions [] columns true vals)) eqn:Ef;
    try discriminate Hf.
  destruct (eval_wheres r (applyCursorConditions [] columns false vals)) eqn:Eb;
    try reflexivity.
  exfalso. exact (H (length vals) vals (le_n _) columns Ef Eb).
Qed.

Lemma directions_exclusive_witness :
  selects (applyCursorConditions [] [("t", Desc); ("id", Desc)] true [JNum 10; JNum 4])
          [("id", VNum 3); ("t", VNum 9)] = true /\
  selects (applyCursorConditions [] [("t", Desc); ("id", Desc)] false [JNum 10; JNum 4])
          [("id", VNum 3); ("t", VNum 9)] = false.
Proof.
  split; [reflexivity|].
  apply (directions_exclusive [("t", Desc); ("id", Desc)] [JNum 10; JNum 4]
           [("id", VNum 3); ("t", VNum 9)]).
  reflexivity.
Defined.

(** ** Cursors the package makes *)

Lemma given_encoded (c : TCursor) :
  given (Some (base64_encode (stringify (json_of_cursor c)))) = true.
Proof.
  change (stringify (json_of_cursor c))
    with ("{" +:+ quote "data" +:+ ":" +:+ stringify (JArr (data c)) +:+ ","
          +:+ quote "point_to_next" +:+ ":" +:+ stringify (JBool (point_to_next c)) +:+ "}").
  unfold quote. string_norm.
  generalize (escape "data" +:+ str1 dquote +:+ ":" +:+ stringify (JArr (data c)) +:+ ","
              +:+ String dquote (escape "point_to_next" +:+ str1 dquote +:+ ":"
              +:+ stringify (JBool (point_to_next c)) +:+ "}")).
  intros s. destruct s as [|[] [|[] s]]; reflexivity.
Qed.

Lemma genCursor_decodes (columns : TColumns) (item : row) (b : bool) :
  exists c,
    genCursor columns (Some item) b = Ok c /\
    given (Some c) = true /\
    decodeCursor c
    = Some (json_of_cursor
              {| data := map (fun k => toJSON (field item k)) (Object_keys columns);
                 point_to_next := b |}).
Proof.
  eexists. split; [apply genCursor_item|]. split; [apply given_encoded|].
  apply decodeCursor_encode. cbn [data].
  rewrite <- (map_map (field item) toJSON). apply toJSON_scalar.
Qed.

(** X6. A cursor made by [genCursor] from a row for the ordering
    of a builder is always accepted by a call on that builder, when the
    builder holds no callback and its order statements have directions:
    whatever the row holds, the call reads the cursor without error and
    reaches the store once, with the filter of the values of the row,
    and with the ordering reversed exactly when the cursor was made with
    [pointToNext] false. *)
Theorem generated_cursor_accepted (db : list row) (limit : Z) (w : world) (item : row)
    (b : bool) :
  static (this w) = true -> directed (this w) = true ->
  let columns := convertOrderByToColumns (effective_order (this w)) in
  exists c,
    genCursor columns (Some item) b = Ok c /\
    cursor_error c = None /\
    fetched (snd (paginate db limit (Some c) w))
    = fetched w ++
      [fetch_query (this w) limit
         (applyCursorConditions [] columns b
            (map (fun k => toJSON (field item k)) (Object_keys columns)))
         (negb b)].
Proof.
  intros Hs Hdir. cbv zeta.
  destruct (genCursor_decodes (convertOrderByToColumns (effective_order (this w))) item b)
    as (c & Hc & Hg & Hd).
  exists c. split; [exact Hc|]. split.
  - unfold cursor_error. rewrite Hd. reflexivity.
  - rewrite paginate_stages by assumption. cbv zeta.
    rewrite (read_cursor_shaped _ c _ b Hg Hd). destruct b; reflexivity.
Qed.

Lemma generated_cursor_accepted_witness :
  let w := {| this := example_query; fetched := [] |} in
  let item := [("id", VNum 4); ("t", VNum 10)] in
  let columns := convertOrderByToColumns (effective_order (this w)) in
  exists c,
    genCursor columns (Some item) true = Ok c /\
    cursor_error c = None /\
    fetched (snd (paginate example_rows 2 (Some c) w))
    = fetched w ++
      [fetch_query (this w) 2
         (applyCursorConditions [] columns true
            (map (fun k => toJSON (field item k)) (Object_keys columns)))
         (negb true)].
Proof.
  apply (generated_cursor_accepted example_rows 2
           {| this := example_query; fetched := [] |}
           [("id", VNum 4); ("t", VNum 10)] true); reflexivity.
Defined.
(** ** Every page a call returns *)

Lemma exec_ok (db : list row) (q : QueryBuilder) (rows : list row) :
  exec db q = Ok rows ->
  exists n, rows = take n (sort_rows (orders q) (List.filter (selects (wheres q)) db)).
Proof.
  unfold exec. destruct (negb _); [discriminate|].
  destruct (limit_ q) as [n|].
  - destruct (n <? 0)%Z; [discriminate|]. intros [= <-]. eexists. reflexivity.
  - intros [= <-]. eexists. symmetry. apply take_ge. reflexivity.
Qed.

Lemma assemble_ok (columns : TColumns) (limit : Z) (m : mode) (rows : list row)
    (page : CursorPaginator) :
  assemble columns limit m rows = Ok page ->
  (exists n, items page = if is_backward m then rev (take n rows) else take n rows) /\
  (forall c, nextCursor page = Some c -> genCursor columns (last (items page)) true = Ok c) /\
  (forall c, prevCursor page = Some c -> genCursor columns (head (items page)) false = Ok c).
Proof.
  unfold assemble. destruct rows as [|r rows].
  { intros [= <-]. cbn [items nextCursor prevCursor].
    split; [exists 0%nat; destruct m; reflexivity|]. split; discriminate. }
  destruct (Z.of_nat (length (r :: rows)) <=? limit)%Z.
  - assert (Hall : take (length (r :: rows)) (r :: rows) = r :: rows)
      by (apply take_ge; reflexivity).
    destruct m.
    + intros [= <-]. cbn [items nextCursor prevCursor is_backward].
      split; [eexists; symmetry; exact Hall|]. split; discriminate.
    + destruct (genCursor columns (head (r :: rows)) false) as [prev|] eqn:Ep;
        [|discriminate].
      intros [= <-]. cbn [items nextCursor prevCursor is_backward].
      split; [eexists; symmetry; exact Hall|]. split; [discriminate|].
      intros c [= <-]. exact Ep.
    + destruct (genCursor columns (last_item (rev (r :: rows))) true) as [next|] eqn:En;
        [|discriminate].
      intros [= <-]. cbn [items nextCursor prevCursor is_backward].
      split; [exists (length (r :: rows)); rewrite Hall; reflexivity|].
      split; [|discriminate]. intros c [= <-]. exact En.
    + intros [= <-]. cbn [items nextCursor prevCursor is_backward].
      split; [eexists; symmetry; exact Hall|]. split; discriminate.
  - cbv zeta. unfold pop. rewrite removelast_firstn_len.
    set (kept := take (Init.Nat.pred (length (r :: rows))) (r :: rows)).
    destruct (genCursor columns (last_item _) true) as [next|] eqn:En; [|discriminate].
    destruct m.
    + intros [= <-]. cbn [items nextCursor prevCursor is_backward].
      split; [eexists; reflexivity|]. split; [|discriminate].
      intros c [= <-]. exact En.
    + destruct (genCursor columns (head kept) false) as [prev|] eqn:Ep; [|discriminate].
      intros [= <-]. cbn [items nextCursor prevCursor is_backward].
      split; [eexists; reflexivity|]. split; intros c [= <-]; assumption.
    + destruct (genCursor columns (head (rev kept)) false) as [prev|] eqn:Ep; [|discriminate].
      intros [= <-]. cbn [items nextCursor prevCursor is_backward].
      split; [eexists; reflexivity|]. split; intros c [= <-]; assumption.
    + destruct (genCursor columns (head kept) false) as [prev|] eqn:Ep; [|discriminate].
      intros [= <-]. cbn [items nextCursor prevCursor is_backward].
      split; [eexists; reflexivity|]. split; intros c [= <-]; assumption.
Qed.

Lemma read_cursor_filter (columns : TColumns) (cursor : option string)
    (filter : list where_stmt) (m : mode) :
  read_cursor columns cursor = Ok (filter, m) ->
  filter = [] \/ exists body, filter = [WhereWrapped BAnd body].
Proof.
  unfold read_cursor. destruct (given cursor); [|intros [= <- _]; left; reflexivity].
  destruct (decodeCursor _) as [j|]; [|discriminate].
  destruct (truthy j); [|intros [= <- _]; left; reflexivity].
  destruct (cursor_fields j) as [[b vals]|]; [|discriminate].
  intros [= <- _]. right. apply applyCursorConditions_group.
Qed.

(** A page is a prefix of the rows of the fetched query in the order of
    the fetch, turned round for a backward cursor. *)
Lemma page_items_shape (db : list row) (limit : Z) (cursor : option string) (w : world)
    (page : CursorPaginator) :
  fst (paginate db limit cursor w) = Ok page ->
  let q := this w in
  let columns := convertOrderByToColumns (effective_order q) in
  exists ws m n,
    (static q = true ->
     exists filter, read_cursor columns cursor = Ok (filter, m) /\ ws = wheres q ++ filter) /\
    items page
    = (let rows := take n (sort_rows (fetch_order (is_backward m) (effective_order q))
                             (List.filter (selects ws) db)) in
       if is_backward m then rev rows else rows) /\
    (forall c, nextCursor page = Some c -> genCursor columns (last (items page)) true = Ok c) /\
    (forall c, prevCursor page = Some c -> genCursor columns (head (items page)) false = Ok c).
Proof.
  intros Hp. cbv zeta.
  apply paginate_ok in Hp as (sent & m & rows & _ & _ & He & Ha & Ho & _ & _ & Hs).
  apply exec_ok in He as [n ->]. rewrite Ho in Ha.
  apply assemble_ok in Ha as ([k Hk] & Hn & Hv).
  exists (wheres sent), m, (Nat.min k n). split; [|split; [|split; assumption]].
  - intros Hst. destruct (Hs Hst) as (filter & Hr & ->). exists filter.
    split; [exact Hr|apply wheres_fetch_query].
  - rewrite Hk. cbv zeta. rewrite take_take. reflexivity.
Qed.

Lemma row_le_reversed (os : list OrderByClause) (r1 r2 : row) :
  row_le (fetch_order true os) r1 r2 <-> row_le os r2 r1.
Proof. unfold row_le. rewrite order_cmp_flip. reflexivity. Qed.

(** X7. The items of every page a call returns are in the
    order of the ordering the builder had ([id desc] when it had none),
    whatever the cursor and the rows are; this holds for a backward page
    too, which is fetched in the inverted order and turned round. *)
Theorem page_in_order (db : list row) (q : QueryBuilder) (limit : Z)
    (cursor : option string) (page : CursorPaginator) :
  run_page db q limit cursor = Ok page ->
  StronglySorted (row_le (effective_order q)) (items page).
Proof.
  unfold run_page. intros Hp.
  apply page_items_shape in Hp as (ws & m & n & _ & Hi & _). cbn [this] in Hi.
  rewrite Hi. cbv zeta.
  set (l := List.filter _ db).
  pose proof (sort_rows_sorted (fetch_order (is_backward m) (effective_order q)) l) as Hs.
  rewrite <- (take_drop n (sort_rows _ l)) in Hs. apply StronglySorted_app_1_l in Hs.
  destruct (is_backward m).
  - rewrite rev_reverse. apply strongly_sorted_reverse in Hs.
    eapply strongly_sorted_impl; [|exact Hs].
    intros x y _ _ H. unfold flip in H. exact (proj1 (row_le_reversed _ _ _) H).
  - rewrite fetch_order_same in *. exact Hs.
Qed.

Lemma page_in_order_witness :
  StronglySorted (row_le (effective_order example_query))
    (items (mkPage (take 2 (listing example_rows example_query))
              (Some "eyJkYXRhIjpbMTAsNF0sInBvaW50X3RvX25leHQiOnRydWV9") None)).
Proof.
  apply (page_in_order example_rows example_query 2 None).
  vm_compute. reflexivity.
Defined.

(** X8. A call never invents or repeats a row: every item of
    a page is a row of the store, a store without repeated rows gives
    pages without repeated items, and when the caller's filters are
    conjunctive every item passes them. *)
Theorem page_rows_from_store (db : list row) (q : QueryBuilder) (limit : Z)
    (cursor : option string) (page : CursorPaginator) :
  run_page db q limit cursor = Ok page ->
  (forall r, r ∈ items page -> r ∈ db) /\
  (NoDup db -> NoDup (items page)) /\
  (conjunctive q = true -> forall r, r ∈ items page -> selects (wheres q) r = true).
Proof.
  unfold run_page. intros Hp.
  apply page_items_shape in Hp as (ws & m & n & Hr & Hi & _). cbn [this] in Hi, Hr.
  cbv zeta in Hi.
  set (l := List.filter (selects ws) db) in *.
  set (os := fetch_order (is_backward m) (effective_order q)) in *.
  assert (Hin : forall r, r ∈ items page -> r ∈ l).
  { intros r. rewrite Hi. intros H.
    assert (H' : r ∈ take n (sort_rows os l)).
    { destruct (is_backward m); [|exact H].
      rewrite rev_reverse in H. exact (proj1 (elem_of_reverse _ _) H). }
    apply elem_of_take in H' as (i & Hl & _).
    rewrite <- (sort_rows_perm os l). apply list_elem_of_lookup. exists i. exact Hl. }
  split; [|split].
  - intros r H. apply Hin, elem_of_filter_bool in H. tauto.
  - intros Hnd. rewrite Hi.
    assert (H : NoDup (take n (sort_rows os l))).
    { apply (sublist_NoDup _ (sort_rows os l)); [|apply sublist_take].
      rewrite (sort_rows_perm os l). apply NoDup_filter_bool. exact Hnd. }
    destruct (is_backward m); [|exact H]. rewrite rev_reverse, reverse_Permutation. exact H.
  - intros Hc r H. apply Hin, elem_of_filter_bool in H as [_ H].
    destruct (Hr (conjunctive_static q Hc)) as (filter & Hr' & ->).
    apply conjunctive_spec in Hc as [_ Hand].
    apply read_cursor_filter in Hr' as [->|[body ->]].
    + rewrite app_nil_r in H. exact H.
    + unfold selects in *. rewrite (eval_wheres_and r _ (WhereWrapped BAnd body) Hand eq_refl) in H.
      destruct (eval_wheres r (wheres q)); try reflexivity;
        destruct (eval_where r _); discriminate H.
Qed.

Lemma page_rows_from_store_witness :
  let page := mkPage (take 2 (listing example_rows example_query))
                (Some "eyJkYXRhIjpbMTAsNF0sInBvaW50X3RvX25leHQiOnRydWV9") None in
  (forall r, r ∈ items page -> r ∈ example_rows) /\
  (NoDup example_rows -> NoDup (items page)) /\
  (conjunctive example_query = true ->
   forall r, r ∈ items page -> selects (wheres example_query) r = true).
Proof.
  apply (page_rows_from_store example_rows example_query 2 None).
  vm_compute. reflexivity.
Defined.

Lemma genCursor_Ok_item (columns : TColumns) (o : option row) (b : bool) (c : string) :
  Object_keys columns <> [] -> genCursor columns o b = Ok c -> exists r, o = Some r.
Proof.
  intros Hk. destruct o as [r|]; [intros _; exists r; reflexivity|].
  unfold genCursor. destruct (Object_keys columns); [congruence|discriminate].
Qed.

(** X9. The cursors of every page are made from the page's own
    ends: a next cursor decodes to the values of the last item for the
    columns of the ordering, flagged as pointing forward, and a previous
    cursor to the values of the first item, flagged as pointing back.
    This holds whatever cursor the call was given. *)
Theorem cursors_from_page_ends (db : list row) (q : QueryBuilder) (limit : Z)
    (cursor : option string) (page : CursorPaginator) :
  run_page db q limit cursor = Ok page ->
  let keys := Object_keys (convertOrderByToColumns (effective_order q)) in
  (forall c, nextCursor page = Some c ->
     exists r, last (items page) = Some r /\
       decodeCursor c
       = Some (json_of_cursor {| data := map (fun k => toJSON (field r k)) keys;
                                 point_to_next := true |})) /\
  (forall c, prevCursor page = Some c ->
     exists r, head (items page) = Some r /\
       decodeCursor c
       = Some (json_of_cursor {| data := map (fun k => toJSON (field r k)) keys;
                                 point_to_next := false |})).
Proof.
  unfold run_page. intros Hp.
  apply page_items_shape in Hp as (_ & _ & _ & _ & _ & Hn & Hv). cbn [this] in Hn, Hv.
  pose proof (columns_nonempty _ (effective_order_nonempty q)) as Hk.
  cbv zeta. split; intros c Hc.
  - apply Hn in Hc. destruct (genCursor_Ok_item _ _ _ _ Hk Hc) as [r Hr].
    exists r. split; [exact Hr|]. rewrite Hr in Hc.
    destruct (genCursor_decodes (convertOrderByToColumns (effective_order q)) r true)
      as (c' & Hc' & _ & Hd).
    rewrite Hc' in Hc. injection Hc as <-. exact Hd.
  - apply Hv in Hc. destruct (genCursor_Ok_item _ _ _ _ Hk Hc) as [r Hr].
    exists r. split; [exact Hr|]. rewrite Hr in Hc.
    destruct (genCursor_decodes (convertOrderByToColumns (effective_order q)) r false)
      as (c' & Hc' & _ & Hd).
    rewrite Hc' in Hc. injection Hc as <-. exact Hd.
Qed.

Lemma cursors_from_page_ends_witness :
  let page := mkPage [[("id", VNum 3); ("t", VNum 9)]] None
                (Some "eyJkYXRhIjpbOSwzXSwicG9pbnRfdG9fbmV4dCI6ZmFsc2V9") in
  let keys := Object_keys (convertOrderByToColumns (effective_order example_query)) in
  (forall c, nextCursor page = Some c ->
     exists r, last (items page) = Some r /\
       decodeCursor c
       = Some (json_of_cursor {| data := map (fun k => toJSON (field r k)) keys;
                                 point_to_next := true |})) /\
  (forall c, prevCursor page = Some c ->
     exists r, head (items page) = Some r /\
       decodeCursor c
       = Some (json_of_cursor {| data := map (fun k => toJSON (field r k)) keys;
                                 point_to_next := false |})).
Proof.
  apply (cursors_from_page_ends example_rows example_query 2
           (Some "eyJkYXRhIjpbMTAsNF0sInBvaW50X3RvX25leHQiOnRydWV9")).
  vm_compute. reflexivity.
Defined.

(** X10. A page without items carries no cursor: when a call
    returns an empty page, both its next and its previous cursor are
    absent, whatever cursor the call was given. *)
Theorem empty_page_no_cursor (db : list row) (q : QueryBuilder) (limit : Z)
    (cursor : option string) (page : CursorPaginator) :
  run_page db q limit cursor = Ok page ->
  items page = [] ->
  nextCursor page = None /\ prevCursor page = None.
Proof.
  unfold run_page. intros Hp He.
  apply page_items_shape in Hp as (_ & _ & _ & _ & _ & Hn & Hv). cbn [this] in Hn, Hv.
  pose proof (columns_nonempty _ (effective_order_nonempty q)) as Hk.
  rewrite He in Hn, Hv. split.
  - destruct (nextCursor page) as [c|]; [|reflexivity].
    destruct (genCursor_Ok_item _ _ _ _ Hk (Hn c eq_refl)) as [r Hr]. discriminate Hr.
  - destruct (prevCursor page) as [c|]; [|reflexivity].
    destruct (genCursor_Ok_item _ _ _ _ Hk (Hv c eq_refl)) as [r Hr]. discriminate Hr.
Qed.

Lemma empty_page_no_cursor_witness :
  nextCursor (mkPage [] None None) = None /\ prevCursor (mkPage [] None None) = None.
Proof.
  apply (empty_page_no_cursor example_rows example_query 2
           (Some "eyJkYXRhIjpbOSwzXSwicG9pbnRfdG9fbmV4dCI6dHJ1ZX0=")).
  - vm_compute. reflexivity.
  - reflexivity.
Defined.

Lemma self_compare (v : jsval) :
  sql_compare v (toJSON v) = None \/ sql_compare v (toJSON v) = Some Eq.
Proof.
  destruct v as [| |a|n|s|s]; cbn; auto; right; f_equal.
  - destruct a; reflexivity.
  - apply Z.compare_refl.
  - apply string_compare_refl.
  - apply string_compare_refl.
Qed.

Lemma strict_self (bo : connective) (k : option string) (op : operator) (b : row) :
  op <> OpEq ->
  eval_where b (WhereBasic bo k op (toJSON <$> (field b <$> k))) <> T.
Proof.
  intros Hop. destruct k as [k|]; [|discriminate]. cbn [fmap option_fmap option_map eval_where].
  unfold eval_basic. destruct (self_compare (field b k)) as [->| ->]; [discriminate|].
  destruct op; cbn; congruence.
Qed.

Lemma self_not_selected (b : row) (flag : bool) (columns : TColumns) :
  NoDup (Object_keys columns) ->
  eval_wheres b (applyCursorConditions [] columns flag
                   (map (fun k => toJSON (field b k)) (Object_keys columns))) <> T.
Proof.
  assert (Hop : forall dir : option Direction,
            (if flag then match dir with Some Asc => OpGt | _ => OpLt end
             else match dir with Some Asc => OpLt | _ => OpGt end) <> OpEq)
    by (intros [[]|]; destruct flag; discriminate).
  induction columns as [|[k d] columns IH]; intros Hnd.
  - rewrite group_last by (cbn; lia). cbv zeta. discriminate.
  - cbn [Object_keys map fst] in *. apply NoDup_cons in Hnd as [Hk Hnd].
    destruct columns as [|[k' d'] columns].
    + rewrite group_last by (cbn; lia). cbv zeta.
      cbn [map head where_call Object_keys fst].
      apply (strict_self BAnd (Some k)), Hop.
    + cbn [map fst]. rewrite group_step. cbv zeta. intros H.
      apply tri_or_T in H as [H|H].
      * revert H. apply (strict_self BAnd (Some k)), Hop.
      * apply tri_and_T in H as [_ H]. revert H.
        cbn [Object_keys map fst head].
        rewrite (delete_own_first k d ((k', d') :: columns) Hk). exact (IH Hnd).
Qed.

(** X11. The row a cursor was made from is never in the page
    that cursor opens, in either direction: when the caller's filters
    are conjunctive, a call given the cursor [genCursor] makes from a row
    returns a page without that row. This needs no uniqueness of the
    ordering columns. *)
Theorem boundary_row_excluded (db : list row) (q : QueryBuilder) (limit : Z)
    (b : row) (flag : bool) (c : string) (page : CursorPaginator) :
  conjunctive q = true ->
  genCursor (convertOrderByToColumns (effective_order q)) (Some b) flag = Ok c ->
  run_page db q limit (Some c) = Ok page ->
  b ∉ items page.
Proof.
  intros Hc Hg Hp Hb.
  destruct (genCursor_decodes (convertOrderByToColumns (effective_order q)) b flag)
    as (c' & Hc' & Hgiven & Hd).
  rewrite Hc' in Hg. injection Hg as ->.
  pose proof (read_cursor_shaped (convertOrderByToColumns (effective_order q)) c _ flag
                Hgiven Hd) as Hr.
  unfold run_page in Hp.
  apply page_items_shape in Hp as (ws & m & n & Hr' & Hi & _). cbn [this] in Hr', Hi.
  destruct (Hr' (conjunctive_static q Hc)) as (filter & Hr'' & ->). clear Hr'.
  rewrite Hr in Hr''. injection Hr'' as <- _. cbv zeta in Hi.
  set (filter := applyCursorConditions _ _ _ _) in *.
  assert (Hsel : selects (wheres q ++ filter) b = true).
  { assert (H : b ∈ take n (sort_rows (fetch_order (is_backward m) (effective_order q))
                              (List.filter (selects (wheres q ++ filter)) db))).
    { rewrite Hi in Hb. destruct (is_backward m); [|exact Hb].
      rewrite rev_reverse in Hb. exact (proj1 (elem_of_reverse _ _) Hb). }
    apply elem_of_take in H as (i & Hl & _).
    assert (H : b ∈ sort_rows (fetch_order (is_backward m) (effective_order q))
                      (List.filter (selects (wheres q ++ filter)) db))
      by (apply list_elem_of_lookup; exists i; exact Hl).
    rewrite sort_rows_perm in H. apply elem_of_filter_bool in H. tauto. }
  pose proof (self_not_selected b flag (convertOrderByToColumns (effective_order q))
                (NoDup_keys_convert _)) as Hself.
  fold filter in Hself.
  destruct (applyCursorConditions_group (convertOrderByToColumns (effective_order q)) flag
              (map (fun k => toJSON (field b k))
                 (Object_keys (convertOrderByToColumns (effective_order q)))))
    as [body Hbody].
  fold filter in Hbody. rewrite Hbody in Hsel, Hself.
  apply conjunctive_spec in Hc as [_ Hand].
  unfold selects in Hsel.
  rewrite (eval_wheres_and b _ (WhereWrapped BAnd body) Hand eq_refl) in Hsel.
  rewrite eval_wheres_single in Hself.
  destruct (eval_wheres b (wheres q)), (eval_where b (WhereWrapped BAnd body));
    try discriminate Hsel. congruence.
Qed.

Lemma boundary_row_excluded_witness :
  [("id", VNum 2); ("t", VNum 9)]
  ∉ items (mkPage [[("id", VNum 4); ("t", VNum 8)]]
             None (Some "eyJkYXRhIjpbOF0sInBvaW50X3RvX25leHQiOmZhbHNlfQ==")).
Proof.
  apply (boundary_row_excluded tied_rows tied_query 2 [("id", VNum 2); ("t", VNum 9)] true
           "eyJkYXRhIjpbOV0sInBvaW50X3RvX25leHQiOnRydWV9").
  - reflexivity.
  - vm_compute. reflexivity.
  - vm_compute. reflexivity.
Defined.

(** ** Traversal towards the start *)

Lemma backward_pages_before (db : list row) (q : QueryBuilder) (limit : Z) :
  directed q = true -> exact_listing db q -> (1 <= limit)%Z ->
  forall fuel i b,
    listing db q !! i = Some b -> i < fuel ->
    backward_pages fuel db q limit (Some (cursor_of (effective_order q) b false))
    = Some (Ok (take i (listing db q))).
Proof.
  intros Hdir Hex Hl. induction fuel as [|fuel IH]; intros i b Hi Hf; [lia|].
  cbn [backward_pages]. rewrite (page_backward db q limit i b Hdir Hex Hl Hi).
  set (S := listing db q) in *. set (n := Z.to_nat limit).
  assert (Hn : 1 <= n) by (unfold n; lia).
  assert (HiS : i < length S) by (apply lookup_lt_Some in Hi; exact Hi).
  unfold page_before. cbv zeta. cbn [prevCursor items].
  rewrite length_take, (Nat.min_l i (length S)) by lia.
  destruct (n <? i)%nat eqn:E.
  - apply Nat.ltb_lt in E.
    assert (Hh : head (drop (i - n) (take i S)) = S !! (i - n)).
    { rewrite head_lookup, lookup_drop, Nat.add_0_r. apply lookup_take_lt. lia. }
    destruct (lookup_lt_is_Some_2 S (i - n)) as [b' Hb']; [lia|].
    rewrite Hh, Hb'. cbn [cursor_at].
    rewrite (IH (i - n) b' Hb') by lia.
    f_equal. f_equal.
    replace (take (i - n) S) with (take (i - n) (take i S))
      by (rewrite take_take; f_equal; lia).
    apply take_drop.
  - apply Nat.ltb_ge in E. replace (i - n) with 0 by lia. reflexivity.
Qed.

(** X14. When every order statement of the builder has a
    direction, under the conditions of an exact listing and with a
    limit of at least 1, following the previous cursors back from a row
    of the listing visits every row before it: the pages, put in front of
    one another, are the listing up to that row, in order and without
    repeats. *)
Theorem backward_pages_cover (db : list row) (q : QueryBuilder) (limit : Z) (i : nat)
    (b : row) :
  directed q = true -> exact_listing db q -> (1 <= limit)%Z ->
  listing db q !! i = Some b ->
  backward_pages (S i) db q limit (Some (cursor_of (effective_order q) b false))
  = Some (Ok (take i (listing db q))).
Proof.
  intros Hdir Hex Hl Hi. apply (backward_pages_before db q limit Hdir Hex Hl (S i) i b Hi). lia.
Qed.

Lemma backward_pages_cover_witness :
  backward_pages 3 example_rows example_query 1
    (Some (cursor_of (effective_order example_query) [("id", VNum 3); ("t", VNum 9)] false))
  = Some (Ok (take 2 (listing example_rows example_query))).
Proof.
  apply (backward_pages_cover example_rows example_query 1 2 [("id", VNum 3); ("t", VNum 9)]).
  - reflexivity.
  - exact example_exact.
  - lia.
  - vm_compute. reflexivity.
Defined.

(** X17. When every order statement of the builder has a
    direction, under the conditions of an exact listing and with a
    limit of at least 1, the page before a row, the row itself and the
    page after it are consecutive rows of the listing: the two pages
    opened from a row meet at it, with no row between them missed and
    none repeated. *)
Theorem pages_meet_at_row (db : list row) (q : QueryBuilder) (limit : Z) (i : nat)
    (b : row) :
  directed q = true -> exact_listing db q -> (1 <= limit)%Z ->
  listing db q !! i = Some b ->
  exists before after pre post,
    run_page db q limit (Some (cursor_of (effective_order q) b false)) = Ok before /\
    run_page db q limit (Some (cursor_of (effective_order q) b true)) = Ok after /\
    listing db q = pre ++ items before ++ [b] ++ items after ++ post.
Proof.
  intros Hdir Hex Hl Hi.
  rewrite (page_backward db q limit i b Hdir Hex Hl Hi), (page_forward db q limit i b Hdir Hex Hl Hi).
  set (S := listing db q) in *. set (n := Z.to_nat limit).
  assert (HiS : i < length S) by (apply lookup_lt_Some in Hi; exact Hi).
  exists (page_before (effective_order q) n S i), (page_after (effective_order q) n S i),
         (take (i - n) S), (drop n (drop (Datatypes.S i) S)).
  split; [reflexivity|]. split; [reflexivity|].
  unfold page_before, page_after. cbv zeta. cbn [items].
  rewrite length_take, (Nat.min_l i (length S)) by lia.
  replace (take (i - n) S) with (take (i - n) (take i S))
    by (rewrite take_take; f_equal; lia).
  rewrite (app_assoc (take (i - n) (take i S))), take_drop.
  cbn [app]. rewrite take_drop. symmetry. apply take_drop_middle. exact Hi.
Qed.

Lemma pages_meet_at_row_witness :
  exists before after pre post,
    run_page example_rows example_query 1
      (Some (cursor_of (effective_order example_query) [("id", VNum 4); ("t", VNum 10)] false))
    = Ok before /\
    run_page example_rows example_query 1
      (Some (cursor_of (effective_order example_query) [("id", VNum 4); ("t", VNum 10)] true))
    = Ok after /\
    listing example_rows example_query
    = pre ++ items before ++ [[("id", VNum 4); ("t", VNum 10)]] ++ items after ++ post.
Proof.
  apply (pages_meet_at_row example_rows example_query 1 1 [("id", VNum 4); ("t", VNum 10)]).
  - reflexivity.
  - exact example_exact.
  - lia.
  - vm_compute. reflexivity.
Defined.

(** ** What a call does to the builder *)

(** X15. The direction of a cursor is the truth value of its
    [point_to_next] alone. On a builder that holds no callback and whose
    order statements have directions, a cursor that decodes to an object
    with an array of plain values, no more of them than the ordering has
    columns, is read as a forward cursor when [point_to_next] is truthy,
    and otherwise, also when the property is missing, as a backward
    cursor, for which the comparisons and the ordering of the fetch are
    both inverted. *)
Theorem flag_decides_direction (db : list row) (limit : Z) (c : string) (w : world)
    (j : json) (vals : list json) :
  static (this w) = true -> directed (this w) = true ->
  given (Some c) = true ->
  decodeCursor c = Some j ->
  cursor_values j = Some vals ->
  forallb plain_value vals = true ->
  let forward := truthy_prop "point_to_next" j in
  let columns := convertOrderByToColumns (effective_order (this w)) in
  (length vals <= length (Object_keys columns))%nat ->
  fetched (snd (paginate db limit (Some c) w))
  = fetched w ++
    [fetch_query (this w) limit (applyCursorConditions [] columns forward vals)
       (negb forward)].
Proof.
  intros Hs Hdir Hg Hd Hv _. cbv zeta. intros _.
  rewrite paginate_stages by assumption. cbv zeta.
  rewrite (read_cursor_values _ c j vals Hg Hd Hv).
  destruct (truthy_prop "point_to_next" j); reflexivity.
Qed.

Lemma flag_decides_direction_witness :
  let w := {| this := mkQuery [OrderByBasic "id" (Some Desc)] None; fetched := [] |} in
  let forward := truthy_prop "point_to_next" (JObj [("data", JArr [JNum 5])]) in
  let columns := convertOrderByToColumns (effective_order (this w)) in
  fetched (snd (paginate [] 2 (Some "eyJkYXRhIjpbNV19") w))
  = fetched w ++
    [fetch_query (this w) 2 (applyCursorConditions [] columns forward [JNum 5])
       (negb forward)].
Proof.
  apply (flag_decides_direction [] 2 "eyJkYXRhIjpbNV19"
           {| this := mkQuery [OrderByBasic "id" (Some Desc)] None; fetched := [] |}
           (JObj [("data", JArr [JNum 5])]) [JNum 5]).
  - reflexivity.
  - reflexivity.
  - reflexivity.
  - vm_compute. reflexivity.
  - reflexivity.
  - reflexivity.
  - cbn. lia.
Defined.




Lemma clauses_of_left (l : list statement) :
  clauses_of (snd (compile_statements l)) = clauses_of l.
Proof.
  induction l as [|s l IH]; [reflexivity|].
  destruct s as [c [d|]|sql|x|columns b [vals|]|g]; cbn [compile_statements];
    try reflexivity;
    destruct (compile_statements l) as [sent left]; cbn [snd] in *;
    cbn [clauses_of]; rewrite ?IH; reflexivity.
Qed.

Lemma elem_of_left (s : statement) (l : list statement) :
  s ∈ snd (compile_statements l) -> is_callback s = true \/ s ∈ l.
Proof.
  induction l as [|x l IH]; [intros H; right; exact H|].
  destruct x as [c d|sql|x|columns b [vals|]|g]; cbn [compile_statements];
    try (intros H; right; exact H);
    destruct (compile_statements l) as [sent left]; cbn [snd] in *;
    rewrite !elem_of_cons; intros [->|H]; auto;
    destruct (IH H) as [Hc|Hl]; auto.
Qed.

(** X18. A builder without a basic order statement is paged
    by [id]: after a call that returned a page, its only basic order
    statement is [id], descending when the call was given no cursor, and
    no raw order statement of the caller is left in it. *)
Theorem default_ordering (db : list row) (limit : Z) (cursor : option string) (w : world)
    (page : CursorPaginator) :
  extractOrderByClauses (this w) = Ok [] ->
  fst (paginate db limit cursor w) = Ok page ->
  let q' := this (snd (paginate db limit cursor w)) in
  (exists d, extractOrderByClauses q' = Ok [mkClause "id" d] /\
             (given cursor = false -> d = Desc)) /\
  (forall sql, OrderByRaw sql ∉ statements q').
Proof.
  intros He. pose proof (extract_orders _ _ He) as Ho. symmetry in Ho.
  rewrite paginate_stages_general. cbv zeta. rewrite He.
  destruct (decoded cursor) as [j|e] eqn:Ed; [|discriminate].
  unfold fetch_stage.
  pose proof (clauses_of_left
                (statements (fetch_builder (this w) limit
                   (callback_for (convertOrderByToColumns (effective_order (this w)))
                      cursor j)
                   (is_backward (mode_of cursor j))))) as Hc.
  pose proof (fun s => elem_of_left s
                (statements (fetch_builder (this w) limit
                   (callback_for (convertOrderByToColumns (effective_order (this w)))
                      cursor j)
                   (is_backward (mode_of cursor j))))) as Hin.
  destruct (compile_statements _) as [[sent|e] left]; [|discriminate].
  cbn [snd] in Hc, Hin. intros _. cbn [snd this]. split.
  - exists (if is_backward (mode_of cursor j) then Asc else Desc).
    unfold extractOrderByClauses. cbn [statements]. rewrite Hc.
    unfold fetch_builder. cbn [statements]. rewrite clauses_of_cleared.
    assert (Hcb : forall l, clauses_of (callback_for
                     (convertOrderByToColumns (effective_order (this w))) cursor j ++ l)
                   = clauses_of l).
    { intros l. unfold callback_for. destruct (given cursor && truthy j); reflexivity. }
    rewrite Hcb, clauses_of_basic. unfold effective_order. rewrite Ho.
    split; [destruct (is_backward (mode_of cursor j)); reflexivity|].
    intros Hg. unfold mode_of. rewrite Hg. reflexivity.
  - intros sql H. apply Hin in H as [H|H]; [discriminate H|].
    revert H. unfold fetch_builder. cbn [statements].
    rewrite !elem_of_app. intros [H|[H|H]].
    + apply list_elem_of_In, filter_In in H as [_ H]. discriminate H.
    + unfold callback_for in H. destruct (given cursor && truthy j).
      * apply list_elem_of_singleton in H. discriminate H.
      * apply elem_of_nil in H. exact H.
    + apply list_elem_of_fmap in H as (x & Hx & _). discriminate Hx.
Qed.

Lemma default_ordering_witness :
  let w := {| this := mkQuery [OrderByRaw "random()"] None; fetched := [] |} in
  let q' := this (snd (paginate [[("id", VNum 1)]; [("id", VNum 2)]] 1 None w)) in
  (exists d, extractOrderByClauses q' = Ok [mkClause "id" d] /\
             (given None = false -> d = Desc)) /\
  (forall sql, OrderByRaw sql ∉ statements q').
Proof.
  apply (default_ordering [[("id", VNum 1)]; [("id", VNum 2)]] 1 None
           {| this := mkQuery [OrderByRaw "random()"] None; fetched := [] |}
           (mkPage [[("id", VNum 2)]] (Some "eyJkYXRhIjpbMl0sInBvaW50X3RvX25leHQiOnRydWV9") None)).
  - reflexivity.
  - vm_compute. reflexivity.
Defined.

Lemma page_length_bound_witness :
  (Z.of_nat (length (items (mkPage [[("id", VNum 2)]]
                              (Some "eyJkYXRhIjpbMl0sInBvaW50X3RvX25leHQiOnRydWV9") None)))
   <= 1)%Z.
Proof.
  apply (page_length_bound [[("id", VNum 1)]; [("id", VNum 2)]] 1 None
           {| this := mkQuery [] None; fetched := [] |}).
  - lia.
  - vm_compute. reflexivity.
Defined.
(** ** The first page *)

(** X20. With conjunctive filters, order statements that have
    directions and a limit of at least 1, a call without cursor returns
    a page: its items are the first
    [limit] rows of the caller's query in the order of the ordering, it
    has a next cursor exactly when the query has more rows than that, and
    it has no previous cursor. Rows with equal keys and columns of any
    name are allowed here. *)
Theorem first_page_prefix (db : list row) (q : QueryBuilder) (limit : Z) :
  conjunctive q = true -> directed q = true -> (1 <= limit)%Z ->
  exists page,
    run_page db q limit None = Ok page /\
    items page = take (Z.to_nat limit) (listing db q) /\
    (nextCursor page <> None <-> Z.to_nat limit < length (listing db q)) /\
    prevCursor page = None.
Proof.
  intros Hc Hdir Hl. unfold run_page.
  rewrite paginate_stages by (cbn [this]; first [exact Hdir | apply conjunctive_static, Hc]).
  cbv zeta.
  change (read_cursor _ None) with (@Ok (list where_stmt * mode) ([], First)).
  cbn [fst this is_backward]. rewrite fetch_first by (exact Hc || lia).
  set (S := listing db q). set (n := Z.to_nat limit).
  set (columns := convertOrderByToColumns (effective_order q)).
  destruct (decide (S = [])) as [->|Hne].
  { rewrite assemble_none. eexists. split; [reflexivity|]. cbn [items nextCursor prevCursor].
    rewrite take_nil. split; [reflexivity|]. split; [|reflexivity].
    cbn [length]. split; [congruence|lia]. }
  destruct (n <? length S)%nat eqn:E.
  - apply Nat.ltb_lt in E. rewrite assemble_overflow by (exact Hl || exact E).
    cbv zeta. fold n. unfold last_item.
    destruct (is_Some_last (take n S)) as [r Hr].
    { apply take_nonempty; [exact Hne|unfold n; lia]. }
    rewrite Hr, genCursor_item. eexists. split; [reflexivity|].
    cbn [items nextCursor prevCursor]. split; [reflexivity|]. split; [|reflexivity].
    split; [intros _; exact E|discriminate].
  - apply Nat.ltb_ge in E. rewrite assemble_small by (exact Hl || exact Hne || exact E).
    eexists. split; [reflexivity|]. cbn [items nextCursor prevCursor].
    split; [symmetry; apply take_ge; exact E|]. split; [|reflexivity].
    split; [congruence|lia].
Qed.

Lemma first_page_prefix_witness :
  exists page,
    run_page tied_rows tied_query 2 None = Ok page /\
    items page = take (Z.to_nat 2) (listing tied_rows tied_query) /\
    (nextCursor page <> None <-> Z.to_nat 2 < length (listing tied_rows tied_query)) /\
    prevCursor page = None.
Proof.
  apply (first_page_prefix tied_rows tied_query 2).
  - reflexivity.
  - reflexivity.
  - lia.
Defined.

Lemma static_fetch_query (q : QueryBuilder) (limit : Z) :
  static q = true -> static (fetch_query q limit [] false) = true.
Proof.
  intros Hs. unfold static, fetch_query. cbn [statements map app].
  rewrite forallb_app, (static_cleared q Hs), static_orders. reflexivity.
Qed.

Lemma directed_fetch_query (q : QueryBuilder) (limit : Z) :
  directed (fetch_query q limit [] false) = true.
Proof.
  unfold directed, fetch_query. cbn [statements map app]. rewrite forallb_app.
  apply andb_true_intro. split.
  - induction (statements q) as [|s l IH]; [reflexivity|]. cbn [List.filter].
    destruct s; cbn; exact IH.
  - induction (fetch_order false (effective_order q)) as [|o os IH]; [reflexivity|exact IH].
Qed.

Lemma effective_order_fetch_query (q : QueryBuilder) (limit : Z) (filter : list where_stmt) :
  effective_order (fetch_query q limit filter false) = effective_order q.
Proof.
  unfold effective_order at 1.
  rewrite orders_fetch_query, fetch_order_same.
  destruct (effective_order q) as [|o os] eqn:E; [|reflexivity].
  destruct (effective_order_nonempty q E).
Qed.

Lemma filter_filter_order (l : list statement) :
  List.filter (fun s => negb (is_order s)) (List.filter (fun s => negb (is_order s)) l)
  = List.filter (fun s => negb (is_order s)) l.
Proof.
  induction l as [|s l IH]; [reflexivity|]. cbn [List.filter].
  destruct (negb (is_order s)) eqn:E; [|exact IH].
  cbn [List.filter]. rewrite E, IH. reflexivity.
Qed.

Lemma fetch_query_again (q : QueryBuilder) (limit : Z) :
  fetch_query (fetch_query q limit [] false) limit [] false = fetch_query q limit [] false.
Proof.
  unfold fetch_query at 1. rewrite effective_order_fetch_query.
  unfold fetch_query. cbn [statements map app]. f_equal.
  rewrite List.filter_app, filter_filter_order, filter_order_orders, app_nil_r.
  reflexivity.
Qed.

Lemma builder_after_plain (q : QueryBuilder) (limit : Z) :
  builder_after q limit None = fetch_query q limit [] false.
Proof. reflexivity. Qed.

(** X19. A call without cursor can be repeated on the same
    builder, when the builder holds no callback of an earlier call with
    a cursor: the builder a first such call leaves behind is fetched
    unchanged by a second one with the same limit, which returns the same
    result. *)
Theorem first_call_repeatable (db : list row) (limit : Z) (w : world) :
  static (this w) = true ->
  let w1 := snd (paginate db limit None w) in
  fst (paginate db limit None w1) = fst (paginate db limit None w) /\
  this (snd (paginate db limit None w1)) = this w1.
Proof.
  intros Hs. cbv zeta.
  destruct (extractOrderByClauses (this w)) as [clauses|e] eqn:Ex.
  - apply extract_Ok_directed in Ex.
    rewrite (paginate_stages db limit None w Hs Ex). cbv zeta.
    change (read_cursor _ None) with (@Ok (list where_stmt * mode) ([], First)).
    cbn [fst snd this is_backward]. rewrite builder_after_plain.
    rewrite paginate_stages
      by (cbn [this]; first [apply static_fetch_query, Hs | apply directed_fetch_query]).
    cbv zeta.
    change (read_cursor _ None) with (@Ok (list where_stmt * mode) ([], First)).
    cbn [fst snd this is_backward].
    rewrite builder_after_plain, fetch_query_again, effective_order_fetch_query.
    split; reflexivity.
  - assert (E : paginate db limit None w = (Throw e, w)).
    { rewrite paginate_stages_general. cbv zeta. rewrite Ex. reflexivity. }
    rewrite E. cbn [snd]. rewrite E. split; reflexivity.
Qed.

Lemma first_call_repeatable_witness :
  let w := {| this := tied_query; fetched := [] |} in
  let w1 := snd (paginate tied_rows 2 None w) in
  fst (paginate tied_rows 2 None w1) = fst (paginate tied_rows 2 None w) /\
  this (snd (paginate tied_rows 2 None w1)) = this w1.
Proof.
  apply (first_call_repeatable tied_rows 2 {| this := tied_query; fetched := [] |}).
  reflexivity.
Defined.
